(** * fmga: genetic-algorithm function maximisation

    A shallow embedding of [fmga/function_maximize.py] and the properties
    of its candidate model, weighted selection, crossover, ranking,
    breeding, the [maximize]/[minimize] drivers and the [unpack] helper.

    Numbers.  Coordinates, fitness and diversity values are Python floats
    in the source; they are embedded as rationals [Q], so every statement
    is about the exact arithmetic of the program.  Integers that can be
    negative in the source (ranks, [index], [verbose]) are [Z]; counts
    used as [range] bounds are [nat].

    Effects.  The program draws random numbers, calls the objective
    function, and raises exceptions.  These are threaded through a small
    state-and-exception monad [M] over a [world] that holds the entropy
    consumed by [random], the trace of objective calls, and the counter
    used to give every [Population] object its identity.  The only
    unbounded loop, the resampling of equal parents in [__breed], takes
    a fuel argument.

    Left out: the text printed by [iterate] and by the [TypeError]
    handlers, [Point.__repr__], and the worker processes of the pool,
    whose [map] is modelled as evaluating the batch in order. *)

From Stdlib Require Import QArith Qround Qabs Lqa ZArith Lia List Permutation String.
From stdpp Require Import list sorting.

Set Implicit Arguments.

(** ** Python values and exceptions *)

Inductive exn : Type :=
| ValueError (msg : string)
| TypeError (msg : string)
| IndexError
| ZeroDivisionError
| AttributeError
| FloatingPointError.

(** [a < b] on floats, as a boolean test. *)
Definition Qlt_bool (a b : Q) : bool := negb (Qle_bool b a).

(** Python's two-argument [min(a, b)] keeps [a] unless [b < a];
    [max(a, b)] keeps [a] unless [b > a]. *)
Definition py_min (a b : Q) : Q := if Qlt_bool b a then b else a.
Definition py_max (a b : Q) : Q := if Qlt_bool a b then b else a.

(** [int(x)] on a float truncates toward zero. *)
Definition py_int (x : Q) : Z := Z.quot (Qnum x) (Zpos (Qden x)).

(** ** The world: entropy, objective-call trace, object identities *)

Record world : Type := World {
  entropy : nat -> N;          (* the raw output of the generator *)
  cursor : nat;                (* how many raw draws were consumed *)
  calls : list (list Q);       (* arguments of every objective call *)
  next_id : nat                (* identity of the next Population object *)
}.

Inductive outcome (A : Type) : Type :=
| Return (a : A)
| Raise (e : exn)
| OutOfFuel.
Arguments Return {A} a.
Arguments Raise {A} e.
Arguments OutOfFuel {A}.

Definition M (A : Type) : Type := world -> outcome A * world.

Definition ret {A} (a : A) : M A := fun w => (Return a, w).
Definition raise {A} (e : exn) : M A := fun w => (Raise e, w).
Definition diverge {A} : M A := fun w => (OutOfFuel, w).
Definition bind {A B} (m : M A) (k : A -> M B) : M B :=
  fun w => match m w with
           | (Return a, w') => k a w'
           | (Raise e, w') => (Raise e, w')
           | (OutOfFuel, w') => (OutOfFuel, w')
           end.

Declare Scope py_scope.
Delimit Scope py_scope with py.
Notation "x <- c1 ;; c2" := (bind c1 (fun x => c2))
  (at level 100, c1 at next level, right associativity) : py_scope.
Notation "c1 ;;; c2" := (bind c1 (fun _ => c2))
  (at level 100, right associativity) : py_scope.
Open Scope py_scope.

(** [l[i]] on a Python list with a non-negative index. *)
Definition getitem {A} (l : list A) (i : nat) : M A :=
  match l !! i with
  | Some x => ret x
  | None => raise IndexError
  end.

(** A [for] loop that builds a list, left to right. *)
Fixpoint for_each {A B} (f : A -> M B) (l : list A) : M (list B) :=
  match l with
  | [] => ret []
  | x :: rest => y <- f x ;; ys <- for_each f rest ;; ret (y :: ys)
  end.

(** ** The [random] module

    [random()] returns a multiple of 2^-53 in [0, 1); the raw draw is
    reduced modulo 2^53 so that every entropy source yields such a value.
    [uniform(a, b)] is [a + (b - a) * random()].  [randint(a, b)] is
    uniform on the integers of [a, b] and raises [ValueError] when the
    range is empty. *)

Definition next_raw : M N :=
  fun w => (Return (entropy w (cursor w)),
            World (entropy w) (S (cursor w)) (calls w) (next_id w)).

Definition two53 : positive := 9007199254740992%positive.

Definition unit_sample (r : N) : Q := Z.of_N (r mod Npos two53) # two53.

Definition random : M Q := r <- next_raw ;; ret (unit_sample r).

Definition uniform (a b : Q) : M Q :=
  u <- random ;; ret (a + (b - a) * u)%Q.

Definition randint (a b : Z) : M Z :=
  if (b <? a)%Z then raise (ValueError "empty range for randrange()")
  else r <- next_raw ;; ret (a + Z.of_N r mod (b - a + 1))%Z.

(** ** numpy scalars and one-dimensional arrays *)

Definition np_sum (v : list Q) : Q := fold_left Qplus v 0%Q.

Inductive npval : Type :=
| Scalar (x : Q)
| Array (v : list Q).

Fixpoint zip_with_Q (op : Q -> Q -> Q) (a b : list Q) : list Q :=
  match a, b with
  | x :: a', y :: b' => op x y :: zip_with_Q op a' b'
  | _, _ => []
  end.

(** Element-wise binary operation with numpy's broadcasting of scalars
    and of length-1 arrays; other shape mismatches raise [ValueError]. *)
Definition np_binop (op : Q -> Q -> Q) (a b : npval) : M npval :=
  match a, b with
  | Scalar x, Scalar y => ret (Scalar (op x y))
  | Scalar x, Array v => ret (Array (map (op x) v))
  | Array u, Scalar y => ret (Array (map (fun x => op x y) u))
  | Array u, Array v =>
      if (length u =? length v)%nat then ret (Array (zip_with_Q op u v))
      else match u, v with
           | [x], _ => ret (Array (map (op x) v))
           | _, [y] => ret (Array (map (fun x => op x y) u))
           | _, _ => raise (ValueError "operands could not be broadcast together")
           end
  end.

(** [value / n] for an integer count [n].  A Python number divided by
    zero raises [ZeroDivisionError]; a numpy array divided by zero is
    filled with nan or inf, which the rational model cannot hold: it
    stops with [FloatingPointError]. *)
Definition true_divide (value : npval) (n : nat) : M npval :=
  match value, n with
  | Scalar _, O => raise ZeroDivisionError
  | Array _, O => raise FloatingPointError
  | Scalar x, _ => ret (Scalar (x / inject_Z (Z.of_nat n))%Q)
  | Array v, _ => ret (Array (map (fun x => (x / inject_Z (Z.of_nat n))%Q) v))
  end.

(** [np.sum(np.abs(value))]. *)
Definition np_sum_abs (value : npval) : Q :=
  match value with
  | Scalar x => Qabs x
  | Array v => np_sum (map Qabs v)
  end.

(** A loop that threads an accumulator through the elements of a list. *)
Fixpoint fold_m {A S} (f : S -> A -> M S) (l : list A) (s : S) : M S :=
  match l with
  | [] => ret s
  | x :: rest => s' <- f s x ;; fold_m f rest s'
  end.

(** Python's builtin [sum], which starts from the integer 0. *)
Definition py_sum (values : list npval) : M npval :=
  fold_m (np_binop Qplus) values (Scalar 0).

(** [list.sort(key=...)], a stable sort: [before a b] tells that [a] may
    stay in front of [b].  With [reverse=True] elements with equal keys
    keep their original order as well. *)
Fixpoint insert_by {A} (before : A -> A -> bool) (x : A) (l : list A) : list A :=
  match l with
  | [] => [x]
  | y :: rest => if before x y then x :: y :: rest else y :: insert_by before x rest
  end.

Fixpoint sort_by {A} (before : A -> A -> bool) (l : list A) : list A :=
  match l with
  | [] => []
  | x :: rest => insert_by before x (sort_by before rest)
  end.

(** ** weighted_choice *)

(** The scanning loop of [weighted_choice]: [total] is decreased by each
    normalised weight in turn, and the first index at which it drops
    below [threshold] selects the choice.  Falling off the end of the
    loop returns [None]. *)
Fixpoint weighted_scan {A} (choices : list A) (threshold total : Q)
    (index : nat) (normalized_weights : list Q) : M (option A) :=
  match normalized_weights with
  | [] => ret None
  | normalized_weight :: rest =>
      let total := (total - normalized_weight)%Q in
      if Qlt_bool total threshold
      then c <- getitem choices index ;; ret (Some c)
      else weighted_scan choices threshold total (S index) rest
  end.

(** Division by a zero sum yields nan or inf in numpy; the rational model
    has no such values and stops with [FloatingPointError] instead.  An
    empty weight vector divides nothing: the loop body never runs. *)
Definition weighted_choice {A} (choices : list A) (weights : list Q) : M (option A) :=
  let s := np_sum weights in
  if negb (length weights =? 0)%nat && Qeq_bool s 0 then raise FloatingPointError
  else
    let normalized_weights := map (fun weight => (weight / s)%Q) weights in
    threshold <- uniform 0 1 ;;
    weighted_scan choices threshold 1 0 normalized_weights.

(** ** Objective functions

    A Python function is its [co_argcount] (read by [Population] when
    [dimensions] is omitted) and its body, a deterministic map from the
    argument vector to a value or an exception.  Calling it records the
    arguments in the world's trace of objective calls. *)

Record pyfunc : Type := PyFunc {
  co_argcount : nat;
  body : list Q -> exn + Q
}.

Definition py_call (f : option pyfunc) (args : list Q) : M Q :=
  match f with
  | None => raise (TypeError "'NoneType' object is not callable")
  | Some f =>
      fun w =>
        let w' := World (entropy w) (cursor w) (calls w ++ [args]) (next_id w) in
        match body f args with
        | inr v => (Return v, w')
        | inl e => (Raise e, w')
        end
  end.

(** ** Point

    A point refers to its population only to read [boundaries] and
    [mutation_range] and to compare identities in [crossover]; [PopRef]
    is that view of the [Population] object. *)

Record PopRef : Type := MkPopRef {
  pop_ident : nat;
  pop_boundaries : list (Q * Q);
  pop_mutation_range : Q
}.

Module Point.

Record t : Type := mk {
  associated_population : option PopRef;
  boundaries : list (Q * Q);
  mutation_range : Q;
  coordinates : list Q;
  index : Z;
  fitness : Q;
  diversity : Q;
  fitness_rank : Z;
  diversity_rank : Z
}.

Definition set_coordinates (c : list Q) (p : t) : t :=
  mk (associated_population p) (boundaries p) (mutation_range p) c
     (index p) (fitness p) (diversity p) (fitness_rank p) (diversity_rank p).
Definition set_index (i : Z) (p : t) : t :=
  mk (associated_population p) (boundaries p) (mutation_range p) (coordinates p)
     i (fitness p) (diversity p) (fitness_rank p) (diversity_rank p).
Definition set_fitness (f : Q) (p : t) : t :=
  mk (associated_population p) (boundaries p) (mutation_range p) (coordinates p)
     (index p) f (diversity p) (fitness_rank p) (diversity_rank p).
Definition set_diversity (d : Q) (p : t) : t :=
  mk (associated_population p) (boundaries p) (mutation_range p) (coordinates p)
     (index p) (fitness p) d (fitness_rank p) (diversity_rank p).
Definition set_fitness_rank (r : Z) (p : t) : t :=
  mk (associated_population p) (boundaries p) (mutation_range p) (coordinates p)
     (index p) (fitness p) (diversity p) r (diversity_rank p).
Definition set_diversity_rank (r : Z) (p : t) : t :=
  mk (associated_population p) (boundaries p) (mutation_range p) (coordinates p)
     (index p) (fitness p) (diversity p) (fitness_rank p) r.

(** [Point.__init__]: coordinates drawn uniformly within the boundaries
    of each dimension, in order. *)
Definition init (associated_population : option PopRef) (dimensions : nat) : M t :=
  let boundaries :=
    match associated_population with
    | None => repeat (0%Q, 100%Q) dimensions
    | Some pop => pop_boundaries pop
    end in
  let mutation_range :=
    match associated_population with
    | None => 5%Q
    | Some pop => pop_mutation_range pop
    end in
  coordinates <- for_each (fun dimension =>
                             b <- getitem boundaries dimension ;;
                             uniform (fst b) (snd b))
                          (seq 0 dimensions) ;;
  ret (mk associated_population boundaries mutation_range coordinates
          (-1) 0 0 (-1) (-1)).

(** [Point.evaluate_fitness]: the [TypeError] handler only prints and
    re-raises. *)
Definition evaluate_fitness (self : t) (eval_function : option pyfunc) : M t :=
  v <- py_call eval_function (coordinates self) ;;
  ret (set_fitness v self).

(** [Point.mutate], statement by statement. *)
Definition mutate (self : t) : M t :=
  i <- randint 0 (Z.of_nat (length (coordinates self)) - 1) ;;
  let index := Z.to_nat i in
  x <- getitem (coordinates self) index ;;
  delta <- uniform (- mutation_range self) (mutation_range self) ;;
  let coordinates1 := <[index := (x + delta)%Q]> (coordinates self) in
  b <- getitem (boundaries self) index ;;
  x1 <- getitem coordinates1 index ;;
  let coordinates2 := <[index := py_min (fst b) x1]> coordinates1 in
  b' <- getitem (boundaries self) index ;;
  x2 <- getitem coordinates2 index ;;
  let coordinates3 := <[index := py_max (snd b') x2]> coordinates2 in
  ret (set_coordinates coordinates3 self).

End Point.

(** ** crossover *)

(** [!=] on populations compares object identities. *)
Definition same_population (a b : option PopRef) : bool :=
  match a, b with
  | None, None => true
  | Some p, Some q => (pop_ident p =? pop_ident q)%nat
  | _, _ => false
  end.

Definition draw_splitpoint (point1 : Point.t) : M Z :=
  randint 1 (Z.of_nat (length (Point.coordinates point1))).

Definition crossover (point1 point2 : Point.t) : M (Point.t * Point.t) :=
  if negb (same_population (Point.associated_population point1)
                           (Point.associated_population point2))
  then raise (ValueError "Points are from different populations.")
  else
    child1 <- Point.init (Point.associated_population point1)
                         (length (Point.coordinates point1)) ;;
    child2 <- Point.init (Point.associated_population point2)
                         (length (Point.coordinates point2)) ;;
    k <- draw_splitpoint point1 ;;
    let splitpoint := Z.to_nat k in
    ret (Point.set_coordinates
           (take splitpoint (Point.coordinates point1) ++
            drop splitpoint (Point.coordinates point2)) child1,
         Point.set_coordinates
           (take splitpoint (Point.coordinates point2) ++
            drop splitpoint (Point.coordinates point1)) child2).

(** ** Population *)

Definition default_boundary : Q * Q := (0%Q, 100%Q).

(** [x / n] for Python floats: division by zero raises. *)
Definition py_div (x : Q) (n : nat) : M Q :=
  match n with
  | O => raise ZeroDivisionError
  | _ => ret (x / inject_Z (Z.of_nat n))%Q
  end.

Definition enumerate {A} (l : list A) : list (nat * A) :=
  combine (seq 0 (length l)) l.

(** [l[i]] where [i] may be [None]. *)
Definition getitem_opt {A} (l : list A) (i : option nat) : M A :=
  match i with
  | None => raise (TypeError "list indices must be integers or slices, not NoneType")
  | Some i => getitem l i
  end.

Definition option_nat_eqb (a b : option nat) : bool :=
  match a, b with
  | None, None => true
  | Some x, Some y => (x =? y)%nat
  | _, _ => false
  end.

Module Population.

Record t : Type := mk {
  ident : nat;
  num_dimensions : nat;
  points : list Point.t;
  size : nat;
  objective_function : option pyfunc;
  elite_population_size : nat;
  mutation_probability : Q;
  mutation_range : Q;
  boundaries : list (Q * Q);
  verbose : Z;
  evaluated_fitness_ranks : bool;
  evaluated_diversity_ranks : bool;
  mean_fitness : Q;
  mean_coordinates : npval;
  mean_diversity : Q;
  num_iterations : nat;
  multiprocessing : bool
}.

Definition set_points (pts : list Point.t) (s : t) : t :=
  mk (ident s) (num_dimensions s) pts (size s) (objective_function s)
     (elite_population_size s) (mutation_probability s) (mutation_range s)
     (boundaries s) (verbose s) (evaluated_fitness_ranks s) (evaluated_diversity_ranks s)
     (mean_fitness s) (mean_coordinates s) (mean_diversity s)
     (num_iterations s) (multiprocessing s).

(** Both rank flags set to [False]. *)
Definition invalidate_ranks (s : t) : t :=
  mk (ident s) (num_dimensions s) (points s) (size s) (objective_function s)
     (elite_population_size s) (mutation_probability s) (mutation_range s)
     (boundaries s) (verbose s) false false
     (mean_fitness s) (mean_coordinates s) (mean_diversity s)
     (num_iterations s) (multiprocessing s).

Definition set_fitness_ranked (pts : list Point.t) (mean : Q) (s : t) : t :=
  mk (ident s) (num_dimensions s) pts (size s) (objective_function s)
     (elite_population_size s) (mutation_probability s) (mutation_range s)
     (boundaries s) (verbose s) true (evaluated_diversity_ranks s)
     mean (mean_coordinates s) (mean_diversity s)
     (num_iterations s) (multiprocessing s).

Definition set_diversity_ranked (pts : list Point.t) (mc : npval) (md : Q) (s : t) : t :=
  mk (ident s) (num_dimensions s) pts (size s) (objective_function s)
     (elite_population_size s) (mutation_probability s) (mutation_range s)
     (boundaries s) (verbose s) (evaluated_fitness_ranks s) true
     (mean_fitness s) mc md
     (num_iterations s) (multiprocessing s).

Definition set_num_iterations (n : nat) (s : t) : t :=
  mk (ident s) (num_dimensions s) (points s) (size s) (objective_function s)
     (elite_population_size s) (mutation_probability s) (mutation_range s)
     (boundaries s) (verbose s) (evaluated_fitness_ranks s) (evaluated_diversity_ranks s)
     (mean_fitness s) (mean_coordinates s) (mean_diversity s)
     n (multiprocessing s).

Definition self_ref (s : t) : PopRef :=
  MkPopRef (ident s) (boundaries s) (mutation_range s).

(** [for rank_number in range(size): points[rank_number].<rank> = rank_number] *)
Definition assign_ranks (set_rank : Z -> Point.t -> Point.t) (size : nat)
    (points : list Point.t) : M (list Point.t) :=
  fold_m (fun pts rank_number =>
            p <- getitem pts rank_number ;;
            ret (<[rank_number := set_rank (Z.of_nat rank_number) p]> pts))
         (seq 0 size) points.

(** Sort keys: descending fitness, descending diversity, ascending
    fitness rank. *)
Definition by_fitness_desc (a b : Point.t) : bool :=
  Qle_bool (Point.fitness b) (Point.fitness a).
Definition by_diversity_desc (a b : Point.t) : bool :=
  Qle_bool (Point.diversity b) (Point.diversity a).
Definition by_fitness_rank (a b : Point.t) : bool :=
  (Point.fitness_rank a <=? Point.fitness_rank b)%Z.

(** [Population.__evaluate_fitness_ranks] *)
Definition evaluate_fitness_ranks (self : t) : M t :=
  if evaluated_fitness_ranks self then ret self
  else
    mean <- py_div (np_sum (map Point.fitness (points self))) (size self) ;;
    let sorted := sort_by by_fitness_desc (points self) in
    ranked <- assign_ranks Point.set_fitness_rank (size self) sorted ;;
    ret (set_fitness_ranked ranked mean self).

(** [Population.__evaluate_diversity_ranks] *)
Definition evaluate_diversity_ranks (self : t) : M t :=
  if evaluated_diversity_ranks self then ret self
  else
    total <- py_sum (map (fun point => Array (Point.coordinates point)) (points self)) ;;
    mean_coordinates <- true_divide total (size self) ;;
    measured <- for_each (fun point =>
                            d <- np_binop Qminus (Array (Point.coordinates point))
                                          mean_coordinates ;;
                            ret (Point.set_diversity (np_sum_abs d) point))
                         (points self) ;;
    mean_diversity <- py_div (np_sum (map Point.diversity measured)) (size self) ;;
    let sorted := sort_by by_diversity_desc measured in
    ranked <- assign_ranks Point.set_diversity_rank (size self) sorted ;;
    ret (set_diversity_ranked ranked mean_coordinates mean_diversity self).

(** Fitness evaluation of every member.  With [multiprocessing] the
    pool maps the objective over the coordinate vectors zipped with
    [size] copies of it and the results are assigned by position; the
    pool is modelled as evaluating in order.  Otherwise each point
    evaluates itself. *)
Definition evaluate_points (self : t) (pts : list Point.t) : M (list Point.t) :=
  if multiprocessing self then
    fitnesses <- for_each (fun point => py_call (objective_function self)
                                                (Point.coordinates point))
                          (take (size self) pts) ;;
    for_each (fun ip => v <- getitem fitnesses (fst ip) ;;
                        ret (Point.set_fitness v (snd ip)))
             (enumerate pts)
  else
    for_each (fun point => Point.evaluate_fitness point (objective_function self)) pts.

(** [Population.__init__].  The [processes] argument only sizes the
    worker pool and is left out. *)
Definition init (objective_function : option pyfunc) (dimensions : option nat)
    (population_size : nat) (boundaries : option (list (Q * Q)))
    (elite_fraction mutation_probability mutation_range : Q) (verbose : Z)
    (multiprocessing : bool) : M t :=
  if Qlt_bool 1 elite_fraction || Qlt_bool elite_fraction 0
  then raise (ValueError "Parameter 'elite_fraction' must be in range [0,1].")
  else if Qlt_bool 1 mutation_probability || Qlt_bool mutation_probability 0
  then raise (ValueError "Parameter 'mutation_probability' must be in range [0,1].")
  else if negb (existsb (Z.eqb verbose) [0; 1; 2]%Z)
  then raise (ValueError "Parameter verbose must be one of 0, 1 or 2.")
  else
    num_dimensions <-
      match dimensions with
      | None => match objective_function with
                | None => raise AttributeError
                | Some f => ret (co_argcount f)
                end
      | Some d => ret d
      end ;;
    boundaries <-
      match boundaries with
      | None => ret (repeat default_boundary num_dimensions)
      | Some given =>
          let padded := given ++ repeat default_boundary (num_dimensions - length given) in
          for_each (fun b : Q * Q =>
                      if Qlt_bool (snd b) (fst b)
                      then raise (ValueError "Incorrect value for boundary - min greater than max for range.")
                      else ret tt)
                   padded ;;;
          ret padded
      end ;;
    ident <- (fun w => (Return (next_id w),
                        World (entropy w) (cursor w) (calls w) (S (next_id w)))) ;;
    let self :=
      mk ident num_dimensions [] population_size objective_function
         (Z.to_nat (py_int (elite_fraction * inject_Z (Z.of_nat population_size))))
         mutation_probability mutation_range boundaries verbose false false
         0 (Array (repeat 0%Q num_dimensions)) 0 1 multiprocessing in
    created <- for_each (fun pointnumber =>
                           point <- Point.init (Some (self_ref self)) num_dimensions ;;
                           ret (Point.set_index (Z.of_nat pointnumber) point))
                        (seq 0 population_size) ;;
    evaluated <- evaluate_points self created ;;
    self <- evaluate_fitness_ranks (set_points evaluated self) ;;
    evaluate_diversity_ranks self.

(** The resampling loop of [__breed]: two parents are drawn, and drawn
    again while they are equal.  [fuel] bounds the number of redraws. *)
Fixpoint select_parents (fuel : nat) (size : nat) (weights : list Q)
    : M (option nat * option nat) :=
  parent1 <- weighted_choice (seq 0 size) weights ;;
  parent2 <- weighted_choice (seq 0 size) weights ;;
  if option_nat_eqb parent1 parent2
  then match fuel with
       | O => diverge
       | S fuel' => select_parents fuel' size weights
       end
  else ret (parent1, parent2).

(** [while len(newpopulation) < self.size].  Every pass appends at
    least one child, so [budget] passes suffice when [budget] is the
    population size. *)
Fixpoint breed_loop (fuel budget : nat) (self : t) (weights : list Q)
    (newpopulation : list Point.t) : M (list Point.t) :=
  if (length newpopulation <? size self)%nat
  then match budget with
       | O => diverge
       | S budget' =>
           parents <- select_parents fuel (size self) weights ;;
           point1 <- getitem_opt (points self) (fst parents) ;;
           point2 <- getitem_opt (points self) (snd parents) ;;
           children <- crossover point1 point2 ;;
           let newpopulation := newpopulation ++ [fst children] in
           let newpopulation :=
             if (length newpopulation <? size self)%nat
             then newpopulation ++ [snd children]
             else newpopulation in
           breed_loop fuel budget' self weights newpopulation
       end
  else ret newpopulation.

Definition breeding_weight (point : Point.t) : M Q :=
  let d := (1 + Point.fitness_rank point + Point.diversity_rank point)%Z in
  if (d =? 0)%Z then raise ZeroDivisionError
  else ret (1 / inject_Z d)%Q.

(** [Population.__breed] *)
Definition breed (fuel : nat) (self : t) : M t :=
  let sorted := sort_by by_fitness_rank (points self) in
  let self := set_points sorted self in
  elite <- for_each (fun pointnumber => getitem sorted pointnumber)
                    (seq 0 (elite_population_size self)) ;;
  weights <- for_each breeding_weight sorted ;;
  newpopulation <- breed_loop fuel (size self) self weights elite ;;
  evaluated <- evaluate_points self newpopulation ;;
  ret (invalidate_ranks (set_points evaluated self)).

(** [Population.__mutate]: each point in turn draws its own chance. *)
Definition mutate_point (self : t) (point : Point.t) : M (Point.t * bool) :=
  mutate_probability <- uniform 0 1 ;;
  if Qlt_bool mutate_probability (mutation_probability self)
  then
    point <- Point.mutate point ;;
    point <- Point.evaluate_fitness point (objective_function self) ;;
    ret (point, true)
  else ret (point, false).

Definition mutate (self : t) : M t :=
  results <- for_each (mutate_point self) (points self) ;;
  let self' := set_points (map fst results) self in
  ret (if existsb snd results then invalidate_ranks self' else self').

(** [Population.iterate]; the progress report printed for [verbose] 1
    and 2 is output only and is left out. *)
Definition iterate (fuel : nat) (self : t) : M t :=
  self <- breed fuel self ;;
  self <- mutate self ;;
  self <- evaluate_fitness_ranks self ;;
  self <- evaluate_diversity_ranks self ;;
  ret (set_num_iterations (num_iterations self + 1) self).

(** [Population.converge] *)
Fixpoint converge (fuel : nat) (iterations : nat) (self : t) : M t :=
  match iterations with
  | O => ret self
  | S n => self <- iterate fuel self ;; converge fuel n self
  end.

(** [Population.best_estimate]: the running best starts at minus
    infinity ([None]) and is replaced on a strictly greater fitness. *)
Definition best_step (best : option Q * option Point.t) (point : Point.t)
    : option Q * option Point.t :=
  match fst best with
  | None => (Some (Point.fitness point), Some point)
  | Some best_point_fitness =>
      if Qlt_bool best_point_fitness (Point.fitness point)
      then (Some (Point.fitness point), Some point)
      else best
  end.

Definition best_estimate (self : t) : option Point.t :=
  snd (fold_left best_step (points self) (None, None)).

End Population.

(** ** maximize and minimize *)

(** The keyword arguments shared by [maximize] and [minimize], with the
    defaults of [maximize]. *)
Record kwargs : Type := Kwargs {
  dimensions : option nat;
  population_size : nat;
  boundaries : option (list (Q * Q));
  elite_fraction : Q;
  mutation_probability : Q;
  mutation_range : Q;
  verbose : Z;
  multiprocessing : bool;
  iterations : nat
}.

Definition default_kwargs : kwargs :=
  Kwargs None 60 None (1 # 10) (5 # 100) 5 0 false 15.

Definition maximize (fuel : nat) (objective_function : option pyfunc) (kw : kwargs)
    : M (option Point.t) :=
  population <- Population.init objective_function (dimensions kw) (population_size kw)
                                (boundaries kw) (elite_fraction kw)
                                (mutation_probability kw) (mutation_range kw)
                                (verbose kw) (multiprocessing kw) ;;
  population <- Population.converge fuel (iterations kw) population ;;
  ret (Population.best_estimate population).

(** [objective_function_neg]: declared with a variable argument list
    only, so its [co_argcount] is 0. *)
Definition objective_function_neg (objective_function : option pyfunc) : pyfunc :=
  PyFunc 0 (fun args =>
              match objective_function with
              | None => inl (TypeError "'NoneType' object is not callable")
              | Some f => match body f args with
                          | inr v => inr (- v)%Q
                          | inl e => inl e
                          end
              end).

Definition minimize (fuel : nat) (objective_function : option pyfunc) (kw : kwargs)
    : M Point.t :=
  best_point <- maximize fuel (Some (objective_function_neg objective_function)) kw ;;
  match best_point with
  | None => raise AttributeError
  | Some best_point => Point.evaluate_fitness best_point objective_function
  end.

(** ** unpack

    The arguments are a flat sequence of numbers, so [np.array(args)] is
    one-dimensional.  A shape is an integer or a tuple of integers; an
    array is its shape and its elements in row-major order. *)

Inductive shape : Type :=
| IntShape (n : Z)
| TupleShape (dims : list Z).

Record ndarray : Type := NdArray {
  nd_shape : list nat;
  nd_data : list Q
}.

Definition product (dims : list Z) : Z := fold_left Z.mul dims 1%Z.

(** The bound of a slice, as Python normalises it on a sequence of
    length [len]: negative bounds count from the end, and both ends are
    clipped to the sequence. *)
Definition slice_bound (len : nat) (k : Z) : nat :=
  if (k <? 0)%Z then Z.to_nat (Z.max 0 (k + Z.of_nat len))
  else Nat.min (Z.to_nat k) len.

(** [a[i:j]] *)
Definition py_slice {A} (l : list A) (i j : Z) : list A :=
  let start := slice_bound (length l) i in
  let stop := slice_bound (length l) j in
  take (stop - start) (drop start l).

Definition shape_dims (s : shape) : list Z :=
  match s with
  | IntShape n => [n]
  | TupleShape dims => dims
  end.

(** [a.reshape(shape)] on a one-dimensional array: one dimension may be
    -1 and is then inferred; otherwise the product of the dimensions
    must be the size.  Every failure is a [ValueError]. *)
Definition reshape (data : list Q) (s : shape) : M ndarray :=
  let dims := shape_dims s in
  let size := Z.of_nat (length data) in
  let cannot := ValueError "cannot reshape array" in
  if existsb (fun d => (d <? -1)%Z) dims
  then raise (ValueError "negative dimensions not allowed")
  else
    match length (filter (fun d => d = (-1)%Z) dims) with
    | O => if (product dims =? size)%Z
           then ret (NdArray (map Z.to_nat dims) data)
           else raise cannot
    | S O =>
        let known := product (filter (fun d => d <> (-1)%Z) dims) in
        if (known =? 0)%Z then raise cannot
        else if (size mod known =? 0)%Z
        then ret (NdArray (map (fun d => if (d =? -1)%Z then Z.to_nat (size / known)
                                         else Z.to_nat d) dims) data)
        else raise cannot
    | _ => raise (ValueError "can only specify one unknown dimension")
    end.

(** [currprod] after the inner [try]: the product of the values of a
    tuple, or the integer itself, which cannot be iterated. *)
Definition shape_product (s : shape) : Z :=
  match s with
  | IntShape n => (1 * n)%Z
  | TupleShape dims => product dims
  end.

Inductive unpacked : Type :=
| UnpackedList (arrays : list ndarray)
| UnpackedOne (array : ndarray).

Fixpoint unpack_loop (np_args : list Q) (index : Z) (unpacked_args : list ndarray)
    (shapes : list shape) : M (list ndarray) :=
  match shapes with
  | [] => ret unpacked_args
  | s :: rest =>
      let currprod := shape_product s in
      a <- reshape (py_slice np_args index (index + currprod)) s ;;
      unpack_loop np_args (index + currprod) (unpacked_args ++ [a]) rest
  end.

(** The handler of [unpack] re-raises what it catches. *)
Definition unpack (args : list Q) (shapes : list shape) : M unpacked :=
  unpacked_args <- unpack_loop args 0 [] shapes ;;
  if (1 <? length shapes)%nat then ret (UnpackedList unpacked_args)
  else a <- getitem unpacked_args 0 ;; ret (UnpackedOne a).

(** ** Predicates used in the statements *)

(** Every coordinate lies between the bounds of its dimension. *)
Definition in_bounds (bs : list (Q * Q)) (cs : list Q) : Prop :=
  forall d x, cs !! d = Some x ->
    exists b, bs !! d = Some b /\ (fst b <= x)%Q /\ (x <= snd b)%Q.

Definition within_bounds (p : Point.t) : Prop :=
  in_bounds (Point.boundaries p) (Point.coordinates p).

(** [lower <= upper] in every dimension. *)
Definition bounds_ordered (bs : list (Q * Q)) : Prop :=
  forall d b, bs !! d = Some b -> (fst b <= snd b)%Q.

(** The clamp of the specification, [max(lower, min(x, upper))]. *)
Definition clamp_into (lower upper x : Q) : Q := py_max lower (py_min x upper).

(** The world after [n] more raw draws. *)
Definition advance (n : nat) (w : world) : world :=
  World (entropy w) (n + cursor w) (calls w) (next_id w).

(** An entropy source that replays a list of raw draws, then zeros. *)
Definition replay (draws : list N) : nat -> N := fun i => nth i draws 0%N.

(** The world after further objective calls with the given arguments. *)
Definition record_calls (args : list (list Q)) (w : world) : world :=
  World (entropy w) (cursor w) (calls w ++ args) (next_id w).

(** [w'] is [w] after some raw draws: same entropy, trace and identities. *)
Definition only_draws (w w' : world) : Prop := exists n, w' = advance n w.

(** A computation that never stops for lack of fuel. *)
Definition terminates {A} (m : M A) : Prop := forall w, fst (m w) <> OutOfFuel.

(** The inputs that [Population.__init__] rejects. *)
Definition invalid_configuration (elite_fraction mutation_probability : Q) (verbose : Z) : Prop :=
  (1 < elite_fraction)%Q \/ (elite_fraction < 0)%Q \/
  (1 < mutation_probability)%Q \/ (mutation_probability < 0)%Q \/
  (verbose <> 0 /\ verbose <> 1 /\ verbose <> 2)%Z.

(** The breeding weight of a point, [1 / (1 + fitness_rank + diversity_rank)]. *)
Definition weight_of (point : Point.t) : Q :=
  (1 / inject_Z (1 + Point.fitness_rank point + Point.diversity_rank point))%Q.

(** Ranks as left by a ranking pass are not negative. *)
Definition ranks_nonneg (point : Point.t) : Prop :=
  (0 <= Point.fitness_rank point)%Z /\ (0 <= Point.diversity_rank point)%Z.

(** The ranks given by [assign_ranks]: the first [n] points get their
    position as rank. *)
Definition rank_prefix (set_rank : Z -> Point.t -> Point.t) (n : nat)
    (pts : list Point.t) : list Point.t :=
  imap (fun i p => if (i <? n)%nat then set_rank (Z.of_nat i) p else p) pts.

(** A ranking: the ranks are a permutation of 0 .. N-1, and rank 0 is
    held by a member whose value is maximal. *)
Definition ranked (rank : Point.t -> Z) (value : Point.t -> Q)
    (pts : list Point.t) : Prop :=
  Permutation (map rank pts) (map Z.of_nat (seq 0 (length pts))) /\
  (pts <> [] ->
   exists p, p ∈ pts /\ rank p = 0%Z /\ forall q, q ∈ pts -> (value q <= value p)%Q).

(** The value of the objective at an argument vector, if it returns one. *)
Definition objective_at (f : option pyfunc) (args : list Q) : option Q :=
  match f with
  | Some g => match body g args with
              | inr v => Some v
              | inl _ => None
              end
  | None => None
  end.

(** The fitness of a point is the objective at its coordinates. *)
Definition fitness_current (f : option pyfunc) (p : Point.t) : Prop :=
  objective_at f (Point.coordinates p) = Some (Point.fitness p).

(** [e] is [p] with its fitness evaluated again. *)
Definition evaluated_from (f : option pyfunc) (p e : Point.t) : Prop :=
  exists v, objective_at f (Point.coordinates p) = Some v /\ e = Point.set_fitness v p.

(** A point has the shape of a member of the population [ref] with
    [dims] dimensions: it refers to that population, carries its
    boundaries, has [dims] coordinates, and they are within bounds. *)
Definition shape_ok (ref : PopRef) (dims : nat) (p : Point.t) : Prop :=
  Point.associated_population p = Some ref /\
  Point.boundaries p = pop_boundaries ref /\
  Point.mutation_range p = pop_mutation_range ref /\
  length (Point.coordinates p) = dims /\
  within_bounds p.

Definition member_ok (ref : PopRef) (dims : nat) (f : option pyfunc) (p : Point.t) : Prop :=
  shape_ok ref dims p /\ fitness_current f p.

(** The invariant of a [Population] object between calls. *)
Definition population_ok (self : Population.t) : Prop :=
  Population.size self = length (Population.points self) /\
  (Population.elite_population_size self <= Population.size self)%nat /\
  bounds_ordered (Population.boundaries self) /\
  (Population.num_dimensions self <= length (Population.boundaries self))%nat /\
  Forall (member_ok (Population.self_ref self) (Population.num_dimensions self)
                    (Population.objective_function self))
         (Population.points self) /\
  (Population.evaluated_fitness_ranks self = true ->
   ranked Point.fitness_rank Point.fitness (Population.points self)) /\
  (Population.evaluated_diversity_ranks self = true ->
   ranked Point.diversity_rank Point.diversity (Population.points self)).

(** The fields of a population that no method changes after construction. *)
Definition configuration (self : Population.t) :=
  (Population.ident self, Population.num_dimensions self, Population.size self,
   Population.objective_function self, Population.elite_population_size self,
   Population.mutation_probability self, Population.mutation_range self,
   Population.boundaries self, Population.verbose self,
   Population.multiprocessing self).

(** The arrays of a result of [unpack], as a list. *)
Definition arrays_of (u : unpacked) : list ndarray :=
  match u with
  | UnpackedList arrays => arrays
  | UnpackedOne a => [a]
  end.

Definition nonneg_shape (s : shape) : Prop := Forall (fun d => 0 <= d)%Z (shape_dims s).

(** The number of elements that the shapes ask for. *)
Definition requested (shapes : list shape) : Z :=
  fold_right Z.add 0%Z (map shape_product shapes).

(** ** Concrete inputs used by the examples *)

(** A two-dimensional point of the default population at (50, 50). *)
Definition mutate_example_point : Point.t :=
  Point.mk None [(0, 100); (0, 100)]%Q 5 [50; 50]%Q (-1) 0 0 (-1) (-1).

(** The first draw, 0, selects dimension 0; the second, 3/4 of 2^53,
    gives the perturbation -5 + 10 * 3/4 = 5/2. *)
Definition mutate_example_world : world :=
  World (replay [0; 6755399441055744]%N) 0 [] 0.

(** Two parents of the default population. *)
Definition crossover_parent_a : Point.t :=
  Point.mk None [(0, 100); (0, 100)]%Q 5 [10; 20]%Q (-1) 0 0 (-1) (-1).
Definition crossover_parent_b : Point.t :=
  Point.mk None [(0, 100); (0, 100)]%Q 5 [30; 40]%Q (-1) 0 0 (-1) (-1).

(** Four draws for the fresh coordinates of the two children, then the
    draw 1 for the split index: 1 + 1 mod 2 = 2. *)
Definition crossover_example_world : world :=
  World (replay [0; 0; 0; 0; 1]%N) 0 [] 0.

(** The same with the draw 0 for the split index: 1 + 0 mod 2 = 1. *)
Definition crossover_split_world : world :=
  World (replay [0; 0; 0; 0; 0]%N) 0 [] 0.

(** A world whose first draw is 0. *)
Definition one_hot_world : world := World (replay [0]%N) 0 [] 0.

(** The objective [lambda x, y: x + y]. *)
Definition example_objective : pyfunc :=
  PyFunc 2 (fun args =>
              match args with
              | [x; y] => inr (x + y)%Q
              | _ => inl (TypeError "<lambda>() takes 2 positional arguments")
              end).

Definition example_ref : PopRef := MkPopRef 0 [(0, 100); (0, 100)]%Q 5.

Definition example_point (x y : Q) (fitness_rank diversity_rank : Z) : Point.t :=
  Point.mk (Some example_ref) [(0, 100); (0, 100)]%Q 5 [x; y] (-1)
           (x + y) 0 fitness_rank diversity_rank.

(** A ranked population of two members with one elite slot. *)
Definition example_population : Population.t :=
  Population.mk 0 2 [example_point 10 20 1 0; example_point 30 40 0 1] 2
                (Some example_objective) 1 0 5 [(0, 100); (0, 100)]%Q 0
                true true 50 (Array [20; 30]%Q) 20 1 false.

(** The same two members before any ranking pass. *)
Definition unranked_population : Population.t :=
  Population.mk 0 2 [example_point 10 20 (-1) (-1); example_point 30 40 (-1) (-1)] 2
                (Some example_objective) 1 0 5 [(0, 100); (0, 100)]%Q 0
                false false 0 (Array [0; 0]%Q) 0 1 false.

(** First threshold 0, second threshold positive. *)
Definition none_world : world := World (replay [0; 1]%N) 0 [] 1.

(** Thresholds 3/4 and 1/4 select the parents at positions 0 and 1; four
    draws create the two children; the last draw gives the split index 1. *)
Definition breed_world : world :=
  World (replay [6755399441055744; 2251799813685248; 0; 0; 0; 0; 0]%N) 0 [] 1.

(** A small run of [minimize]: four members, two generations. *)
Definition minimize_kwargs : kwargs :=
  Kwargs (Some 2%nat) 4 None (1 # 2) (1 # 2) 5 0 false 2.

Definition minimize_world : world :=
  World (fun i => (N.of_nat i * 1234567891234567 + 977)%N) 0 [] 0.

(** A world whose first draw is the threshold 1/2. *)
Definition half_world : world := World (replay [4503599627370496]%N) 0 [] 0.



(** Every coordinate of [p'] is the coordinate of a member of [pts] in
    the same dimension. *)
Definition coordinates_from (pts : list Point.t) (p' : Point.t) : Prop :=
  forall d x, Point.coordinates p' !! d = Some x ->
    exists p, p ∈ pts /\ Point.coordinates p !! d = Some x.

(** The example population with every member elite. *)
Definition all_elite_population : Population.t :=
  Population.mk 0 2 [example_point 10 20 1 0; example_point 30 40 0 1] 2
                (Some example_objective) 2 0 5 [(0, 100); (0, 100)]%Q 0
                true true 50 (Array [20; 30]%Q) 20 1 false.

(** The [d]-th coordinates of the points, in order. *)
Definition column (d : nat) (pts : list Point.t) : list Q :=
  map (fun p => nth d (Point.coordinates p) 0%Q) pts.

(** The mean of the points in each of [dims] dimensions, with [size] as
    the count. *)
Definition centroid (dims size : nat) (pts : list Point.t) : list Q :=
  map (fun d => (np_sum (column d pts) / inject_Z (Z.of_nat size))%Q) (seq 0 dims).

(** The L1 distance of two coordinate vectors. *)
Definition l1_distance (a b : list Q) : Q := np_sum (map Qabs (zip_with_Q Qminus a b)).

(** The configurations that [Population.__init__] accepts. *)
Definition valid_configuration (elite_fraction mutation_probability : Q) (verbose : Z) : Prop :=
  (0 <= elite_fraction)%Q /\ (elite_fraction <= 1)%Q /\
  (0 <= mutation_probability)%Q /\ (mutation_probability <= 1)%Q /\
  (verbose = 0 \/ verbose = 1 \/ verbose = 2)%Z.

(** The number of dimensions that [Population.__init__] settles on. *)
Definition resolved_dimensions (objective_function : option pyfunc)
    (dimensions : option nat) : option nat :=
  match dimensions with
  | Some d => Some d
  | None => option_map co_argcount objective_function
  end.

(** The boundaries that [Population.__init__] settles on. *)
Definition padded_boundaries (boundaries : option (list (Q * Q)))
    (num_dimensions : nat) : list (Q * Q) :=
  match boundaries with
  | None => repeat default_boundary num_dimensions
  | Some given => given ++ repeat default_boundary (num_dimensions - length given)
  end.

(** Some boundary has its minimum above its maximum. *)
Definition inverted (bs : list (Q * Q)) : Prop :=
  exists d b, bs !! d = Some b /\ (snd b < fst b)%Q.

(** The objective returns a value on every vector of [dims] arguments. *)
Definition defined_on (f : option pyfunc) (dims : nat) : Prop :=
  forall args, length args = dims -> objective_at f args <> None.

(** The world after [Population.__init__] has taken an identity. *)
Definition take_identity (w : world) : world :=
  World (entropy w) (cursor w) (calls w) (S (next_id w)).

(** From [w] to [w'] the objective has been called between [lo] and
    [hi] more times. *)
Definition objective_calls (lo hi : nat) (w w' : world) : Prop :=
  exists arguments,
    calls w' = calls w ++ arguments /\ (lo <= length arguments <= hi)%nat.

(** An objective that takes no argument, [lambda: 1]. *)
Definition constant_objective : pyfunc :=
  PyFunc 0 (fun args =>
              match args with
              | [] => inr 1%Q
              | _ => inl (TypeError "<lambda>() takes 0 positional arguments")
              end).

(** One elite member, no mutation, one generation, [dimensions] omitted. *)
Definition no_dimensions_kwargs : kwargs :=
  Kwargs None 1 None 1 0 5 0 false 1.

(** What [__mutate] may do to a member [p] of the population [self]:
    nothing, or store the upper bound of one dimension and evaluate the
    fitness again. *)
Definition kept_or_pushed_to_upper_bound (self : Population.t) (p p' : Point.t) : Prop :=
  p' = p \/
  exists index b v,
    Population.boundaries self !! index = Some b /\
    (index < length (Point.coordinates p))%nat /\
    objective_at (Population.objective_function self)
                 (<[index := snd b]> (Point.coordinates p)) = Some v /\
    p' = Point.set_fitness v
           (Point.set_coordinates (<[index := snd b]> (Point.coordinates p)) p).

(** A population of one member without an elite slot. *)
Definition lone_population : Population.t :=
  Population.mk 0 2 [example_point 10 20 0 0] 1
                (Some example_objective) 0 0 5 [(0, 100); (0, 100)]%Q 0
                true true 30 (Array [10; 20]%Q) 0 1 false.

(** * Properties *)

(** ** Comparisons, clamping and the unit sample *)

Lemma Qlt_bool_true (a b : Q) : Qlt_bool a b = true <-> (a < b)%Q.
Proof.
  unfold Qlt_bool. rewrite negb_true_iff. split.
  - intros H. apply Qnot_le_lt. intros Hle.
    apply Qle_bool_iff in Hle. congruence.
  - intros H. destruct (Qle_bool b a) eqn:E; [|reflexivity].
    apply Qle_bool_iff in E. exfalso. apply (Qlt_not_le _ _ H E).
Qed.

Lemma Qlt_bool_false (a b : Q) : Qlt_bool a b = false <-> (b <= a)%Q.
Proof.
  unfold Qlt_bool. rewrite negb_false_iff. apply Qle_bool_iff.
Qed.

Lemma py_min_le_l (a b : Q) : (py_min a b <= a)%Q.
Proof.
  unfold py_min. destruct (Qlt_bool b a) eqn:E.
  - apply Qlt_bool_true in E. apply Qlt_le_weak, E.
  - apply Qle_refl.
Qed.

(** With ordered bounds the two statements of [mutate] that were meant
    to clamp always store the upper bound. *)
Lemma py_max_min_upper (lower upper x : Q) :
  (lower <= upper)%Q -> py_max upper (py_min lower x) = upper.
Proof.
  intros H. unfold py_max.
  destruct (Qlt_bool upper (py_min lower x)) eqn:E; [|reflexivity].
  apply Qlt_bool_true in E. exfalso.
  pose proof (py_min_le_l lower x) as Hm.
  apply (Qlt_not_le _ _ E). eapply Qle_trans; eassumption.
Qed.

Lemma unit_sample_range (r : N) : (0 <= unit_sample r)%Q /\ (unit_sample r < 1)%Q.
Proof.
  unfold unit_sample, Qle, Qlt. simpl.
  assert (Hb : (r mod Npos two53 < Npos two53)%N)
    by (apply N.mod_upper_bound; discriminate).
  generalize dependent (r mod Npos two53)%N. intros n Hb.
  generalize dependent two53. intros p Hb.
  split; lia.
Qed.

Lemma uniform_formula_range (a b u : Q) :
  (a <= b)%Q -> (0 <= u)%Q -> (u < 1)%Q ->
  (a <= a + (b - a) * u)%Q /\ (a + (b - a) * u <= b)%Q.
Proof. intros Hab H0 H1. split; nra. Qed.

(** ** Running monadic code *)

Lemma bind_Return {A B} (m : M A) (k : A -> M B) w b w' :
  bind m k w = (Return b, w') ->
  exists a w1, m w = (Return a, w1) /\ k a w1 = (Return b, w').
Proof.
  unfold bind. destruct (m w) as [[a|e|] w1]; intros H; try discriminate.
  exists a, w1. split; [reflexivity | exact H].
Qed.

Lemma bind_run {A B} (m : M A) (k : A -> M B) w a w1 :
  m w = (Return a, w1) -> bind m k w = k a w1.
Proof. unfold bind. intros ->. reflexivity. Qed.

Lemma bind_raise {A B} (m : M A) (k : A -> M B) w e w1 :
  m w = (Raise e, w1) -> bind m k w = (Raise e, w1).
Proof. unfold bind. intros ->. reflexivity. Qed.

Lemma bind_run_eq {A B} (m : M A) (k : A -> M B) w a w1 r :
  m w = (Return a, w1) -> k a w1 = r -> bind m k w = r.
Proof. intros Hm <-. apply bind_run, Hm. Qed.

Lemma bind_raise_eq {A B} (m : M A) (k : A -> M B) w e w1 :
  m w = (Raise e, w1) -> bind m k w = (Raise e, w1).
Proof. apply bind_raise. Qed.

Lemma ret_Return {A} (a b : A) w w' :
  ret a w = (Return b, w') -> a = b /\ w = w'.
Proof. unfold ret. intros H. inversion H. auto. Qed.

Lemma getitem_Return {A} (l : list A) i x w w' :
  getitem l i w = (Return x, w') -> l !! i = Some x /\ w = w'.
Proof.
  unfold getitem. destruct (l !! i); intros H; [|discriminate].
  apply ret_Return in H. destruct H as [-> ->]. auto.
Qed.

Lemma getitem_run {A} (l : list A) i x w :
  l !! i = Some x -> getitem l i w = (Return x, w).
Proof. unfold getitem. intros ->. reflexivity. Qed.

(** Decompose a hypothesis that a sequence of binds returned. *)
Ltac inv_run H :=
  match type of H with
  | bind _ _ _ = (Return _, _) =>
      let a := fresh "a" in
      let w := fresh "w" in
      let H1 := fresh "Hrun" in
      apply bind_Return in H; destruct H as (a & w & H1 & H);
      try inv_run H
  | ret _ _ = (Return _, _) =>
      apply ret_Return in H; destruct H as [? ?]; subst
  | _ => idtac
  end.

Lemma random_run w : random w = (Return (unit_sample (entropy w (cursor w))), advance 1 w).
Proof. reflexivity. Qed.

Lemma uniform_run a b w :
  uniform a b w =
  (Return (a + (b - a) * unit_sample (entropy w (cursor w)))%Q, advance 1 w).
Proof. reflexivity. Qed.

Lemma randint_Return a b k w w' :
  randint a b w = (Return k, w') ->
  (a <= k <= b)%Z /\ w' = advance 1 w /\
  k = (a + Z.of_N (entropy w (cursor w)) mod (b - a + 1))%Z.
Proof.
  unfold randint. destruct (b <? a)%Z eqn:E; [discriminate|].
  apply Z.ltb_ge in E. intros H. inv_run H.
  unfold next_raw in Hrun. inversion Hrun; subst. clear Hrun.
  split; [|split; reflexivity].
  pose proof (Z.mod_pos_bound (Z.of_N (entropy w (cursor w))) (b - a + 1)) as Hb.
  lia.
Qed.

Lemma randint_run a b w :
  (a <= b)%Z ->
  randint a b w =
  (Return (a + Z.of_N (entropy w (cursor w)) mod (b - a + 1))%Z, advance 1 w).
Proof.
  intros H. unfold randint. apply Z.ltb_ge in H. rewrite H. reflexivity.
Qed.

(** ** Point: creation and mutation *)

Lemma uniform_Return a b x w w' :
  uniform a b w = (Return x, w') ->
  x = (a + (b - a) * unit_sample (entropy w (cursor w)))%Q /\ w' = advance 1 w.
Proof. rewrite uniform_run. intros H. inversion H. auto. Qed.

Lemma for_each_Return {A B} (f : A -> M B) l ys w w' :
  for_each f l w = (Return ys, w') ->
  Forall2 (fun x y => exists w1 w2, f x w1 = (Return y, w2)) l ys.
Proof.
  revert ys w w'. induction l as [|x l IH]; intros ys w w' H; simpl in H.
  - apply ret_Return in H as [<- _]. constructor.
  - apply bind_Return in H as (y & w1 & Hy & H).
    apply bind_Return in H as (ys' & w2 & Hys & H).
    apply ret_Return in H as [<- _]. constructor; eauto.
Qed.

Lemma for_each_length {A B} (f : A -> M B) l ys w w' :
  for_each f l w = (Return ys, w') -> length ys = length l.
Proof.
  intros H. apply for_each_Return in H. symmetry. eapply Forall2_length, H.
Qed.

Lemma init_Return ap dims w p w' :
  Point.init ap dims w = (Return p, w') ->
  Point.associated_population p = ap /\
  length (Point.coordinates p) = dims /\
  forall d x, Point.coordinates p !! d = Some x ->
    exists b u, Point.boundaries p !! d = Some b /\ (0 <= u)%Q /\ (u < 1)%Q /\
                x = (fst b + (snd b - fst b) * u)%Q.
Proof.
  unfold Point.init. intros H.
  apply bind_Return in H as (cs & w1 & Hcs & H).
  apply ret_Return in H as [<- _]. simpl.
  split; [reflexivity|]. split.
  - erewrite for_each_length by eassumption. apply length_seq.
  - intros d x Hx. apply for_each_Return in Hcs.
    destruct (Forall2_lookup_r _ _ _ _ _ Hcs Hx) as (d' & Hd' & wa & wb & Hf).
    apply lookup_seq in Hd'. destruct Hd' as [-> _]. simpl in Hf.
    apply bind_Return in Hf as (b & wc & Hb & Hf).
    apply getitem_Return in Hb as [Hb ->].
    apply uniform_Return in Hf as [-> _].
    destruct (unit_sample_range (entropy wc (cursor wc))) as [H0 H1].
    eauto 10.
Qed.

Lemma mutate_Return self w p' w' :
  Point.mutate self w = (Return p', w') ->
  exists index x b,
    Z.of_nat index =
      (Z.of_N (entropy w (cursor w)) mod Z.of_nat (length (Point.coordinates self)))%Z /\
    Point.coordinates self !! index = Some x /\
    Point.boundaries self !! index = Some b /\
    p' = Point.set_coordinates
           (<[index := py_max (snd b)
                         (py_min (fst b)
                            (x + (- Point.mutation_range self +
                                  (Point.mutation_range self - - Point.mutation_range self) *
                                  unit_sample (entropy w (S (cursor w)))))%Q)]>
              (Point.coordinates self)) self /\
    w' = advance 2 w.
Proof.
  unfold Point.mutate. intros H.
  apply bind_Return in H as (i & w1 & Hi & H).
  apply randint_Return in Hi as (Hr & -> & Hi).
  apply bind_Return in H as (x & w2 & Hx & H).
  apply getitem_Return in Hx as [Hx <-].
  apply bind_Return in H as (delta & w3 & Hd & H).
  apply uniform_Return in Hd as [-> ->].
  apply bind_Return in H as (b & w4 & Hb & H).
  apply getitem_Return in Hb as [Hb <-].
  apply bind_Return in H as (x1 & w5 & Hx1 & H).
  apply getitem_Return in Hx1 as [Hx1 <-].
  apply bind_Return in H as (b' & w6 & Hb' & H).
  apply getitem_Return in Hb' as [Hb' <-].
  apply bind_Return in H as (x2 & w7 & Hx2 & H).
  apply getitem_Return in Hx2 as [Hx2 <-].
  apply ret_Return in H as [<- <-].
  assert (Hlt : (Z.to_nat i < length (Point.coordinates self))%nat)
    by (eapply lookup_lt_Some, Hx).
  rewrite list_lookup_insert_eq in Hx1 by exact Hlt.
  rewrite list_lookup_insert_eq in Hx2 by (rewrite length_insert; exact Hlt).
  rewrite Hb in Hb'. inversion Hb'; subst b'. inversion Hx1; subst x1.
  inversion Hx2; subst x2. clear Hb' Hx1 Hx2.
  exists (Z.to_nat i), x, b. repeat split; try assumption.
  - rewrite Z2Nat.id by lia.
    replace (Z.of_nat (length (Point.coordinates self)) - 1 - 0 + 1)%Z
      with (Z.of_nat (length (Point.coordinates self))) in Hi by lia.
    rewrite Hi. apply Z.add_0_l.
  - rewrite !list_insert_insert_eq. reflexivity.
Qed.

Lemma mutate_run self :
  forall w, (0 < length (Point.coordinates self))%nat ->
  (length (Point.coordinates self) <= length (Point.boundaries self))%nat ->
  exists p', Point.mutate self w = (Return p', advance 2 w).
Proof.
  intros w Hpos Hlen. unfold Point.mutate.
  erewrite bind_run by (apply randint_run; lia).
  set (i := (0 + _ mod _)%Z).
  assert (Hi : (0 <= i < Z.of_nat (length (Point.coordinates self)))%Z).
  { subst i. pose proof (Z.mod_pos_bound (Z.of_N (entropy w (cursor w)))
       (Z.of_nat (length (Point.coordinates self)) - 1 - 0 + 1)). lia. }
  destruct (lookup_lt_is_Some_2 (Point.coordinates self) (Z.to_nat i)) as [x Hx]; [lia|].
  destruct (lookup_lt_is_Some_2 (Point.boundaries self) (Z.to_nat i)) as [b Hb]; [lia|].
  erewrite bind_run by (apply getitem_run, Hx).
  erewrite bind_run by (apply uniform_run).
  erewrite bind_run by (apply getitem_run, Hb).
  erewrite bind_run by (apply getitem_run, list_lookup_insert_eq; lia).
  erewrite bind_run by (apply getitem_run, Hb).
  erewrite bind_run
    by (apply getitem_run, list_lookup_insert_eq; rewrite length_insert; lia).
  eexists. reflexivity.
Qed.

Lemma mutate_coordinates self w p' w' :
  Point.mutate self w = (Return p', w') ->
  exists index x b,
    Point.coordinates self !! index = Some x /\
    Point.boundaries self !! index = Some b /\
    Point.boundaries p' = Point.boundaries self /\
    forall lower_le_upper : (fst b <= snd b)%Q,
      Point.coordinates p' = <[index := snd b]> (Point.coordinates self).
Proof.
  intros H. apply mutate_Return in H as (index & x & b & _ & Hx & Hb & -> & _).
  exists index, x, b. repeat split; try assumption.
  intros Hle. simpl. rewrite py_max_min_upper by exact Hle. reflexivity.
Qed.

Lemma init_run ap dims w :
  (dims <= length (match ap with
                   | None => repeat (0%Q, 100%Q) dims
                   | Some pop => pop_boundaries pop
                   end))%nat ->
  exists p, Point.init ap dims w = (Return p, advance dims w).
Proof.
  intros Hlen. unfold Point.init.
  set (bs := match ap with None => _ | Some pop => pop_boundaries pop end) in *.
  assert (Hloop : forall n start w0, (start + n <= length bs)%nat ->
            exists cs, for_each (fun dimension =>
                                   b <- getitem bs dimension ;;
                                   uniform (fst b) (snd b)) (seq start n) w0
                       = (Return cs, advance n w0)).
  { induction n as [|n IH]; intros start w0 Hs; simpl.
    - exists []. destruct w0; reflexivity.
    - destruct (lookup_lt_is_Some_2 bs start) as [b Hb]; [lia|].
      erewrite bind_run.
      2:{ erewrite bind_run by (apply getitem_run, Hb). apply uniform_run. }
      destruct (IH (S start) (advance 1 w0)) as [cs Hcs]; [lia|].
      erewrite bind_run by exact Hcs.
      eexists. unfold ret. f_equal. unfold advance; simpl. f_equal. lia. }
  destruct (Hloop dims 0%nat w) as [cs Hcs]; [lia|].
  erewrite bind_run by exact Hcs. eexists. reflexivity.
Qed.

(** C1 (code at the failing input).  At (50, 50) with bounds (0, 100),
    a perturbation of 5/2 on dimension 0 gives 105/2, which is already
    within the bounds and which the clamp of the specification would
    keep; [mutate] stores the upper bound 100 instead. *)
Theorem mutate_stores_upper_bound_example :
  exists p',
    Point.mutate mutate_example_point mutate_example_world
      = (Return p', advance 2 mutate_example_world) /\
    Point.coordinates p' = [100; 50]%Q /\
    (50 + (- (5) + (5 - - (5)) * unit_sample (entropy mutate_example_world 1)) == 105 # 2)%Q /\
    (clamp_into 0 100 (105 # 2) == 105 # 2)%Q /\
    ~ (100 == clamp_into 0 100 (105 # 2))%Q.
Proof.
  eexists. split; [vm_compute; reflexivity|].
  split; [reflexivity|]. split; [reflexivity|]. split; [reflexivity|].
  intros H. vm_compute in H. discriminate.
Qed.

(** C2.  When [lower <= upper] in every dimension, a point is within its
    bounds right after [Point.__init__], and [mutate] keeps a point
    within its bounds. *)
Theorem coordinates_within_bounds :
  (forall ap dims w p w',
      Point.init ap dims w = (Return p, w') ->
      bounds_ordered (Point.boundaries p) ->
      within_bounds p) /\
  (forall self w p' w',
      Point.mutate self w = (Return p', w') ->
      bounds_ordered (Point.boundaries self) ->
      within_bounds self ->
      within_bounds p').
Proof.
  split.
  - intros ap dims w p w' H Hord d x Hx.
    apply init_Return in H as (_ & _ & H).
    destruct (H d x Hx) as (b & u & Hb & H0 & H1 & ->).
    exists b. split; [exact Hb|].
    apply uniform_formula_range; eauto.
  - intros self w p' w' H Hord Hin d x Hx.
    apply mutate_coordinates in H as (index & x0 & b & Hx0 & Hb & Hbs & Hc).
    specialize (Hc (Hord _ _ Hb)). rewrite Hbs. rewrite Hc in Hx.
    destruct (Nat.eq_dec index d) as [->|Hne].
    + rewrite list_lookup_insert_eq in Hx by (eapply lookup_lt_Some, Hx0).
      inversion Hx; subst x. exists b. split; [exact Hb|].
      split; [eapply Hord, Hb | apply Qle_refl].
    + rewrite list_lookup_insert_ne in Hx by exact Hne. apply Hin, Hx.
Qed.

Lemma default_bounds_ordered n : bounds_ordered (repeat (0%Q, 100%Q) n).
Proof.
  intros d b Hb. apply list_elem_of_lookup_2, list_elem_of_In, repeat_spec in Hb.
  subst b. unfold Qle; simpl; lia.
Qed.

Lemma coordinates_within_bounds_witness :
  exists p p',
    Point.init None 2 mutate_example_world
      = (Return p, advance 2 mutate_example_world) /\
    Point.mutate p (advance 2 mutate_example_world)
      = (Return p', advance 4 mutate_example_world) /\
    within_bounds p /\ within_bounds p'.
Proof.
  set (p := Point.mk None [(0, 100); (0, 100)]%Q 5
              [0 + (100 - 0) * (0 # two53);
               0 + (100 - 0) * (6755399441055744 # two53)]%Q
              (-1) 0 0 (-1) (-1)).
  set (p' := Point.set_coordinates
               [100; 0 + (100 - 0) * (6755399441055744 # two53)]%Q p).
  assert (Hinit : Point.init None 2 mutate_example_world
                  = (Return p, advance 2 mutate_example_world)) by reflexivity.
  assert (Hmut : Point.mutate p (advance 2 mutate_example_world)
                 = (Return p', advance 4 mutate_example_world)) by reflexivity.
  pose proof (proj1 coordinates_within_bounds _ _ _ _ _ Hinit
                (default_bounds_ordered 2)) as Hp.
  exists p, p'. split; [exact Hinit|]. split; [exact Hmut|]. split; [exact Hp|].
  exact (proj2 coordinates_within_bounds _ _ _ _ Hmut (default_bounds_ordered 2) Hp).
Defined.

(** ** crossover *)

Lemma advance_advance n m w : advance n (advance m w) = advance (n + m) w.
Proof. unfold advance; simpl. f_equal. lia. Qed.

Lemma advance_0 w : advance 0 w = w.
Proof. destruct w; reflexivity. Qed.

Lemma draw_coordinates_world (bs : list (Q * Q)) n start cs w w' :
  for_each (fun dimension => b <- getitem bs dimension ;; uniform (fst b) (snd b))
           (seq start n) w = (Return cs, w') ->
  w' = advance n w.
Proof.
  revert start cs w. induction n as [|n IH]; intros start cs w H; simpl in H.
  - apply ret_Return in H as [_ <-]. symmetry. apply advance_0.
  - apply bind_Return in H as (x & wa & Hx & H).
    apply bind_Return in Hx as (b & wb & Hb & Hx).
    apply getitem_Return in Hb as [_ <-].
    apply uniform_Return in Hx as [_ ->].
    apply bind_Return in H as (cs' & wc & Hcs' & H).
    apply ret_Return in H as [_ <-].
    apply IH in Hcs'. rewrite Hcs', advance_advance. f_equal. lia.
Qed.

Lemma init_world ap dims w p w' :
  Point.init ap dims w = (Return p, w') -> w' = advance dims w.
Proof.
  unfold Point.init. intros H.
  apply bind_Return in H as (cs & w1 & Hcs & H).
  apply ret_Return in H as [_ <-].
  eapply draw_coordinates_world, Hcs.
Qed.

Lemma crossover_Return point1 point2 w children w' :
  crossover point1 point2 w = (Return children, w') ->
  same_population (Point.associated_population point1)
                  (Point.associated_population point2) = true /\
  exists k w1,
    draw_splitpoint point1 w1 = (Return k, w') /\
    w1 = advance (length (Point.coordinates point1) +
                  length (Point.coordinates point2)) w /\
    Point.coordinates (fst children) =
      take (Z.to_nat k) (Point.coordinates point1) ++
      drop (Z.to_nat k) (Point.coordinates point2) /\
    Point.coordinates (snd children) =
      take (Z.to_nat k) (Point.coordinates point2) ++
      drop (Z.to_nat k) (Point.coordinates point1) /\
    Point.associated_population (fst children) = Point.associated_population point1 /\
    Point.associated_population (snd children) = Point.associated_population point2.
Proof.
  unfold crossover.
  destruct (same_population _ _); simpl; [|discriminate].
  intros H. split; [reflexivity|].
  apply bind_Return in H as (child1 & w1 & H1 & H).
  apply bind_Return in H as (child2 & w2 & H2 & H).
  apply bind_Return in H as (k & w3 & Hk & H).
  apply ret_Return in H as [<- <-].
  pose proof H1 as Hw1. apply init_world in Hw1. subst w1.
  pose proof H2 as Hw2. apply init_world in Hw2. rewrite advance_advance in Hw2.
  apply init_Return in H1 as (Hap1 & _). apply init_Return in H2 as (Hap2 & _).
  exists k, w2. simpl. repeat split; try assumption.
  rewrite Hw2. f_equal. lia.
Qed.

Lemma draw_splitpoint_Return point1 w k w' :
  draw_splitpoint point1 w = (Return k, w') ->
  (1 <= k <= Z.of_nat (length (Point.coordinates point1)))%Z.
Proof. unfold draw_splitpoint. intros H. apply randint_Return in H. tauto. Qed.

(** C4 (counterexample).  With two coordinates the split index 2 is
    drawn: it exceeds dimensionality - 1, and each child is then a copy
    of one parent. *)
Lemma crossover_split_at_dimensionality :
  exists child1 child2,
    crossover crossover_parent_a crossover_parent_b crossover_example_world
      = (Return (child1, child2), advance 5 crossover_example_world) /\
    draw_splitpoint crossover_parent_a (advance 4 crossover_example_world)
      = (Return 2%Z, advance 5 crossover_example_world) /\
    length (Point.coordinates crossover_parent_a) = 2%nat /\
    ~ (2 <= Z.of_nat (length (Point.coordinates crossover_parent_a)) - 1)%Z /\
    Point.coordinates child1 = Point.coordinates crossover_parent_a /\
    Point.coordinates child2 = Point.coordinates crossover_parent_b.
Proof.
  eexists. eexists. split; [vm_compute; reflexivity|].
  split; [reflexivity|]. split; [reflexivity|].
  split; [simpl; lia|]. split; reflexivity.
Qed.

(** C4 (amended).  The split index drawn by [crossover] satisfies
    1 <= k <= dimensionality, and the first child takes the first k
    coordinates of the first parent. *)
Theorem crossover_splitpoint_range point1 point2 w children w' :
  crossover point1 point2 w = (Return children, w') ->
  exists k w1,
    draw_splitpoint point1 w1 = (Return k, w') /\
    (1 <= k <= Z.of_nat (length (Point.coordinates point1)))%Z /\
    Point.coordinates (fst children) =
      take (Z.to_nat k) (Point.coordinates point1) ++
      drop (Z.to_nat k) (Point.coordinates point2).
Proof.
  intros H. apply crossover_Return in H as (_ & k & w1 & Hk & _ & Hc1 & _).
  exists k, w1. split; [exact Hk|]. split; [|exact Hc1].
  eapply draw_splitpoint_Return, Hk.
Qed.

Lemma crossover_splitpoint_range_witness :
  exists k w1,
    draw_splitpoint crossover_parent_a w1
      = (Return k, advance 5 crossover_example_world) /\
    (1 <= k <= Z.of_nat (length (Point.coordinates crossover_parent_a)))%Z /\
    [10; 20]%Q =
      take (Z.to_nat k) (Point.coordinates crossover_parent_a) ++
      drop (Z.to_nat k) (Point.coordinates crossover_parent_b).
Proof.
  refine (@crossover_splitpoint_range crossover_parent_a crossover_parent_b
            crossover_example_world
            (Point.mk None [(0, 100); (0, 100)]%Q 5 [10; 20]%Q (-1) 0 0 (-1) (-1),
             Point.mk None [(0, 100); (0, 100)]%Q 5 [30; 40]%Q (-1) 0 0 (-1) (-1))
            (advance 5 crossover_example_world) _).
  reflexivity.
Defined.

(** C5.  For parents with the same number of coordinates, the first
    child is the first k coordinates of the first parent followed by the
    remaining coordinates of the second, the second child is the
    complement, and both have the dimensionality of the parents. *)
Theorem crossover_children_coordinates point1 point2 w child1 child2 w' :
  length (Point.coordinates point1) = length (Point.coordinates point2) ->
  crossover point1 point2 w = (Return (child1, child2), w') ->
  exists k : nat,
    (1 <= k <= length (Point.coordinates point1))%nat /\
    Point.coordinates child1 =
      take k (Point.coordinates point1) ++ drop k (Point.coordinates point2) /\
    Point.coordinates child2 =
      take k (Point.coordinates point2) ++ drop k (Point.coordinates point1) /\
    take k (Point.coordinates child1) = take k (Point.coordinates point1) /\
    drop k (Point.coordinates child1) = drop k (Point.coordinates point2) /\
    take k (Point.coordinates child2) = take k (Point.coordinates point2) /\
    drop k (Point.coordinates child2) = drop k (Point.coordinates point1) /\
    length (Point.coordinates child1) = length (Point.coordinates point1) /\
    length (Point.coordinates child2) = length (Point.coordinates point2).
Proof.
  intros Hlen H.
  apply crossover_Return in H as (_ & k & w1 & Hk & _ & Hc1 & Hc2 & _).
  apply draw_splitpoint_Return in Hk. simpl in Hc1, Hc2.
  exists (Z.to_nat k). split; [lia|].
  assert (Hk1 : length (take (Z.to_nat k) (Point.coordinates point1)) = Z.to_nat k)
    by (rewrite length_take; lia).
  assert (Hk2 : length (take (Z.to_nat k) (Point.coordinates point2)) = Z.to_nat k)
    by (rewrite length_take; lia).
  rewrite Hc1, Hc2. repeat split.
  - rewrite take_app_length'; auto.
  - rewrite drop_app_length'; auto.
  - rewrite take_app_length'; auto.
  - rewrite drop_app_length'; auto.
  - rewrite length_app, length_take, length_drop. lia.
  - rewrite length_app, length_take, length_drop. lia.
Qed.

Lemma crossover_children_coordinates_witness :
  exists k : nat,
    (1 <= k <= 2)%nat /\
    [10; 40]%Q = take k [10; 20]%Q ++ drop k [30; 40]%Q /\
    [30; 20]%Q = take k [30; 40]%Q ++ drop k [10; 20]%Q /\
    take k [10; 40]%Q = take k [10; 20]%Q /\
    drop k [10; 40]%Q = drop k [30; 40]%Q /\
    take k [30; 20]%Q = take k [30; 40]%Q /\
    drop k [30; 20]%Q = drop k [10; 20]%Q /\
    length [10; 40]%Q = 2%nat /\ length [30; 20]%Q = 2%nat.
Proof.
  refine (@crossover_children_coordinates crossover_parent_a crossover_parent_b
            crossover_split_world
            (Point.mk None [(0, 100); (0, 100)]%Q 5 [10; 40]%Q (-1) 0 0 (-1) (-1))
            (Point.mk None [(0, 100); (0, 100)]%Q 5 [30; 20]%Q (-1) 0 0 (-1) (-1))
            (advance 5 crossover_split_world) _ _); reflexivity.
Defined.

(** ** weighted_choice *)

Lemma fold_left_Qplus (l : list Q) (a : Q) :
  (fold_left Qplus l a == a + np_sum l)%Q.
Proof.
  unfold np_sum. revert a. induction l as [|x l IH]; intros a; simpl.
  - lra.
  - rewrite IH, (IH (0 + x)%Q). lra.
Qed.

Lemma np_sum_cons (x : Q) (l : list Q) : (np_sum (x :: l) == x + np_sum l)%Q.
Proof. unfold np_sum at 1. simpl. rewrite fold_left_Qplus. lra. Qed.

Lemma np_sum_nonneg (l : list Q) :
  Forall (fun x => 0 <= x)%Q l -> (0 <= np_sum l)%Q.
Proof.
  induction 1 as [|x l Hx Hl IH].
  - unfold np_sum; simpl. lra.
  - rewrite np_sum_cons. lra.
Qed.

Lemma np_sum_scale (l : list Q) (s : Q) :
  (np_sum (map (fun weight => weight / s) l) == np_sum l / s)%Q.
Proof.
  induction l as [|x l IH]; simpl.
  - unfold np_sum; simpl. unfold Qdiv. lra.
  - rewrite !np_sum_cons, IH. unfold Qdiv. lra.
Qed.

Lemma Qlt_bool_proper a a' b b' :
  (a == a')%Q -> (b == b')%Q -> Qlt_bool a b = Qlt_bool a' b'.
Proof.
  intros Ha Hb.
  destruct (Qlt_bool a b) eqn:E, (Qlt_bool a' b') eqn:E'; try reflexivity.
  - apply Qlt_bool_true in E. apply Qlt_bool_false in E'. lra.
  - apply Qlt_bool_false in E. apply Qlt_bool_true in E'. lra.
Qed.

(** With threshold 0 the running total never drops below the threshold. *)
Lemma weighted_scan_zero_threshold {A} (choices : list A) threshold nws :
  forall total index w,
    (threshold == 0)%Q ->
    Forall (fun x => 0 <= x)%Q nws ->
    (np_sum nws <= total)%Q ->
    weighted_scan choices threshold total index nws w = (Return None, w).
Proof.
  induction nws as [|nw rest IH]; intros total index w Ht Hpos Hsum; simpl.
  - reflexivity.
  - inversion Hpos as [|? ? Hnw Hrest]; subst.
    rewrite np_sum_cons in Hsum.
    pose proof (np_sum_nonneg Hrest) as Hr.
    assert (E : Qlt_bool (total - nw) threshold = false)
      by (apply Qlt_bool_false; lra).
    rewrite E. apply IH; auto. lra.
Qed.

(** With a positive threshold the scan selects some choice. *)
Lemma weighted_scan_positive_threshold {A} (choices : list A) threshold nws :
  forall total index w,
    (0 < threshold)%Q ->
    (np_sum nws == total)%Q ->
    (threshold <= total)%Q ->
    (index + length nws <= length choices)%nat ->
    exists i c, (index <= i < index + length nws)%nat /\ choices !! i = Some c /\
      weighted_scan choices threshold total index nws w = (Return (Some c), w).
Proof.
  induction nws as [|nw rest IH]; intros total index w Ht Hsum Hge Hlen; simpl.
  - exfalso. unfold np_sum in Hsum; simpl in Hsum. lra.
  - rewrite np_sum_cons in Hsum. simpl in Hlen.
    destruct (Qlt_bool (total - nw) threshold) eqn:E.
    + destruct (lookup_lt_is_Some_2 choices index) as [c Hc]; [lia|].
      exists index, c. split; [lia|]. split; [exact Hc|].
      erewrite bind_run by (apply getitem_run, Hc). reflexivity.
    + apply Qlt_bool_false in E.
      destruct (IH (total - nw)%Q (S index) w) as (i & c & Hi & Hc & Hrun);
        auto; try lra; try lia.
      exists i, c. split; [lia|]. auto.
Qed.

Lemma weighted_choice_guard (weights : list Q) :
  (0 < np_sum weights)%Q ->
  negb (length weights =? 0)%nat && Qeq_bool (np_sum weights) 0 = false.
Proof.
  intros H. apply andb_false_iff. right.
  destruct (Qeq_bool (np_sum weights) 0) eqn:E; [|reflexivity].
  apply Qeq_bool_iff in E. lra.
Qed.

Lemma weighted_choice_zero_threshold {A} (choices : list A) weights w :
  Forall (fun x => 0 <= x)%Q weights ->
  (0 < np_sum weights)%Q ->
  unit_sample (entropy w (cursor w)) = (0 # two53) ->
  weighted_choice choices weights w = (Return None, advance 1 w).
Proof.
  intros Hpos Hsum Hdraw. unfold weighted_choice.
  rewrite weighted_choice_guard by exact Hsum.
  erewrite bind_run by apply uniform_run.
  apply weighted_scan_zero_threshold.
  - rewrite Hdraw. unfold Qeq; simpl. reflexivity.
  - apply Forall_map. eapply Forall_impl; [exact Hpos|]. simpl.
    intros x Hx. apply Qle_shift_div_l; lra.
  - rewrite np_sum_scale. apply Qle_shift_div_r; lra.
Qed.

Lemma weighted_choice_positive_threshold {A} (choices : list A) weights w :
  (0 < np_sum weights)%Q ->
  (0 < unit_sample (entropy w (cursor w)))%Q ->
  (length weights <= length choices)%nat ->
  exists i c, (i < length weights)%nat /\ choices !! i = Some c /\
    weighted_choice choices weights w = (Return (Some c), advance 1 w).
Proof.
  intros Hsum Hdraw Hlen. unfold weighted_choice.
  rewrite weighted_choice_guard by exact Hsum.
  erewrite bind_run by apply uniform_run.
  destruct (unit_sample_range (entropy w (cursor w))) as [_ H1].
  destruct (@weighted_scan_positive_threshold A choices
              (0 + (1 - 0) * unit_sample (entropy w (cursor w)))%Q
              (map (fun weight => (weight / np_sum weights)%Q) weights)
              1%Q 0%nat (advance 1 w)) as (i & c & Hi & Hc & Hrun).
  - lra.
  - rewrite np_sum_scale. field. lra.
  - lra.
  - rewrite length_map. simpl. exact Hlen.
  - rewrite length_map in Hi. exists i, c. split; [lia|]. auto.
Qed.

(** ** Sorting, breeding weights and parent selection *)

Lemma insert_by_Permutation {A} (before : A -> A -> bool) x l :
  Permutation (insert_by before x l) (x :: l).
Proof.
  induction l as [|y l IH]; simpl; [reflexivity|].
  destruct (before x y); [reflexivity|].
  rewrite IH. apply perm_swap.
Qed.

Lemma sort_by_Permutation {A} (before : A -> A -> bool) l :
  Permutation (sort_by before l) l.
Proof.
  induction l as [|x l IH]; simpl; [reflexivity|].
  rewrite insert_by_Permutation. constructor. exact IH.
Qed.

Lemma sort_by_length {A} (before : A -> A -> bool) l :
  length (sort_by before l) = length l.
Proof. apply Permutation_length, sort_by_Permutation. Qed.

Lemma for_each_getitem_seq {A} (l : list A) n start w :
  (start + n <= length l)%nat ->
  for_each (fun i => getitem l i) (seq start n) w = (Return (take n (drop start l)), w).
Proof.
  revert start. induction n as [|n IH]; intros start H; simpl.
  - rewrite take_0. reflexivity.
  - destruct (lookup_lt_is_Some_2 l start) as [x Hx]; [lia|].
    erewrite bind_run by (apply getitem_run, Hx).
    erewrite bind_run by (apply IH; lia).
    unfold ret. repeat f_equal.
    rewrite (drop_S _ _ _ Hx). reflexivity.
Qed.

Lemma breeding_weights_run pts w :
  Forall ranks_nonneg pts ->
  for_each Population.breeding_weight pts w = (Return (map weight_of pts), w).
Proof.
  induction 1 as [|p pts [Hf Hd] Hpts IH]; simpl; [reflexivity|].
  erewrite bind_run.
  2:{ unfold Population.breeding_weight.
      destruct (Z.eqb_spec (1 + Point.fitness_rank p + Point.diversity_rank p) 0);
        [lia|reflexivity]. }
  erewrite bind_run by exact IH. reflexivity.
Qed.

Lemma weight_of_positive p : ranks_nonneg p -> (0 < weight_of p)%Q.
Proof.
  intros [Hf Hd]. unfold weight_of.
  apply Qlt_shift_div_l.
  - replace 0%Q with (inject_Z 0) by reflexivity. rewrite <- Zlt_Qlt. lia.
  - rewrite Qmult_0_l. reflexivity.
Qed.

Lemma np_sum_positive (l : list Q) :
  l <> [] -> Forall (fun x => 0 < x)%Q l -> (0 < np_sum l)%Q.
Proof.
  intros Hne Hl. destruct Hl as [|x l Hx Hl]; [congruence|].
  rewrite np_sum_cons.
  assert (0 <= np_sum l)%Q.
  { apply np_sum_nonneg. eapply Forall_impl; [exact Hl|]. simpl. intros; lra. }
  lra.
Qed.

Lemma select_parents_unfold fuel size weights :
  Population.select_parents fuel size weights =
  (parent1 <- weighted_choice (seq 0 size) weights ;;
   parent2 <- weighted_choice (seq 0 size) weights ;;
   if option_nat_eqb parent1 parent2
   then match fuel with
        | O => diverge
        | S fuel' => Population.select_parents fuel' size weights
        end
   else ret (parent1, parent2)).
Proof. destruct fuel; reflexivity. Qed.

Lemma np_sum_app (a b : list Q) : (np_sum (a ++ b) == np_sum a + np_sum b)%Q.
Proof.
  induction a as [|x a IH]; simpl.
  - unfold np_sum at 2; simpl. lra.
  - rewrite !np_sum_cons, IH. lra.
Qed.

Lemma np_sum_zeros (l : list Q) : Forall (fun x => x == 0)%Q l -> (np_sum l == 0)%Q.
Proof.
  induction 1 as [|x l Hx Hl IH].
  - reflexivity.
  - rewrite np_sum_cons, IH, Hx. lra.
Qed.

Lemma weighted_scan_one_hot {A} (choices : list A) threshold zs nwj rest c :
  forall total index w,
    Forall (fun x => x == 0)%Q zs ->
    (threshold <= total)%Q ->
    (total - nwj < threshold)%Q ->
    choices !! (index + length zs)%nat = Some c ->
    weighted_scan choices threshold total index (zs ++ nwj :: rest) w
      = (Return (Some c), w).
Proof.
  induction zs as [|z zs IH]; intros total index w Hz Hge Hlt Hc; simpl.
  - apply Qlt_bool_true in Hlt. rewrite Hlt.
    rewrite Nat.add_0_r in Hc.
    eapply bind_run_eq; [apply getitem_run, Hc|]. reflexivity.
  - inversion Hz as [|? ? Hz0 Hzs]; subst.
    assert (E : Qlt_bool (total - z) threshold = false)
      by (apply Qlt_bool_false; lra).
    rewrite E. apply IH; auto; try lra.
    simpl in Hc. rewrite <- Hc. f_equal. lia.
Qed.

Lemma unit_sample_zero r :
  Qeq_bool (unit_sample r) 0 = true -> unit_sample r = (0 # two53).
Proof.
  intros H. apply Qeq_bool_iff in H. unfold unit_sample in *.
  unfold Qeq in H. simpl in H. f_equal. lia.
Qed.

(** A weight vector with one positive entry, at index [j], selects the
    choice at [j] for every threshold except 0, where nothing is selected. *)
Lemma weighted_choice_single_weight {A} (choices : list A) weights j wj c w :
  weights !! j = Some wj ->
  (0 < wj)%Q ->
  (forall i x, i <> j -> weights !! i = Some x -> (x == 0)%Q) ->
  choices !! j = Some c ->
  weighted_choice choices weights w =
  (Return (if Qeq_bool (unit_sample (entropy w (cursor w))) 0 then None else Some c),
   advance 1 w).
Proof.
  intros Hj Hwj Hother Hc.
  assert (Hsplit : weights = take j weights ++ wj :: drop (S j) weights)
    by (symmetry; apply take_drop_middle, Hj).
  assert (Hjlt : (j < length weights)%nat) by (eapply lookup_lt_Some, Hj).
  assert (Hlz : length (take j weights) = j) by (rewrite length_take; lia).
  assert (Hz1 : Forall (fun x => x == 0)%Q (take j weights)).
  { apply Forall_lookup. intros i x Hi.
    apply lookup_take_Some in Hi as [Hi Hlt]. apply (Hother i x); [lia|exact Hi]. }
  assert (Hz2 : Forall (fun x => x == 0)%Q (drop (S j) weights)).
  { apply Forall_lookup. intros i x Hi.
    rewrite lookup_drop in Hi. apply (Hother (S j + i)%nat x); [lia|exact Hi]. }
  assert (Hs : (np_sum weights == wj)%Q).
  { rewrite Hsplit, np_sum_app, np_sum_cons, (np_sum_zeros Hz1), (np_sum_zeros Hz2). lra. }
  revert Hsplit Hz1 Hz2 Hlz.
  generalize (take j weights) as zs. generalize (drop (S j) weights) as rest.
  intros rest zs Hsplit Hz1 Hz2 Hlz.
  destruct (Qeq_bool (unit_sample (entropy w (cursor w))) 0) eqn:E.
  - apply weighted_choice_zero_threshold.
    + rewrite Hsplit. apply Forall_app. split; [|constructor].
      * eapply Forall_impl; [exact Hz1|]. simpl. intros x Hx. rewrite Hx. lra.
      * lra.
      * eapply Forall_impl; [exact Hz2|]. simpl. intros x Hx. rewrite Hx. lra.
    + rewrite Hs. exact Hwj.
    + apply unit_sample_zero, E.
  - unfold weighted_choice.
    rewrite weighted_choice_guard by lra.
    eapply bind_run_eq; [apply uniform_run|].
    destruct (unit_sample_range (entropy w (cursor w))) as [H0 H1].
    assert (Hpos : (0 < unit_sample (entropy w (cursor w)))%Q).
    { apply Qeq_bool_neq in E. lra. }
    assert (Hd : (wj / np_sum weights == 1)%Q) by (rewrite Hs; field; lra).
    revert Hd. generalize (np_sum weights) as s. intros s Hd.
    rewrite Hsplit, map_app. simpl map.
    apply weighted_scan_one_hot.
    + apply Forall_map. eapply Forall_impl; [exact Hz1|]. simpl.
      intros x Hx. rewrite Hx. unfold Qdiv. lra.
    + lra.
    + rewrite Hd. lra.
    + rewrite length_map, Hlz. exact Hc.
Qed.

(** C8 (code at the failing input).  With weights [1, 0, 0] and a drawn
    threshold of 0, the running total reaches 0, which is not below the
    threshold: no item is returned, although the only weighted item is
    the one at index 0. *)
Theorem weighted_choice_one_hot_zero_draw :
  weighted_choice [0; 1; 2]%nat [1; 0; 0]%Q one_hot_world
    = (Return None, advance 1 one_hot_world) /\
  [0; 1; 2]%nat !! 0%nat = Some 0%nat /\
  uniform 0 1 one_hot_world = (Return (0 + (1 - 0) * (0 # two53))%Q, advance 1 one_hot_world).
Proof. repeat split. Qed.

(** C10.  For valid breeding weights (non-negative, positive sum) and a
    drawn threshold of 0, [weighted_choice] returns [None] without
    raising; [__breed], which indexes the members with the result, then
    fails with [TypeError]. *)
Theorem weighted_choice_none_breaks_breed fuel self w :
  Population.size self = length (Population.points self) ->
  (Population.elite_population_size self < Population.size self)%nat ->
  Forall ranks_nonneg (Population.points self) ->
  unit_sample (entropy w (cursor w)) = (0 # two53) ->
  (0 < unit_sample (entropy w (S (cursor w))))%Q ->
  let weights := map weight_of (sort_by Population.by_fitness_rank (Population.points self)) in
  Forall (fun x => 0 <= x)%Q weights /\
  (0 < np_sum weights)%Q /\
  weighted_choice (seq 0 (Population.size self)) weights w = (Return None, advance 1 w) /\
  exists msg, Population.breed fuel self w = (Raise (TypeError msg), advance 2 w).
Proof.
  intros Hsize Helite Hranks Hdraw0 Hdraw1 weights.
  set (sorted := sort_by Population.by_fitness_rank (Population.points self)) in *.
  assert (Hsorted : Forall ranks_nonneg sorted).
  { eapply Permutation_Forall; [symmetry; apply sort_by_Permutation|exact Hranks]. }
  assert (Hlen : length sorted = Population.size self).
  { unfold sorted. rewrite sort_by_length. auto. }
  assert (Hwpos : Forall (fun x => 0 < x)%Q weights).
  { apply Forall_map. eapply Forall_impl; [exact Hsorted|].
    intros p Hp. apply weight_of_positive, Hp. }
  assert (Hwnn : Forall (fun x => 0 <= x)%Q weights).
  { eapply Forall_impl; [exact Hwpos|]. simpl. intros; lra. }
  assert (Hsum : (0 < np_sum weights)%Q).
  { apply np_sum_positive; [|exact Hwpos].
    intros E. apply (f_equal length) in E. unfold weights in E.
    rewrite length_map, Hlen in E. simpl in E. lia. }
  assert (Hnone : forall A (choices : list A),
             weighted_choice choices weights w = (Return None, advance 1 w)).
  { intros. apply weighted_choice_zero_threshold; auto. }
  split; [exact Hwnn|]. split; [exact Hsum|]. split; [apply Hnone|].
  destruct (@weighted_choice_positive_threshold nat (seq 0 (Population.size self))
              weights (advance 1 w)) as (i & c & Hi & Hc & Hsome).
  { exact Hsum. }
  { simpl. exact Hdraw1. }
  { unfold weights. rewrite length_map, length_seq, Hlen. lia. }
  eexists. unfold Population.breed. cbv zeta. fold sorted.
  eapply bind_run_eq; [apply for_each_getitem_seq; simpl; lia|].
  eapply bind_run_eq; [apply breeding_weights_run, Hsorted|].
  fold weights.
  eapply bind_raise_eq.
  simpl Population.size.
  destruct (Population.size self) as [|budget] eqn:Esize; [lia|].
  simpl Population.breed_loop.
  rewrite drop_0, length_take, Hlen.
  replace (Population.elite_population_size self `min` S budget <? _)%nat with true
    by (symmetry; apply Nat.ltb_lt; simpl; lia).
  eapply bind_run_eq.
  { rewrite select_parents_unfold.
    eapply bind_run_eq; [simpl Population.size; rewrite Esize; apply Hnone|].
    eapply bind_run_eq; [simpl Population.size; rewrite Esize; exact Hsome|].
    simpl. rewrite advance_advance. reflexivity. }
  eapply bind_raise_eq. reflexivity.
Qed.

Lemma weighted_choice_none_breaks_breed_witness :
  let weights :=
    map weight_of (sort_by Population.by_fitness_rank
                           (Population.points example_population)) in
  Forall (fun x => 0 <= x)%Q weights /\
  (0 < np_sum weights)%Q /\
  weighted_choice (seq 0 (Population.size example_population)) weights none_world
    = (Return None, advance 1 none_world) /\
  exists msg,
    Population.breed 3 example_population none_world
      = (Raise (TypeError msg), advance 2 none_world).
Proof.
  apply (@weighted_choice_none_breaks_breed 3 example_population none_world).
  - reflexivity.
  - simpl. lia.
  - repeat constructor; simpl; lia.
  - reflexivity.
  - reflexivity.
Defined.

(** ** Population construction *)

(** C9.  When [elite_fraction] or [mutation_probability] is outside
    [0, 1], or [verbose] is not 0, 1 or 2, [Population.__init__] raises
    [ValueError] at once: no random number has been drawn, the objective
    has not been called, and no population is returned. *)
Theorem init_rejects_invalid_configuration
    objective_function dimensions population_size boundaries
    elite_fraction mutation_probability mutation_range verbose multiprocessing w :
  invalid_configuration elite_fraction mutation_probability verbose ->
  exists msg,
    Population.init objective_function dimensions population_size boundaries
                    elite_fraction mutation_probability mutation_range verbose
                    multiprocessing w
    = (Raise (ValueError msg), w).
Proof.
  intros H. unfold Population.init.
  destruct (Qlt_bool 1 elite_fraction || Qlt_bool elite_fraction 0) eqn:E1;
    [eexists; reflexivity|].
  destruct (Qlt_bool 1 mutation_probability || Qlt_bool mutation_probability 0) eqn:E2;
    [eexists; reflexivity|].
  destruct (negb (existsb (Z.eqb verbose) [0; 1; 2]%Z)) eqn:E3;
    [eexists; reflexivity|].
  exfalso.
  apply orb_false_iff in E1 as [E1a E1b]. apply orb_false_iff in E2 as [E2a E2b].
  apply Qlt_bool_false in E1a, E1b, E2a, E2b.
  apply negb_false_iff in E3. simpl in E3.
  destruct H as [H|[H|[H|[H|(H0 & H1 & H2)]]]]; try lra.
  destruct (Z.eqb_spec verbose 0); [lia|].
  destruct (Z.eqb_spec verbose 1); [lia|].
  destruct (Z.eqb_spec verbose 2); [lia|]. discriminate.
Qed.

Lemma init_rejects_invalid_configuration_witness :
  exists msg,
    Population.init (Some example_objective) None 60 None (3 # 2) (5 # 100) 5 0
                    false one_hot_world
    = (Raise (ValueError msg), one_hot_world).
Proof.
  apply init_rejects_invalid_configuration. left. reflexivity.
Defined.

(** ** Rank assignment and sorting *)

Lemma fold_m_app {A S} (f : S -> A -> M S) l1 l2 s w :
  fold_m f (l1 ++ l2) s w = (s' <- fold_m f l1 s ;; fold_m f l2 s') w.
Proof.
  revert s w. induction l1 as [|x l1 IH]; intros s w; simpl.
  - reflexivity.
  - unfold bind. destruct (f s x w) as [[s'| |] w1]; try reflexivity.
    rewrite IH. reflexivity.
Qed.

Lemma rank_prefix_length set_rank n pts :
  length (rank_prefix set_rank n pts) = length pts.
Proof. apply length_imap. Qed.

Lemma rank_prefix_lookup set_rank n pts i :
  rank_prefix set_rank n pts !! i =
  (fun p => if (i <? n)%nat then set_rank (Z.of_nat i) p else p) <$> pts !! i.
Proof. apply list_lookup_imap. Qed.

Lemma rank_prefix_0 set_rank pts : rank_prefix set_rank 0 pts = pts.
Proof.
  apply list_eq. intros i. rewrite rank_prefix_lookup.
  destruct (pts !! i); reflexivity.
Qed.

Lemma rank_prefix_S set_rank n pts p :
  pts !! n = Some p ->
  <[n := set_rank (Z.of_nat n) p]> (rank_prefix set_rank n pts)
  = rank_prefix set_rank (S n) pts.
Proof.
  intros Hp. apply list_eq. intros i.
  rewrite rank_prefix_lookup.
  destruct (Nat.eq_dec n i) as [<-|Hne].
  - rewrite list_lookup_insert_eq
      by (rewrite rank_prefix_length; eapply lookup_lt_Some, Hp).
    rewrite Hp. simpl. replace (n <? S n)%nat with true; [reflexivity|].
    symmetry. apply Nat.ltb_lt. lia.
  - rewrite list_lookup_insert_ne by exact Hne.
    rewrite rank_prefix_lookup.
    destruct (pts !! i); [simpl|reflexivity].
    destruct (Nat.ltb_spec i n), (Nat.ltb_spec i (S n)); try reflexivity; lia.
Qed.

Lemma assign_ranks_Return set_rank n pts w r w' :
  Population.assign_ranks set_rank n pts w = (Return r, w') ->
  (n <= length pts)%nat /\ r = rank_prefix set_rank n pts /\ w' = w.
Proof.
  unfold Population.assign_ranks. revert r w'.
  induction n as [|n IH]; intros r w' H.
  - simpl in H. apply ret_Return in H as [<- <-].
    split; [lia|]. split; [symmetry; apply rank_prefix_0 | reflexivity].
  - rewrite seq_S, fold_m_app in H. simpl in H.
    apply bind_Return in H as (r1 & w1 & Hr1 & H).
    apply IH in Hr1 as (Hn & -> & ->).
    apply bind_Return in H as (r2 & w2 & H & Hret).
    apply ret_Return in Hret as [<- <-].
    apply bind_Return in H as (p & w3 & Hp & H).
    apply getitem_Return in Hp as [Hp <-].
    apply ret_Return in H as [<- <-].
    rewrite rank_prefix_lookup in Hp.
    destruct (pts !! n) as [p0|] eqn:Hp0; [|discriminate].
    simpl in Hp. rewrite Nat.ltb_irrefl in Hp. inversion Hp; subst p0.
    split; [apply lookup_lt_Some in Hp0; lia|].
    split; [apply rank_prefix_S, Hp0 | reflexivity].
Qed.

Lemma assign_ranks_run set_rank n pts w :
  (n <= length pts)%nat ->
  Population.assign_ranks set_rank n pts w = (Return (rank_prefix set_rank n pts), w).
Proof.
  unfold Population.assign_ranks. induction n as [|n IH]; intros Hn.
  - simpl. rewrite rank_prefix_0. reflexivity.
  - rewrite seq_S, fold_m_app. simpl.
    eapply bind_run_eq; [apply IH; lia|].
    destruct (lookup_lt_is_Some_2 pts n) as [p Hp]; [lia|].
    eapply bind_run_eq.
    { eapply bind_run_eq.
      - apply getitem_run. rewrite rank_prefix_lookup, Hp. simpl.
        rewrite Nat.ltb_irrefl. reflexivity.
      - reflexivity. }
    erewrite rank_prefix_S by exact Hp. reflexivity.
Qed.

(** Sorting with a total and transitive order. *)
Section Sorting.
Context {A : Type} (before : A -> A -> bool).
Hypothesis before_total : forall a b, before a b = false -> before b a = true.
Hypothesis before_trans :
  forall a b c, before a b = true -> before b c = true -> before a c = true.

Let R (a b : A) : Prop := before a b = true.

Lemma insert_by_sorted x l :
  StronglySorted R l -> StronglySorted R (insert_by before x l).
Proof.
  induction 1 as [|y l Hl IH Hy]; simpl.
  - repeat constructor.
  - destruct (before x y) eqn:E.
    + constructor; [constructor; assumption|].
      constructor; [exact E|].
      eapply Forall_impl; [exact Hy|]. intros z Hz. eapply before_trans; eauto.
    + constructor; [exact IH|].
      eapply Permutation_Forall; [symmetry; apply insert_by_Permutation|].
      constructor; [apply before_total, E | exact Hy].
Qed.

Lemma sort_by_sorted l : StronglySorted R (sort_by before l).
Proof.
  induction l as [|x l IH]; simpl; [constructor|].
  apply insert_by_sorted, IH.
Qed.

Lemma sort_by_lookup_le l i j a b :
  (i <= j)%nat -> before a a = true ->
  sort_by before l !! i = Some a -> sort_by before l !! j = Some b ->
  before a b = true.
Proof.
  intros Hij Hrefl Ha Hb.
  destruct (Nat.eq_dec i j) as [->|Hne].
  - rewrite Ha in Hb. inversion Hb; subst. exact Hrefl.
  - pose proof (sort_by_sorted l) as Hs.
    revert i j Hij Hne Ha Hb. induction Hs as [|y s Hs IH Hy]; intros i j Hij Hne Ha Hb.
    + discriminate.
    + destruct i as [|i], j as [|j]; try lia; simpl in Ha, Hb.
      * inversion Ha; subst y.
        exact (Forall_lookup_1 _ _ _ _ Hy Hb).
      * apply (IH i j); auto; lia.
Qed.
End Sorting.

Lemma lookup_map {A B} (f : A -> B) (l : list A) i : map f l !! i = f <$> l !! i.
Proof. exact (list_lookup_fmap f l i). Qed.

Section Ranking.
Variable set_rank : Z -> Point.t -> Point.t.
Variable rank : Point.t -> Z.
Variable value : Point.t -> Q.
Hypothesis rank_set : forall z p, rank (set_rank z p) = z.
Hypothesis value_set : forall z p, value (set_rank z p) = value p.

Let before (a b : Point.t) : bool := Qle_bool (value b) (value a).

Lemma before_total a b : before a b = false -> before b a = true.
Proof.
  unfold before. intros H. apply Qle_bool_iff.
  destruct (Qle_bool (value b) (value a)) eqn:E; [discriminate|].
  apply Qlt_le_weak, Qlt_bool_true. unfold Qlt_bool.
  rewrite E. reflexivity.
Qed.

Lemma before_trans a b c :
  before a b = true -> before b c = true -> before a c = true.
Proof.
  unfold before. rewrite !Qle_bool_iff. intros H1 H2. eapply Qle_trans; eauto.
Qed.

Lemma before_refl a : before a a = true.
Proof. unfold before. apply Qle_bool_iff, Qle_refl. Qed.

Lemma ranks_of_rank_prefix pts :
  map rank (rank_prefix set_rank (length pts) pts)
  = map Z.of_nat (seq 0 (length pts)).
Proof.
  apply list_eq. intros i. rewrite !lookup_map, rank_prefix_lookup.
  destruct (pts !! i) as [p|] eqn:Hp; simpl.
  - pose proof (lookup_lt_Some _ _ _ Hp) as Hlt.
    rewrite lookup_seq_lt by exact Hlt. simpl.
    replace (i <? length pts)%nat with true
      by (symmetry; apply Nat.ltb_lt, Hlt).
    rewrite rank_set. reflexivity.
  - apply lookup_ge_None in Hp. rewrite lookup_seq_ge by exact Hp. reflexivity.
Qed.

Lemma ranked_sort_assign pts :
  ranked rank value
         (rank_prefix set_rank (length pts)
                      (sort_by (fun a b => Qle_bool (value b) (value a)) pts)).
Proof.
  fold before.
  set (sorted := sort_by before pts).
  assert (Hlen : length sorted = length pts) by apply sort_by_length.
  split.
  - rewrite rank_prefix_length, <- Hlen, ranks_of_rank_prefix. reflexivity.
  - intros Hne.
    destruct sorted as [|h rest] eqn:Es; [exfalso; apply Hne; reflexivity|].
    assert (Hh : sort_by before pts !! 0%nat = Some h)
      by (fold sorted; rewrite Es; reflexivity).
    exists (set_rank 0 h). split; [|split].
    + apply list_elem_of_lookup. exists 0%nat. rewrite <- Hlen. reflexivity.
    + apply rank_set.
    + intros q Hq. apply list_elem_of_lookup in Hq as [j Hj].
      rewrite <- Es in Hj. rewrite rank_prefix_lookup in Hj.
      destruct (sorted !! j) as [s|] eqn:Hs; [|discriminate].
      simpl in Hj. rewrite value_set.
      assert (Hle : before h s = true).
      { eapply (sort_by_lookup_le before before_total before_trans pts (i := 0) (j := j));
          [lia | apply before_refl | exact Hh | exact Hs]. }
      apply Qle_bool_iff in Hle.
      destruct (j <? length pts)%nat; inversion Hj; subst q;
        [rewrite value_set|]; exact Hle.
Qed.

(** A ranking survives any reordering and any update of the members
    that keeps their rank and value. *)
Lemma ranked_transfer pts pts' :
  Permutation (map (fun p => (rank p, value p)) pts')
              (map (fun p => (rank p, value p)) pts) ->
  ranked rank value pts -> ranked rank value pts'.
Proof.
  intros Hperm [Hr Hmax].
  assert (Hlen : length pts' = length pts).
  { apply Permutation_length in Hperm. rewrite !length_map in Hperm. exact Hperm. }
  assert (Hin : forall (l l' : list Point.t),
             Permutation (map (fun p => (rank p, value p)) l')
                         (map (fun p => (rank p, value p)) l) ->
             forall p, p ∈ l -> exists p', p' ∈ l' /\ rank p' = rank p /\ value p' = value p).
  { intros l l' Hp p Hpin.
    assert (Hx : (rank p, value p) ∈ map (fun p => (rank p, value p)) l').
    { rewrite Hp. apply (list_elem_of_fmap_2 (fun p => (rank p, value p))), Hpin. }
    apply (list_elem_of_fmap_1 (fun p => (rank p, value p))) in Hx as (p' & Heq & Hp').
    inversion Heq. eauto. }
  split.
  - rewrite Hlen, <- Hr.
    apply (Permutation_map fst) in Hperm. rewrite !map_map in Hperm. exact Hperm.
  - intros Hne.
    destruct Hmax as (p & Hp & Hp0 & Hpmax).
    { intros ->. destruct pts'; [congruence|discriminate]. }
    destruct (Hin pts pts' Hperm p Hp) as (p' & Hp' & Hrk & Hv).
    exists p'. split; [exact Hp'|]. split; [congruence|].
    intros q' Hq'.
    destruct (Hin pts' pts (Permutation_sym Hperm) q' Hq') as (q & Hq & _ & Hvq).
    rewrite Hv, <- Hvq. apply Hpmax, Hq.
Qed.
End Ranking.

(** ** Ranking passes *)

Lemma py_div_Return x n v w w' :
  py_div x n w = (Return v, w') -> n <> 0%nat /\ w' = w.
Proof.
  destruct n; simpl; intros H; [discriminate|].
  apply ret_Return in H as [_ <-]. split; [lia|reflexivity].
Qed.

Lemma py_div_run x n w :
  n <> 0%nat -> py_div x n w = (Return (x / inject_Z (Z.of_nat n))%Q, w).
Proof. destruct n; [congruence|reflexivity]. Qed.

Lemma evaluate_fitness_ranks_Return self w self' w' :
  Population.evaluated_fitness_ranks self = false ->
  Population.evaluate_fitness_ranks self w = (Return self', w') ->
  (0 < Population.size self <= length (Population.points self))%nat /\
  w' = w /\
  exists mean,
    self' = Population.set_fitness_ranked
              (rank_prefix Point.set_fitness_rank (Population.size self)
                 (sort_by Population.by_fitness_desc (Population.points self)))
              mean self.
Proof.
  intros Hflag. unfold Population.evaluate_fitness_ranks. rewrite Hflag. intros H.
  apply bind_Return in H as (mean & w1 & Hmean & H).
  apply py_div_Return in Hmean as [Hn ->].
  apply bind_Return in H as (r & w2 & Hr & H).
  apply assign_ranks_Return in Hr as (Hle & -> & ->).
  apply ret_Return in H as [<- <-].
  rewrite sort_by_length in Hle.
  split; [lia|]. split; [reflexivity|]. eauto.
Qed.

Lemma evaluate_fitness_ranks_run self w :
  Population.evaluated_fitness_ranks self = false ->
  (0 < Population.size self <= length (Population.points self))%nat ->
  exists self', Population.evaluate_fitness_ranks self w = (Return self', w).
Proof.
  intros Hflag Hsize. unfold Population.evaluate_fitness_ranks. rewrite Hflag.
  eexists.
  eapply bind_run_eq; [apply py_div_run; lia|].
  eapply bind_run_eq; [apply assign_ranks_run; rewrite sort_by_length; lia|].
  reflexivity.
Qed.

Lemma evaluate_diversity_ranks_Return self w self' w' :
  Population.evaluated_diversity_ranks self = false ->
  Population.evaluate_diversity_ranks self w = (Return self', w') ->
  (Population.size self <= length (Population.points self))%nat /\
  exists measured mean_coordinates mean_diversity,
    Forall2 (fun p m => exists d, m = Point.set_diversity d p)
            (Population.points self) measured /\
    self' = Population.set_diversity_ranked
              (rank_prefix Point.set_diversity_rank (Population.size self)
                 (sort_by Population.by_diversity_desc measured))
              mean_coordinates mean_diversity self.
Proof.
  intros Hflag. unfold Population.evaluate_diversity_ranks. rewrite Hflag. intros H.
  apply bind_Return in H as (total & w1 & _ & H).
  apply bind_Return in H as (mc & w2 & _ & H).
  apply bind_Return in H as (measured & w3 & Hm & H).
  apply bind_Return in H as (md & w4 & _ & H).
  apply bind_Return in H as (r & w5 & Hr & H).
  apply assign_ranks_Return in Hr as (Hle & -> & ->).
  apply ret_Return in H as [<- <-].
  apply for_each_Return in Hm.
  assert (Hlen : length measured = length (Population.points self))
    by (symmetry; eapply Forall2_length, Hm).
  rewrite sort_by_length, Hlen in Hle.
  split; [exact Hle|]. exists measured, mc, md. split; [|reflexivity].
  eapply Forall2_impl; [exact Hm|]. simpl.
  intros p m (wa & wb & Hf).
  apply bind_Return in Hf as (d & wc & _ & Hf).
  apply ret_Return in Hf as [<- _]. eauto.
Qed.

Lemma measured_keeps_fitness pts measured :
  Forall2 (fun p m => exists d, m = Point.set_diversity d p) pts measured ->
  map (fun p => (Point.fitness_rank p, Point.fitness p)) measured
  = map (fun p => (Point.fitness_rank p, Point.fitness p)) pts.
Proof.
  induction 1 as [|p m pts measured [d ->] _ IH]; simpl; [reflexivity|].
  rewrite IH. reflexivity.
Qed.

Lemma rank_prefix_keeps (A : Type) (proj : Point.t -> A) set_rank n pts :
  (forall z p, proj (set_rank z p) = proj p) ->
  map proj (rank_prefix set_rank n pts) = map proj pts.
Proof.
  intros Hproj. apply list_eq. intros i.
  rewrite !lookup_map, rank_prefix_lookup.
  destruct (pts !! i) as [p|]; simpl; [|reflexivity].
  destruct (i <? n)%nat; [rewrite Hproj|]; reflexivity.
Qed.

(** C6.  For a population whose [size] is its number of members, after
    the fitness-ranking pass the [fitness_rank] values are a permutation
    of 0 .. N-1 and rank 0 is held by a member of maximum fitness; after
    the diversity-ranking pass the same holds of [diversity_rank] and
    diversity, and the fitness ranking is still in place.  A pass whose
    flag is already set changes nothing, so it returns the ranking the
    flag stands for. *)
Theorem ranking_passes_assign_permutations :
  (forall self w self' w',
      Population.size self = length (Population.points self) ->
      (Population.evaluated_fitness_ranks self = true ->
       ranked Point.fitness_rank Point.fitness (Population.points self)) ->
      Population.evaluate_fitness_ranks self w = (Return self', w') ->
      Population.size self' = length (Population.points self') /\
      ranked Point.fitness_rank Point.fitness (Population.points self')) /\
  (forall self w self' w',
      Population.size self = length (Population.points self) ->
      (Population.evaluated_diversity_ranks self = true ->
       ranked Point.diversity_rank Point.diversity (Population.points self)) ->
      Population.evaluate_diversity_ranks self w = (Return self', w') ->
      Population.size self' = length (Population.points self') /\
      ranked Point.diversity_rank Point.diversity (Population.points self') /\
      (ranked Point.fitness_rank Point.fitness (Population.points self) ->
       ranked Point.fitness_rank Point.fitness (Population.points self'))).
Proof.
  split.
  - intros self w self' w' Hsize Hinv H.
    destruct (Population.evaluated_fitness_ranks self) eqn:Hflag.
    + unfold Population.evaluate_fitness_ranks in H. rewrite Hflag in H.
      apply ret_Return in H as [<- _]. auto.
    + apply evaluate_fitness_ranks_Return in H as (_ & _ & mean & ->);
        [|exact Hflag].
      simpl. rewrite rank_prefix_length, sort_by_length. split; [exact Hsize|].
      rewrite Hsize. unfold Population.by_fitness_desc.
      apply (ranked_sort_assign Point.set_fitness_rank); reflexivity.
  - intros self w self' w' Hsize Hinv H.
    destruct (Population.evaluated_diversity_ranks self) eqn:Hflag.
    + unfold Population.evaluate_diversity_ranks in H. rewrite Hflag in H.
      apply ret_Return in H as [<- _]. auto.
    + apply evaluate_diversity_ranks_Return in H
        as (_ & measured & mc & md & Hm & ->); [|exact Hflag].
      assert (Hlen : length measured = length (Population.points self))
        by (symmetry; eapply Forall2_length, Hm).
      simpl. rewrite rank_prefix_length, sort_by_length.
      split; [congruence|]. split.
      * rewrite Hsize, <- Hlen. unfold Population.by_diversity_desc.
        apply (ranked_sort_assign Point.set_diversity_rank); reflexivity.
      * apply ranked_transfer.
        rewrite rank_prefix_keeps by reflexivity.
        rewrite <- (measured_keeps_fitness Hm).
        apply Permutation_map, sort_by_Permutation.
Qed.

Lemma ranking_passes_assign_permutations_witness :
  exists self1 w1 self2 w2,
    Population.evaluate_fitness_ranks unranked_population one_hot_world
      = (Return self1, w1) /\
    Population.evaluate_diversity_ranks self1 w1 = (Return self2, w2) /\
    ranked Point.fitness_rank Point.fitness (Population.points self1) /\
    ranked Point.diversity_rank Point.diversity (Population.points self2) /\
    ranked Point.fitness_rank Point.fitness (Population.points self2).
Proof.
  let r1 := eval vm_compute in
      (Population.evaluate_fitness_ranks unranked_population one_hot_world) in
  lazymatch r1 with
  | (Return ?s1, ?w1) =>
      let r2 := eval vm_compute in (Population.evaluate_diversity_ranks s1 w1) in
      lazymatch r2 with
      | (Return ?s2, ?w2) =>
          exists s1, w1, s2, w2;
          assert (H1 : Population.evaluate_fitness_ranks unranked_population one_hot_world
                       = (Return s1, w1)) by (vm_compute; reflexivity);
          assert (H2 : Population.evaluate_diversity_ranks s1 w1 = (Return s2, w2))
            by (vm_compute; reflexivity)
      end
  end.
  destruct (proj1 ranking_passes_assign_permutations _ _ _ _
              (eq_refl : Population.size unranked_population
                         = length (Population.points unranked_population))
              (fun E => False_ind _ (Bool.diff_false_true E)) H1) as [Hs1 Hr1].
  destruct (proj2 ranking_passes_assign_permutations _ _ _ _
              Hs1 (fun E => False_ind _ (Bool.diff_false_true E)) H2)
    as (_ & Hr2 & Hkeep).
  split; [exact H1|]. split; [exact H2|]. split; [exact Hr1|].
  split; [exact Hr2|]. exact (Hkeep Hr1).
Defined.

(** ** Fitness evaluation *)

Lemma record_calls_nil w : record_calls [] w = w.
Proof. destruct w. unfold record_calls. simpl. rewrite app_nil_r. reflexivity. Qed.

Lemma record_calls_app l1 l2 w :
  record_calls l2 (record_calls l1 w) = record_calls (l1 ++ l2) w.
Proof. unfold record_calls. simpl. rewrite app_assoc. reflexivity. Qed.

Lemma py_call_Return f args v w w' :
  py_call f args w = (Return v, w') ->
  objective_at f args = Some v /\ w' = record_calls [args] w.
Proof.
  unfold py_call, objective_at. destruct f as [g|]; [|discriminate].
  destruct (body g args) as [e|v0]; intros H; inversion H; subst. auto.
Qed.

Lemma py_call_run f args v w :
  objective_at f args = Some v ->
  py_call f args w = (Return v, record_calls [args] w).
Proof.
  unfold py_call, objective_at. destruct f as [g|]; [|discriminate].
  destruct (body g args) as [e|v0]; intros H; inversion H; subst. reflexivity.
Qed.

Lemma evaluate_fitness_Return self f p w w' :
  Point.evaluate_fitness self f w = (Return p, w') ->
  evaluated_from f self p /\ w' = record_calls [Point.coordinates self] w.
Proof.
  unfold Point.evaluate_fitness. intros H.
  apply bind_Return in H as (v & w1 & Hv & H).
  apply py_call_Return in Hv as [Hv ->].
  apply ret_Return in H as [<- <-]. split; [exists v; auto | reflexivity].
Qed.

Lemma for_each_world {A B} (f : A -> M B) l :
  (forall x w y w', f x w = (Return y, w') -> w' = w) ->
  forall ys w w', for_each f l w = (Return ys, w') -> w' = w.
Proof.
  intros Hf. induction l as [|x l IH]; intros ys w w' H; simpl in H.
  - apply ret_Return in H as [_ <-]. reflexivity.
  - apply bind_Return in H as (y & w1 & Hy & H).
    apply bind_Return in H as (ys' & w2 & Hys & H).
    apply ret_Return in H as [_ <-].
    apply Hf in Hy. apply IH in Hys. congruence.
Qed.

Lemma evaluate_sequentially_Return f pts evaluated w w' :
  for_each (fun point => Point.evaluate_fitness point f) pts w = (Return evaluated, w') ->
  Forall2 (evaluated_from f) pts evaluated /\
  w' = record_calls (map Point.coordinates pts) w.
Proof.
  revert evaluated w w'. induction pts as [|p pts IH]; intros evaluated w w' H; simpl in H.
  - apply ret_Return in H as [<- <-]. split; [constructor|].
    symmetry. apply record_calls_nil.
  - apply bind_Return in H as (e & w1 & He & H).
    apply bind_Return in H as (es & w2 & Hes & H).
    apply ret_Return in H as [<- <-].
    apply evaluate_fitness_Return in He as [He ->].
    apply IH in Hes as [Hes ->].
    split; [constructor; assumption|]. simpl. apply record_calls_app.
Qed.

Lemma pool_map_Return f pts fitnesses w w' :
  for_each (fun point => py_call f (Point.coordinates point)) pts w
    = (Return fitnesses, w') ->
  Forall2 (fun p v => objective_at f (Point.coordinates p) = Some v) pts fitnesses /\
  w' = record_calls (map Point.coordinates pts) w.
Proof.
  revert fitnesses w w'. induction pts as [|p pts IH]; intros fitnesses w w' H; simpl in H.
  - apply ret_Return in H as [<- <-]. split; [constructor|].
    symmetry. apply record_calls_nil.
  - apply bind_Return in H as (v & w1 & Hv & H).
    apply bind_Return in H as (vs & w2 & Hvs & H).
    apply ret_Return in H as [<- <-].
    apply py_call_Return in Hv as [Hv ->].
    apply IH in Hvs as [Hvs ->].
    split; [constructor; assumption|]. simpl. apply record_calls_app.
Qed.

Lemma enumerate_lookup {A} (l : list A) i x :
  l !! i = Some x -> enumerate l !! i = Some (i, x).
Proof.
  intros H. unfold enumerate.
  assert (Hgen : forall start,
             combine (seq start (length l)) l !! i = Some ((start + i)%nat, x)).
  { revert i H. induction l as [|y l IH]; intros i H start; [discriminate|].
    destruct i as [|i]; simpl in *.
    - inversion H; subst. rewrite Nat.add_0_r. reflexivity.
    - rewrite (IH i H (S start)). do 2 f_equal. lia. }
  apply (Hgen 0%nat).
Qed.

Lemma enumerate_length {A} (l : list A) : length (enumerate l) = length l.
Proof. unfold enumerate. rewrite length_combine, length_seq. lia. Qed.

Lemma evaluate_points_Return self pts evaluated w w' :
  Population.evaluate_points self pts w = (Return evaluated, w') ->
  Forall2 (evaluated_from (Population.objective_function self)) pts evaluated /\
  w' = record_calls (map Point.coordinates pts) w.
Proof.
  unfold Population.evaluate_points.
  destruct (Population.multiprocessing self); [|apply evaluate_sequentially_Return].
  intros H.
  apply bind_Return in H as (fitnesses & w1 & Hf & H).
  apply pool_map_Return in Hf as [Hf ->].
  pose proof H as Hw.
  apply for_each_world in Hw.
  2:{ intros ip wa y wb Hy. apply bind_Return in Hy as (v & wc & Hv & Hy).
      apply getitem_Return in Hv as [_ <-]. apply ret_Return in Hy as [_ <-].
      reflexivity. }
  subst w'. apply for_each_Return in H.
  assert (Hlen : length evaluated = length pts).
  { apply Forall2_length in H. rewrite enumerate_length in H. auto. }
  assert (Hall : forall i p, pts !! i = Some p ->
            exists v e, fitnesses !! i = Some v /\ evaluated !! i = Some e /\
                        e = Point.set_fitness v p).
  { intros i p Hp.
    destruct (Forall2_lookup_l _ _ _ _ _ H (enumerate_lookup _ _ Hp))
      as (e & He & wa & wb & Hrun).
    apply bind_Return in Hrun as (v & wc & Hv & Hrun).
    apply getitem_Return in Hv as [Hv _]. apply ret_Return in Hrun as [<- _].
    simpl in *. eauto. }
  assert (Hsize : (length pts <= Population.size self)%nat).
  { destruct (Nat.le_gt_cases (length pts) (Population.size self)) as [|Hgt]; [assumption|].
    exfalso.
    destruct (lookup_lt_is_Some_2 pts (Population.size self)) as [p Hp]; [lia|].
    destruct (Hall _ _ Hp) as (v & e & Hv & _).
    apply lookup_lt_Some in Hv. apply Forall2_length in Hf.
    rewrite length_take in Hf. lia. }
  rewrite take_ge in Hf by exact Hsize.
  rewrite take_ge by exact Hsize.
  split; [|reflexivity].
  apply Forall2_same_length_lookup_2; [congruence|].
  intros i p e Hp He.
  destruct (Hall _ _ Hp) as (v & e' & Hv & He' & ->).
  rewrite He in He'. inversion He'; subst e.
  exists v. split; [|reflexivity].
  destruct (Forall2_lookup_l _ _ _ _ _ Hf Hp) as (v' & Hv' & Hobj).
  congruence.
Qed.

(** ** Breeding *)

Lemma only_draws_refl w : only_draws w w.
Proof. exists 0%nat. symmetry. apply advance_0. Qed.

Lemma only_draws_trans w1 w2 w3 :
  only_draws w1 w2 -> only_draws w2 w3 -> only_draws w1 w3.
Proof.
  intros [n ->] [m ->]. exists (m + n)%nat. apply advance_advance.
Qed.

Lemma only_draws_advance n w : only_draws w (advance n w).
Proof. exists n. reflexivity. Qed.

Lemma weighted_scan_world {A} (choices : list A) threshold nws :
  forall total index w r w',
    weighted_scan choices threshold total index nws w = (Return r, w') -> w' = w.
Proof.
  induction nws as [|nw rest IH]; intros total index w r w' H; simpl in H.
  - apply ret_Return in H as [_ <-]. reflexivity.
  - destruct (Qlt_bool (total - nw) threshold).
    + apply bind_Return in H as (c & w1 & Hc & H).
      apply getitem_Return in Hc as [_ <-]. apply ret_Return in H as [_ <-].
      reflexivity.
    + eapply IH, H.
Qed.

Lemma weighted_choice_world {A} (choices : list A) weights w r w' :
  weighted_choice choices weights w = (Return r, w') -> w' = advance 1 w.
Proof.
  unfold weighted_choice. destruct (_ && _); [discriminate|].
  intros H. apply bind_Return in H as (t & w1 & Ht & H).
  apply uniform_Return in Ht as [_ ->]. eapply weighted_scan_world, H.
Qed.

Lemma select_parents_world fuel size weights w r w' :
  Population.select_parents fuel size weights w = (Return r, w') -> only_draws w w'.
Proof.
  revert w. induction fuel as [|fuel IH]; intros w H;
    rewrite select_parents_unfold in H;
    apply bind_Return in H as (p1 & w1 & H1 & H);
    apply bind_Return in H as (p2 & w2 & H2 & H);
    apply weighted_choice_world in H1; apply weighted_choice_world in H2; subst;
    destruct (option_nat_eqb p1 p2).
  - discriminate.
  - apply ret_Return in H as [_ <-]. rewrite advance_advance. apply only_draws_advance.
  - apply IH in H. eapply only_draws_trans; [|exact H].
    rewrite advance_advance. apply only_draws_advance.
  - apply ret_Return in H as [_ <-]. rewrite advance_advance. apply only_draws_advance.
Qed.

Lemma getitem_opt_Return {A} (l : list A) i x w w' :
  getitem_opt l i w = (Return x, w') ->
  exists j, i = Some j /\ l !! j = Some x /\ w' = w.
Proof.
  destruct i as [j|]; simpl; [|discriminate].
  intros H. apply getitem_Return in H as [H <-]. eauto.
Qed.

Lemma crossover_world point1 point2 w children w' :
  crossover point1 point2 w = (Return children, w') -> only_draws w w'.
Proof.
  intros H. apply crossover_Return in H as (_ & k & w1 & Hk & -> & _).
  unfold draw_splitpoint in Hk. apply randint_Return in Hk as (_ & -> & _).
  rewrite advance_advance. apply only_draws_advance.
Qed.

Lemma breed_loop_Return fuel budget self weights :
  forall newpopulation w r w',
    Population.breed_loop fuel budget self weights newpopulation w = (Return r, w') ->
    (length newpopulation <= Population.size self)%nat ->
    length r = Population.size self /\
    (exists children, r = newpopulation ++ children) /\
    only_draws w w'.
Proof.
  induction budget as [|budget IH]; intros newpopulation w r w' H Hlen; simpl in H.
  - destruct (Nat.ltb_spec (length newpopulation) (Population.size self)); [discriminate|].
    apply ret_Return in H as [<- <-].
    split; [lia|]. split; [exists []; symmetry; apply app_nil_r | apply only_draws_refl].
  - destruct (Nat.ltb_spec (length newpopulation) (Population.size self)) as [Hlt|Hge].
    + apply bind_Return in H as (parents & w1 & Hparents & H).
      apply bind_Return in H as (point1 & w2 & Hp1 & H).
      apply bind_Return in H as (point2 & w3 & Hp2 & H).
      apply bind_Return in H as (children & w4 & Hc & H).
      apply select_parents_world in Hparents.
      apply getitem_opt_Return in Hp1 as (? & _ & _ & ->).
      apply getitem_opt_Return in Hp2 as (? & _ & _ & ->).
      apply crossover_world in Hc.
      apply IH in H as (Hr & [more Hmore] & Hw).
      * split; [exact Hr|]. split; [|eauto using only_draws_trans].
        destruct (_ <? _)%nat in Hmore; rewrite <- !app_assoc in Hmore; eauto.
      * rewrite length_app. simpl.
        destruct (Nat.ltb_spec (length newpopulation + 1) (Population.size self));
          [rewrite !length_app; simpl; lia | rewrite length_app; simpl; lia].
    + apply ret_Return in H as [<- <-].
      split; [lia|]. split; [exists []; symmetry; apply app_nil_r | apply only_draws_refl].
Qed.

Lemma by_fitness_rank_total a b :
  Population.by_fitness_rank a b = false -> Population.by_fitness_rank b a = true.
Proof. unfold Population.by_fitness_rank. rewrite Z.leb_gt, Z.leb_le. lia. Qed.

Lemma by_fitness_rank_trans a b c :
  Population.by_fitness_rank a b = true -> Population.by_fitness_rank b c = true ->
  Population.by_fitness_rank a c = true.
Proof. unfold Population.by_fitness_rank. rewrite !Z.leb_le. lia. Qed.

Lemma seq_ranks_sorted start n :
  StronglySorted Z.le (map Z.of_nat (seq start n)).
Proof.
  revert start. induction n as [|n IH]; intros start; simpl; constructor.
  - apply IH.
  - apply Forall_map, Forall_forall. intros x Hx. apply elem_of_seq in Hx. simpl. lia.
Qed.

(** With ranks a permutation of 0 .. N-1, sorting by rank puts the
    member of rank [i] at position [i]. *)
Lemma sorted_by_rank_lookup pts i p :
  Permutation (map Point.fitness_rank pts) (map Z.of_nat (seq 0 (length pts))) ->
  sort_by Population.by_fitness_rank pts !! i = Some p ->
  Point.fitness_rank p = Z.of_nat i.
Proof.
  intros Hperm Hp.
  assert (Heq : map Point.fitness_rank (sort_by Population.by_fitness_rank pts)
                = map Z.of_nat (seq 0 (length pts))).
  { apply (StronglySorted_unique Z.le).
    - apply (StronglySorted_fmap Point.fitness_rank
               (fun a b => Population.by_fitness_rank a b = true) Z.le).
      + intros x y. unfold Population.by_fitness_rank. apply Z.leb_le.
      + apply sort_by_sorted; [apply by_fitness_rank_total | apply by_fitness_rank_trans].
    - apply seq_ranks_sorted.
    - rewrite <- Hperm. apply Permutation_map, sort_by_Permutation. }
  assert (Hi : map Point.fitness_rank (sort_by Population.by_fitness_rank pts) !! i
               = Some (Point.fitness_rank p)).
  { rewrite lookup_map, Hp. reflexivity. }
  rewrite Heq, lookup_map in Hi.
  destruct (seq 0 (length pts) !! i) as [k|] eqn:Hk; [|discriminate].
  apply lookup_seq in Hk as [-> _]. simpl in Hi. inversion Hi. reflexivity.
Qed.

Lemma evaluated_from_coordinates f pts evaluated :
  Forall2 (evaluated_from f) pts evaluated ->
  map Point.coordinates evaluated = map Point.coordinates pts.
Proof.
  induction 1 as [|p e pts evaluated (v & _ & ->) _ IH]; simpl; [reflexivity|].
  rewrite IH. reflexivity.
Qed.

Lemma set_fitness_same p : Point.set_fitness (Point.fitness p) p = p.
Proof. destruct p. reflexivity. Qed.

Lemma breed_inversion fuel self w self' w' :
  Population.breed fuel self w = (Return self', w') ->
  let sorted := sort_by Population.by_fitness_rank (Population.points self) in
  exists elite weights newpopulation w1,
    length elite = Population.elite_population_size self /\
    (forall i old, elite !! i = Some old -> sorted !! i = Some old) /\
    Population.breed_loop fuel (Population.size self)
                          (Population.set_points sorted self) weights elite w
      = (Return newpopulation, w1) /\
    Forall2 (evaluated_from (Population.objective_function self))
            newpopulation (Population.points self') /\
    w' = record_calls (map Point.coordinates newpopulation) w1 /\
    self' = Population.invalidate_ranks
              (Population.set_points (Population.points self')
                                     (Population.set_points sorted self)).
Proof.
  intros H sorted. unfold Population.breed in H. cbv zeta in H.
  fold sorted in H.
  apply bind_Return in H as (elite & w1 & He & H).
  apply bind_Return in H as (weights & w2 & Hw & H).
  apply bind_Return in H as (newpopulation & w3 & Hloop & H).
  apply bind_Return in H as (evaluated & w4 & Hev & H).
  apply ret_Return in H as [<- <-].
  pose proof He as Hw1. apply for_each_world in Hw1.
  2:{ intros x wa y wb Hy. apply getitem_Return in Hy as [_ <-]. reflexivity. }
  pose proof Hw as Hw2. apply for_each_world in Hw2.
  2:{ intros x wa y wb Hy. unfold Population.breeding_weight in Hy.
      destruct (_ =? _)%Z; [discriminate|]. apply ret_Return in Hy as [_ <-].
      reflexivity. }
  subst w1 w2.
  apply for_each_Return in He.
  apply evaluate_points_Return in Hev as [Hev ->].
  exists elite, weights, newpopulation, w3. simpl in *.
  split.
  { apply Forall2_length in He. rewrite length_seq in He. auto. }
  split; [|auto].
  intros i old Hold.
  destruct (Forall2_lookup_r _ _ _ _ _ He Hold) as (k & Hk & wa & wb & Hget).
  apply lookup_seq in Hk as [-> _]. apply getitem_Return in Hget as [Hget _].
  exact Hget.
Qed.

Lemma breed_Return fuel self w self' w' :
  (Population.elite_population_size self <= Population.size self)%nat ->
  Population.breed fuel self w = (Return self', w') ->
  let sorted := sort_by Population.by_fitness_rank (Population.points self) in
  exists newpopulation w1,
    length newpopulation = Population.size self /\
    (forall i, (i < Population.elite_population_size self)%nat ->
               exists old, sorted !! i = Some old /\ newpopulation !! i = Some old) /\
    Forall2 (evaluated_from (Population.objective_function self))
            newpopulation (Population.points self') /\
    only_draws w w1 /\
    w' = record_calls (map Point.coordinates newpopulation) w1 /\
    self' = Population.invalidate_ranks
              (Population.set_points (Population.points self')
                                     (Population.set_points sorted self)).
Proof.
  intros Helite H sorted.
  apply breed_inversion in H
    as (elite & weights & newpopulation & w1 & Hel & Hlook & Hloop & Hev & -> & Hself).
  fold sorted in Hlook, Hloop, Hself.
  apply breed_loop_Return in Hloop as (Hsize & [children ->] & Hdraws);
    [|simpl; lia].
  exists (elite ++ children), w1. simpl in Hsize.
  split; [exact Hsize|]. split; [|auto].
  intros i Hi.
  destruct (lookup_lt_is_Some_2 elite i) as [old Hold]; [lia|].
  exists old. split; [apply Hlook, Hold | apply lookup_app_l_Some, Hold].
Qed.

(** C3 (amended).  A call to [__breed] that returns yields exactly
    [size] members (for an elite count within the size).  The first
    [elite_population_size] of them are the members that the stable sort
    by [fitness_rank] puts first - with valid ranks, the member of rank
    [i] at position [i] - with their coordinates unchanged.  Every member
    of the new generation, the elite included, is evaluated again: the
    objective is called on each of them in order, and an elite member
    is unchanged exactly because its fitness was already the objective
    at its coordinates. *)
Theorem breed_keeps_size_and_elite fuel self w self' w' :
  (Population.elite_population_size self <= Population.size self)%nat ->
  Population.breed fuel self w = (Return self', w') ->
  let sorted := sort_by Population.by_fitness_rank (Population.points self) in
  let f := Population.objective_function self in
  length (Population.points self') = Population.size self /\
  Population.size self' = Population.size self /\
  (forall i, (i < Population.elite_population_size self)%nat ->
     exists old new,
       sorted !! i = Some old /\
       Population.points self' !! i = Some new /\
       Point.coordinates new = Point.coordinates old /\
       objective_at f (Point.coordinates old) = Some (Point.fitness new) /\
       (fitness_current f old -> new = old) /\
       (forall j other, (i <= j)%nat -> sorted !! j = Some other ->
          (Point.fitness_rank old <= Point.fitness_rank other)%Z) /\
       (Permutation (map Point.fitness_rank (Population.points self))
                    (map Z.of_nat (seq 0 (length (Population.points self)))) ->
        Point.fitness_rank old = Z.of_nat i)) /\
  calls w' = calls w ++ map Point.coordinates (Population.points self').
Proof.
  intros Helite H sorted f.
  apply breed_Return in H
    as (newpopulation & w1 & Hlen & Hel & Hev & [n ->] & -> & Hself); [|exact Helite].
  fold sorted in Hel.
  split; [rewrite <- Hlen; symmetry; eapply Forall2_length, Hev|].
  split; [rewrite Hself; reflexivity|].
  split.
  - intros i Hi. destruct (Hel i Hi) as (old & Hold & Hnew).
    destruct (Forall2_lookup_l _ _ _ _ _ Hev Hnew) as (new & Hnew' & v & Hv & ->).
    exists old, (Point.set_fitness v old).
    split; [exact Hold|]. split; [exact Hnew'|]. split; [reflexivity|].
    split; [exact Hv|]. split; [|split].
    + unfold fitness_current. fold f in Hv. rewrite Hv. intros E.
      inversion E. apply set_fitness_same.
    + intros j other Hij Hother.
      apply Z.leb_le.
      apply (sort_by_lookup_le Population.by_fitness_rank by_fitness_rank_total
               by_fitness_rank_trans (Population.points self) (i := i) (j := j));
        auto.
      unfold Population.by_fitness_rank. apply Z.leb_refl.
    + intros Hperm. eapply sorted_by_rank_lookup; eauto.
  - simpl. rewrite (evaluated_from_coordinates Hev). reflexivity.
Qed.

(** C3 (counterexample).  With one elite member out of two, [__breed]
    calls the objective on the coordinates (30, 40) of the elite member
    as well as on those of the new child: the elite is re-evaluated. *)
Lemma breed_reevaluates_elite :
  exists self' w',
    Population.breed 3 example_population breed_world = (Return self', w') /\
    Population.elite_population_size example_population = 1%nat /\
    map Point.coordinates (Population.points self') = [[30; 40]; [30; 20]]%Q /\
    calls breed_world = [] /\
    calls w' = [[30; 40]; [30; 20]]%Q /\
    calls w' <> calls breed_world ++
                map Point.coordinates (drop 1 (Population.points self')).
Proof.
  eexists. eexists. split; [vm_compute; reflexivity|].
  split; [reflexivity|]. split; [reflexivity|]. split; [reflexivity|].
  split; [reflexivity|]. simpl. discriminate.
Qed.

Lemma breed_keeps_size_and_elite_witness :
  exists self' w',
    Population.breed 3 example_population breed_world = (Return self', w') /\
    length (Population.points self') = 2%nat /\
    (exists old new,
        sort_by Population.by_fitness_rank (Population.points example_population) !! 0%nat
          = Some old /\
        Population.points self' !! 0%nat = Some new /\
        Point.coordinates new = Point.coordinates old /\
        objective_at (Some example_objective) (Point.coordinates old)
          = Some (Point.fitness new)) /\
    calls w' = calls breed_world ++ map Point.coordinates (Population.points self').
Proof.
  let r := eval vm_compute in (Population.breed 3 example_population breed_world) in
  lazymatch r with
  | (Return ?s, ?w) =>
      exists s, w;
      assert (H : Population.breed 3 example_population breed_world = (Return s, w))
        by (vm_compute; reflexivity);
      destruct (@breed_keeps_size_and_elite 3 example_population breed_world s w
                  (le_S 1 1 (le_n 1)) H) as (Hlen & _ & Helite & Hcalls)
  end.
  destruct (Helite 0%nat (le_n 1)) as (old & new & Hold & Hnew & Hc & Hf & _).
  split; [exact H|]. split; [exact Hlen|]. split; [|exact Hcalls].
  exists old, new. auto.
Defined.

Lemma select_parents_distinct fuel size weights :
  forall w parents w',
    Population.select_parents fuel size weights w = (Return parents, w') ->
    option_nat_eqb (fst parents) (snd parents) = false.
Proof.
  induction fuel as [|fuel IH]; intros w parents w' H;
    rewrite select_parents_unfold in H;
    apply bind_Return in H as (p1 & w1 & _ & H);
    apply bind_Return in H as (p2 & w2 & _ & H);
    destruct (option_nat_eqb p1 p2) eqn:E; try discriminate;
    try (apply ret_Return in H as [<- _]; exact E).
  eapply IH, H.
Qed.

(** A population with a single member and no elite slot cannot breed:
    the two parents drawn are always equal, so [__breed] either draws
    again for ever or fails on a [None] parent. *)
Lemma breed_single_member_never_returns fuel self w self' w' :
  length (Population.points self) = 1%nat ->
  Population.size self = 1%nat ->
  Population.elite_population_size self = 0%nat ->
  Population.breed fuel self w <> (Return self', w').
Proof.
  intros Hlen Hsize Helite H.
  apply breed_inversion in H
    as (elite & weights & newpopulation & w1 & Hel & _ & Hloop & _).
  rewrite Helite in Hel. destruct elite; [|discriminate].
  rewrite Hsize in Hloop. simpl in Hloop. rewrite Hsize in Hloop. simpl in Hloop.
  apply bind_Return in Hloop as (parents & w2 & Hparents & Hloop).
  apply bind_Return in Hloop as (point1 & w3 & Hp1 & Hloop).
  apply bind_Return in Hloop as (point2 & w4 & Hp2 & _).
  apply select_parents_distinct in Hparents.
  apply getitem_opt_Return in Hp1 as (j1 & E1 & Hp1 & _).
  apply getitem_opt_Return in Hp2 as (j2 & E2 & Hp2 & _).
  apply lookup_lt_Some in Hp1, Hp2. simpl in Hp1, Hp2.
  rewrite sort_by_length, Hlen in Hp1, Hp2.
  rewrite E1, E2 in Hparents. simpl in Hparents.
  apply Nat.eqb_neq in Hparents. lia.
Qed.

(** ** The population invariant *)

Lemma init_fields ap dims w p w' :
  Point.init ap dims w = (Return p, w') ->
  Point.boundaries p = match ap with
                       | None => repeat (0%Q, 100%Q) dims
                       | Some pop => pop_boundaries pop
                       end /\
  Point.mutation_range p = match ap with
                           | None => 5%Q
                           | Some pop => pop_mutation_range pop
                           end.
Proof.
  unfold Point.init. intros H.
  apply bind_Return in H as (cs & w1 & _ & H).
  apply ret_Return in H as [<- _]. split; reflexivity.
Qed.

Lemma init_shape ref dims w p w' :
  bounds_ordered (pop_boundaries ref) ->
  Point.init (Some ref) dims w = (Return p, w') ->
  shape_ok ref dims p.
Proof.
  intros Hord H.
  pose proof H as Hf. apply init_fields in Hf as [Hb Hm].
  apply init_Return in H as (Hap & Hlen & Hc).
  repeat split; auto.
  intros d x Hx. destruct (Hc d x Hx) as (b & u & Hbd & H0 & H1 & ->).
  exists b. split; [exact Hbd|].
  apply uniform_formula_range; auto. apply (Hord d). rewrite <- Hb. exact Hbd.
Qed.

Lemma in_bounds_splice bs (a b : list Q) k :
  length a = length b -> in_bounds bs a -> in_bounds bs b ->
  in_bounds bs (take k a ++ drop k b).
Proof.
  intros Hlen Ha Hb d x Hx.
  destruct (Nat.lt_ge_cases d (length (take k a))) as [Hlt|Hge].
  - rewrite lookup_app_l in Hx by exact Hlt.
    apply lookup_take_Some in Hx as [Hx _]. apply Ha, Hx.
  - rewrite lookup_app_r in Hx by exact Hge.
    rewrite lookup_drop in Hx.
    rewrite length_take in Hge, Hx.
    destruct (Nat.le_ge_cases k (length a)) as [Hk|Hk].
    + replace (k + (d - k `min` length a))%nat with d in Hx by lia. apply Hb, Hx.
    + apply lookup_lt_Some in Hx. lia.
Qed.

Lemma crossover_shape ref dims point1 point2 w children w' :
  bounds_ordered (pop_boundaries ref) ->
  shape_ok ref dims point1 -> shape_ok ref dims point2 ->
  crossover point1 point2 w = (Return children, w') ->
  shape_ok ref dims (fst children) /\ shape_ok ref dims (snd children).
Proof.
  intros Hord (Hap1 & Hb1 & Hm1 & Hl1 & Hin1) (Hap2 & Hb2 & Hm2 & Hl2 & Hin2) H.
  unfold within_bounds in Hin1, Hin2. rewrite Hb1 in Hin1. rewrite Hb2 in Hin2.
  unfold crossover in H.
  destruct (same_population _ _); simpl in H; [|discriminate].
  apply bind_Return in H as (child1 & w1 & H1 & H).
  apply bind_Return in H as (child2 & w2 & H2 & H).
  apply bind_Return in H as (k & w3 & Hk & H).
  apply ret_Return in H as [<- _].
  rewrite Hap1 in H1. rewrite Hap2 in H2.
  apply init_shape in H1 as (Ha1 & Hc1 & Hr1 & _ & _); [|exact Hord].
  apply init_shape in H2 as (Ha2 & Hc2 & Hr2 & _ & _); [|exact Hord].
  apply draw_splitpoint_Return in Hk.
  unfold shape_ok, within_bounds. simpl.
  rewrite Hc1, Hc2, !length_app, !length_take, !length_drop.
  repeat split; auto; try lia.
  - apply in_bounds_splice; auto. congruence.
  - apply in_bounds_splice; auto. congruence.
Qed.

Lemma mutate_shape ref dims self w p' w' :
  bounds_ordered (pop_boundaries ref) ->
  shape_ok ref dims self ->
  Point.mutate self w = (Return p', w') ->
  shape_ok ref dims p'.
Proof.
  intros Hord (Hap & Hb & Hm & Hl & Hin) H.
  apply mutate_Return in H as (index & x & b & _ & Hx & Hbd & -> & _).
  unfold shape_ok, within_bounds. simpl.
  rewrite length_insert. repeat split; auto.
  assert (Hle : (fst b <= snd b)%Q) by (apply (Hord index); rewrite <- Hb; exact Hbd).
  rewrite py_max_min_upper by exact Hle.
  intros d y Hy.
  destruct (Nat.eq_dec index d) as [->|Hne].
  - rewrite list_lookup_insert_eq in Hy by (eapply lookup_lt_Some, Hx).
    inversion Hy; subst y. exists b. split; [exact Hbd|].
    split; [exact Hle | apply Qle_refl].
  - rewrite list_lookup_insert_ne in Hy by exact Hne. apply Hin, Hy.
Qed.

Lemma shape_ok_set_fitness ref dims v p :
  shape_ok ref dims p -> shape_ok ref dims (Point.set_fitness v p).
Proof. intros H. exact H. Qed.

Lemma evaluated_member ref dims f p e :
  shape_ok ref dims p -> evaluated_from f p e -> member_ok ref dims f e.
Proof.
  intros Hs (v & Hv & ->). split; [exact Hs|]. exact Hv.
Qed.

Lemma evaluated_members ref dims f pts evaluated :
  Forall (shape_ok ref dims) pts ->
  Forall2 (evaluated_from f) pts evaluated ->
  Forall (member_ok ref dims f) evaluated.
Proof.
  intros Hs Hev. revert Hs.
  induction Hev as [|p e pts evaluated He _ IH]; intros Hs; constructor;
    inversion Hs; subst.
  - eapply evaluated_member; eauto.
  - apply IH. assumption.
Qed.

Lemma breed_loop_shape ref dims fuel budget self weights :
  bounds_ordered (pop_boundaries ref) ->
  Forall (shape_ok ref dims) (Population.points self) ->
  forall newpopulation w r w',
    Forall (shape_ok ref dims) newpopulation ->
    Population.breed_loop fuel budget self weights newpopulation w = (Return r, w') ->
    Forall (shape_ok ref dims) r.
Proof.
  intros Hord Hpts.
  induction budget as [|budget IH]; intros newpopulation w r w' Hnew H; simpl in H;
    destruct (length newpopulation <? Population.size self)%nat;
    try discriminate;
    try (apply ret_Return in H as [<- _]; exact Hnew).
  apply bind_Return in H as (parents & w1 & _ & H).
  apply bind_Return in H as (point1 & w2 & Hp1 & H).
  apply bind_Return in H as (point2 & w3 & Hp2 & H).
  apply bind_Return in H as (children & w4 & Hc & H).
  apply getitem_opt_Return in Hp1 as (j1 & _ & Hp1 & _).
  apply getitem_opt_Return in Hp2 as (j2 & _ & Hp2 & _).
  apply crossover_shape with (ref := ref) (dims := dims) in Hc as [Hc1 Hc2];
    [| exact Hord
     | exact (Forall_lookup_1 _ _ _ _ Hpts Hp1)
     | exact (Forall_lookup_1 _ _ _ _ Hpts Hp2)].
  eapply IH; [|exact H].
  destruct (_ <? _)%nat; repeat (apply Forall_app; split); auto.
Qed.

Lemma member_shape ref dims f pts :
  Forall (member_ok ref dims f) pts -> Forall (shape_ok ref dims) pts.
Proof.
  intros H. eapply Forall_impl; [exact H|]. intros p [Hs _]. exact Hs.
Qed.

Lemma breed_preserves fuel self w self' w' :
  population_ok self ->
  Population.breed fuel self w = (Return self', w') ->
  population_ok self' /\ configuration self' = configuration self /\
  Population.num_iterations self' = Population.num_iterations self.
Proof.
  intros (Hsize & Helite & Hord & Hdims & Hpts & _ & _) H.
  apply breed_inversion in H
    as (elite & weights & newpopulation & w1 & Hel & Hlook & Hloop & Hev & _ & ->).
  set (sorted := sort_by Population.by_fitness_rank (Population.points self)) in *.
  assert (Hsorted : Forall (shape_ok (Population.self_ref self)
                                     (Population.num_dimensions self)) sorted).
  { apply member_shape in Hpts.
    eapply Permutation_Forall; [symmetry; apply sort_by_Permutation|exact Hpts]. }
  assert (Helite_ok : Forall (shape_ok (Population.self_ref self)
                                       (Population.num_dimensions self)) elite).
  { apply Forall_lookup. intros i old Hold.
    exact (Forall_lookup_1 _ _ _ _ Hsorted (Hlook _ _ Hold)). }
  pose proof Hloop as Hshape.
  apply breed_loop_shape
    with (ref := Population.self_ref self) (dims := Population.num_dimensions self)
    in Hshape; [|exact Hord|exact Hsorted|exact Helite_ok].
  apply breed_loop_Return in Hloop as (Hlen & _ & _); [|simpl; lia].
  simpl in Hlen.
  split; [|split; reflexivity].
  unfold population_ok. simpl.
  repeat split; auto; try discriminate.
  - rewrite <- Hlen. eapply Forall2_length, Hev.
  - eapply evaluated_members; eauto.
Qed.

Lemma mutate_point_Return self p w r w' :
  Population.mutate_point self p w = (Return r, w') ->
  (snd r = false /\ fst r = p) \/
  (snd r = true /\
   exists m wa wb, Point.mutate p wa = (Return m, wb) /\
                   evaluated_from (Population.objective_function self) m (fst r)).
Proof.
  unfold Population.mutate_point. intros H.
  apply bind_Return in H as (u & w1 & _ & H).
  destruct (Qlt_bool u (Population.mutation_probability self)).
  - apply bind_Return in H as (m & w2 & Hm & H).
    apply bind_Return in H as (e & w3 & He & H).
    apply ret_Return in H as [<- _].
    apply evaluate_fitness_Return in He as [He _].
    right. simpl. eauto 10.
  - apply ret_Return in H as [<- _]. left. auto.
Qed.

Lemma mutate_Return_population self w self' w' :
  Population.mutate self w = (Return self', w') ->
  exists results,
    Forall2 (fun p r =>
               (snd r = false /\ fst r = p) \/
               (snd r = true /\
                exists m wa wb, Point.mutate p wa = (Return m, wb) /\
                  evaluated_from (Population.objective_function self) m (fst r)))
            (Population.points self) results /\
    self' = (if existsb snd results
             then Population.invalidate_ranks
                    (Population.set_points (map fst results) self)
             else Population.set_points (map fst results) self).
Proof.
  unfold Population.mutate. intros H.
  apply bind_Return in H as (results & w1 & Hr & H).
  apply ret_Return in H as [<- _].
  exists results. split; [|reflexivity].
  apply for_each_Return in Hr.
  eapply Forall2_impl; [exact Hr|]. simpl.
  intros p r (wa & wb & Hm). eapply mutate_point_Return, Hm.
Qed.

Lemma unmutated_points pts (results : list (Point.t * bool)) :
  Forall2 (fun p r =>
             (snd r = false /\ fst r = p) \/
             (snd r = true /\ exists m : Point.t, True)) pts results ->
  existsb snd results = false -> map fst results = pts.
Proof.
  induction 1 as [|p r pts results Hr _ IH]; simpl; [reflexivity|].
  intros E. apply orb_false_iff in E as [E1 E2].
  destruct Hr as [[_ ->]|[Ht _]]; [|congruence].
  rewrite IH by exact E2. reflexivity.
Qed.

Lemma population_set_points_same self :
  Population.set_points (Population.points self) self = self.
Proof. destruct self. reflexivity. Qed.

Lemma mutate_preserves self w self' w' :
  population_ok self ->
  Population.mutate self w = (Return self', w') ->
  population_ok self' /\ configuration self' = configuration self /\
  Population.num_iterations self' = Population.num_iterations self.
Proof.
  intros (Hsize & Helite & Hord & Hdims & Hpts & Hfr & Hdr) H.
  apply mutate_Return_population in H as (results & Hres & ->).
  assert (Hlen : length (map fst results) = length (Population.points self)).
  { rewrite length_map. symmetry. eapply Forall2_length, Hres. }
  assert (Hok : Forall (member_ok (Population.self_ref self)
                                  (Population.num_dimensions self)
                                  (Population.objective_function self))
                       (map fst results)).
  { clear Hlen Hsize Hfr Hdr. revert Hpts.
    induction Hres as [|p r pts results Hr _ IH]; intros Hpts; simpl; constructor;
      inversion Hpts as [|? ? Hp Hrest]; subst.
    - destruct Hr as [[_ ->]|(_ & m & wa & wb & Hm & He)]; [exact Hp|].
      eapply evaluated_member; [|exact He].
      eapply mutate_shape; [exact Hord| |exact Hm]. exact (proj1 Hp).
    - apply IH, Hrest. }
  destruct (existsb snd results) eqn:E.
  - split; [|split; reflexivity]. unfold population_ok. simpl.
    repeat split; auto; try discriminate. congruence.
  - assert (Hsame : map fst results = Population.points self).
    { apply unmutated_points; [|exact E].
      eapply Forall2_impl; [exact Hres|]. simpl.
      intros p r [Hl|(Ht & m & _)]; [left; exact Hl | right; eauto]. }
    rewrite Hsame, population_set_points_same.
    split; [|split; reflexivity]. unfold population_ok. auto 10.
Qed.

Lemma Forall_rank_prefix (P : Point.t -> Prop) set_rank n pts :
  (forall z p, P p -> P (set_rank z p)) ->
  Forall P pts -> Forall P (rank_prefix set_rank n pts).
Proof.
  intros Hset Hpts. apply Forall_lookup. intros i p Hp.
  rewrite rank_prefix_lookup in Hp.
  destruct (pts !! i) as [q|] eqn:Hq; [|discriminate].
  pose proof (Forall_lookup_1 _ _ _ _ Hpts Hq) as HP.
  simpl in Hp. destruct (i <? n)%nat; inversion Hp; subst; auto.
Qed.

Lemma Forall_sort_by {A} (P : A -> Prop) before l :
  Forall P l -> Forall P (sort_by before l).
Proof.
  intros H. eapply Permutation_Forall; [symmetry; apply sort_by_Permutation|exact H].
Qed.

Lemma Forall_measured (P : Point.t -> Prop) pts measured :
  (forall d p, P p -> P (Point.set_diversity d p)) ->
  Forall2 (fun p m => exists d, m = Point.set_diversity d p) pts measured ->
  Forall P pts -> Forall P measured.
Proof.
  intros Hset H. induction H as [|p m pts measured [d ->] _ IH]; intros Hpts;
    constructor; inversion Hpts; subst; auto.
Qed.

Lemma measured_keeps_diversity_rank pts measured :
  Forall2 (fun p m => exists d, m = Point.set_diversity d p) pts measured ->
  map Point.diversity_rank measured = map Point.diversity_rank pts.
Proof.
  induction 1 as [|p m pts measured [d ->] _ IH]; simpl; [reflexivity|].
  rewrite IH. reflexivity.
Qed.

Lemma evaluate_fitness_ranks_preserves self w self' w' :
  population_ok self ->
  Population.evaluate_fitness_ranks self w = (Return self', w') ->
  population_ok self' /\ configuration self' = configuration self /\
  Population.evaluated_fitness_ranks self' = true /\
  Population.evaluated_diversity_ranks self' = Population.evaluated_diversity_ranks self /\
  Population.num_iterations self' = Population.num_iterations self.
Proof.
  intros Hok H.
  destruct (Population.evaluated_fitness_ranks self) eqn:Hflag.
  { unfold Population.evaluate_fitness_ranks in H. rewrite Hflag in H.
    apply ret_Return in H as [<- _]. auto 10. }
  destruct Hok as (Hsize & Helite & Hord & Hdims & Hpts & _ & Hdr).
  apply evaluate_fitness_ranks_Return in H as (_ & _ & mean & ->); [|exact Hflag].
  split; [|split_and!; reflexivity].
  unfold population_ok. simpl.
  rewrite rank_prefix_length, sort_by_length.
  split_and!; auto.
  - apply Forall_rank_prefix; [intros z p Hp; exact Hp|].
    apply Forall_sort_by, Hpts.
  - intros _. rewrite Hsize. unfold Population.by_fitness_desc.
    apply (ranked_sort_assign Point.set_fitness_rank); reflexivity.
  - intros Hd. eapply ranked_transfer; [|exact (Hdr Hd)].
    rewrite rank_prefix_keeps by reflexivity.
    apply Permutation_map, sort_by_Permutation.
Qed.

Lemma evaluate_diversity_ranks_preserves self w self' w' :
  population_ok self ->
  Population.evaluate_diversity_ranks self w = (Return self', w') ->
  population_ok self' /\ configuration self' = configuration self /\
  Population.evaluated_diversity_ranks self' = true /\
  Population.evaluated_fitness_ranks self' = Population.evaluated_fitness_ranks self /\
  Population.num_iterations self' = Population.num_iterations self.
Proof.
  intros Hok H.
  destruct (Population.evaluated_diversity_ranks self) eqn:Hflag.
  { unfold Population.evaluate_diversity_ranks in H. rewrite Hflag in H.
    apply ret_Return in H as [<- _]. auto 10. }
  destruct Hok as (Hsize & Helite & Hord & Hdims & Hpts & Hfr & _).
  apply evaluate_diversity_ranks_Return in H
    as (_ & measured & mc & md & Hm & ->); [|exact Hflag].
  assert (Hlen : length measured = length (Population.points self))
    by (symmetry; eapply Forall2_length, Hm).
  split; [|split_and!; reflexivity].
  unfold population_ok. simpl.
  rewrite rank_prefix_length, sort_by_length.
  split_and!; auto; try congruence.
  - apply Forall_rank_prefix; [intros z p Hp; exact Hp|].
    apply Forall_sort_by. eapply Forall_measured; [|exact Hm|exact Hpts].
    intros d p Hp. exact Hp.
  - intros Hf. eapply ranked_transfer; [|exact (Hfr Hf)].
    rewrite rank_prefix_keeps by reflexivity.
    rewrite <- (measured_keeps_fitness Hm).
    apply Permutation_map, sort_by_Permutation.
  - intros _. rewrite Hsize, <- Hlen. unfold Population.by_diversity_desc.
    apply (ranked_sort_assign Point.set_diversity_rank); reflexivity.
Qed.

Lemma population_ok_set_num_iterations n self :
  population_ok self -> population_ok (Population.set_num_iterations n self).
Proof. intros H. exact H. Qed.

(** One generation keeps the invariant and leaves both rankings valid. *)
Lemma iterate_preserves fuel self w self' w' :
  population_ok self ->
  Population.iterate fuel self w = (Return self', w') ->
  population_ok self' /\ configuration self' = configuration self /\
  Population.evaluated_fitness_ranks self' = true /\
  Population.evaluated_diversity_ranks self' = true /\
  Population.num_iterations self' = S (Population.num_iterations self).
Proof.
  intros Hok H. unfold Population.iterate in H.
  apply bind_Return in H as (s1 & w1 & H1 & H).
  apply bind_Return in H as (s2 & w2 & H2 & H).
  apply bind_Return in H as (s3 & w3 & H3 & H).
  apply bind_Return in H as (s4 & w4 & H4 & H).
  apply ret_Return in H as [<- _].
  apply breed_preserves in H1 as (Hok1 & Hc1 & Hn1); [|exact Hok].
  apply mutate_preserves in H2 as (Hok2 & Hc2 & Hn2); [|exact Hok1].
  apply evaluate_fitness_ranks_preserves in H3 as (Hok3 & Hc3 & Hf3 & Hd3 & Hn3);
    [|exact Hok2].
  apply evaluate_diversity_ranks_preserves in H4 as (Hok4 & Hc4 & Hd4 & Hf4 & Hn4);
    [|exact Hok3].
  split; [exact Hok4|]. split; [unfold configuration in *; simpl; congruence|].
  split; [simpl; congruence|]. split; [exact Hd4|].
  simpl. lia.
Qed.

Lemma converge_preserves fuel iterations :
  forall self w self' w',
    population_ok self ->
    Population.converge fuel iterations self w = (Return self', w') ->
    population_ok self' /\ configuration self' = configuration self /\
    Population.num_iterations self' = (iterations + Population.num_iterations self)%nat.
Proof.
  induction iterations as [|n IH]; intros self w self' w' Hok H; simpl in H.
  - apply ret_Return in H as [<- _]. auto.
  - apply bind_Return in H as (s1 & w1 & H1 & H).
    apply iterate_preserves in H1 as (Hok1 & Hc1 & _ & _ & Hn1); [|exact Hok].
    apply IH in H as (Hok' & Hc' & Hn'); [|exact Hok1].
    split; [exact Hok'|]. split; [congruence|]. lia.
Qed.

Lemma py_int_bounds (x : Q) (n : Z) :
  (0 <= x)%Q -> (x <= inject_Z n)%Q -> (0 <= py_int x <= n)%Z.
Proof.
  unfold py_int, Qle. destruct x as [num den]. simpl. intros H0 Hn.
  rewrite Z.quot_div_nonneg by lia.
  split.
  - apply Z.div_pos; lia.
  - apply Z.div_le_upper_bound; lia.
Qed.

Lemma elite_size_bound (elite_fraction : Q) (population_size : nat) :
  Qlt_bool 1 elite_fraction || Qlt_bool elite_fraction 0 = false ->
  (Z.to_nat (py_int (elite_fraction * inject_Z (Z.of_nat population_size)))
   <= population_size)%nat.
Proof.
  intros H. apply orb_false_iff in H as [H1 H0].
  apply Qlt_bool_false in H1, H0.
  assert (Hn : (0 <= inject_Z (Z.of_nat population_size))%Q).
  { replace 0%Q with (inject_Z 0) by reflexivity. rewrite <- Zle_Qle. lia. }
  destruct (@py_int_bounds (elite_fraction * inject_Z (Z.of_nat population_size))%Q
                           (Z.of_nat population_size)) as [Ha Hb].
  - apply Qmult_le_0_compat; assumption.
  - generalize dependent (inject_Z (Z.of_nat population_size)). intros q Hq. nra.
  - lia.
Qed.

Lemma checked_bounds_ordered (bs : list (Q * Q)) w r w' :
  for_each (fun b : Q * Q =>
              if Qlt_bool (snd b) (fst b)
              then raise (ValueError "Incorrect value for boundary - min greater than max for range.")
              else ret tt) bs w = (Return r, w') ->
  bounds_ordered bs /\ w' = w.
Proof.
  intros H. split.
  - apply for_each_Return in H. intros d b Hb.
    destruct (Forall2_lookup_l _ _ _ _ _ H Hb) as (u & _ & wa & wb & Hrun).
    destruct (Qlt_bool (snd b) (fst b)) eqn:E; [discriminate|].
    apply Qlt_bool_false in E. exact E.
  - eapply for_each_world; [|exact H]. simpl.
    intros b wa y wb Hy. destruct (Qlt_bool (snd b) (fst b)); [discriminate|].
    apply ret_Return in Hy as [_ <-]. reflexivity.
Qed.

Lemma created_points_shape ref dims n w pts w' :
  bounds_ordered (pop_boundaries ref) ->
  for_each (fun pointnumber =>
              point <- Point.init (Some ref) dims ;;
              ret (Point.set_index (Z.of_nat pointnumber) point))
           (seq 0 n) w = (Return pts, w') ->
  length pts = n /\ Forall (shape_ok ref dims) pts.
Proof.
  intros Hord H. apply for_each_Return in H. split.
  - apply Forall2_length in H. rewrite length_seq in H. auto.
  - apply Forall_lookup. intros i p Hp.
    destruct (Forall2_lookup_r _ _ _ _ _ H Hp) as (k & _ & wa & wb & Hrun).
    apply bind_Return in Hrun as (q & wc & Hq & Hrun).
    apply ret_Return in Hrun as [<- _].
    apply init_shape in Hq; [|exact Hord]. exact Hq.
Qed.

(** [Population.__init__] establishes the invariant, with both rankings
    valid. *)
Lemma init_establishes objective_function dimensions population_size boundaries
    elite_fraction mutation_probability mutation_range verbose multiprocessing
    w self w' :
  Population.init objective_function dimensions population_size boundaries
                  elite_fraction mutation_probability mutation_range verbose
                  multiprocessing w = (Return self, w') ->
  population_ok self /\
  Population.evaluated_fitness_ranks self = true /\
  Population.evaluated_diversity_ranks self = true /\
  Population.size self = population_size /\
  Population.objective_function self = objective_function /\
  Population.num_iterations self = 1%nat.
Proof.
  unfold Population.init. intros H.
  destruct (Qlt_bool 1 elite_fraction || Qlt_bool elite_fraction 0) eqn:E1;
    [discriminate|].
  destruct (Qlt_bool 1 mutation_probability || Qlt_bool mutation_probability 0);
    [discriminate|].
  destruct (negb (existsb (Z.eqb verbose) [0; 1; 2]%Z)); [discriminate|].
  apply bind_Return in H as (num_dimensions & w1 & Hdims & H).
  apply bind_Return in H as (bs & w2 & Hbs & H).
  apply bind_Return in H as (ident & w3 & _ & H).
  apply bind_Return in H as (created & w4 & Hcreated & H).
  apply bind_Return in H as (evaluated & w5 & Hev & H).
  apply bind_Return in H as (self1 & w6 & Hf & H).
  assert (Hbounds : bounds_ordered bs /\ (num_dimensions <= length bs)%nat).
  { destruct boundaries as [given|].
    - apply bind_Return in Hbs as (u & wa & Hcheck & Hbs).
      apply ret_Return in Hbs as [<- _].
      apply checked_bounds_ordered in Hcheck as [Hcheck _].
      split; [exact Hcheck|]. rewrite length_app, repeat_length. lia.
    - apply ret_Return in Hbs as [<- _]. split.
      + apply default_bounds_ordered.
      + rewrite repeat_length. lia. }
  destruct Hbounds as [Hord Hlen].
  apply created_points_shape in Hcreated as [Hn Hshape]; [|exact Hord].
  apply evaluate_points_Return in Hev as [Hev _].
  pose proof (elite_size_bound elite_fraction population_size E1) as Helite.
  apply evaluate_fitness_ranks_preserves in Hf as (Hok1 & Hc1 & Hf1 & Hd1 & Hn1).
  2:{ unfold population_ok. simpl. split_and!; auto; try discriminate.
      - rewrite <- Hn. eapply Forall2_length, Hev.
      - eapply evaluated_members; [exact Hshape|exact Hev]. }
  apply evaluate_diversity_ranks_preserves in H as (Hok & Hc & Hd & Hfr & Hn2);
    [|exact Hok1].
  split; [exact Hok|]. split; [congruence|]. split; [exact Hd|].
  unfold configuration in Hc, Hc1. simpl in Hc1, Hn1.
  split_and!; congruence.
Qed.

Lemma best_step_fold pts :
  forall best p,
    snd (fold_left Population.best_step pts best) = Some p ->
    snd best = Some p \/ p ∈ pts.
Proof.
  induction pts as [|q pts IH]; intros best p H; simpl in H.
  - left. exact H.
  - apply IH in H as [H|H]; [|right; right; exact H].
    unfold Population.best_step in H.
    destruct (fst best) as [b|].
    + destruct (Qlt_bool b (Point.fitness q)); simpl in H.
      * inversion H; subst. right. left.
      * left. exact H.
    + simpl in H. inversion H; subst. right. left.
Qed.

Lemma best_estimate_member self p :
  Population.best_estimate self = Some p -> p ∈ Population.points self.
Proof.
  unfold Population.best_estimate. intros H.
  apply best_step_fold in H as [H|H]; [discriminate|exact H].
Qed.

Lemma maximize_Return fuel objective_function kw w r w' :
  maximize fuel objective_function kw w = (Return r, w') ->
  exists population,
    population_ok population /\
    Population.objective_function population = objective_function /\
    Population.size population = population_size kw /\
    Population.num_iterations population = S (iterations kw) /\
    r = Population.best_estimate population.
Proof.
  unfold maximize. intros H.
  apply bind_Return in H as (p0 & w1 & Hinit & H).
  apply bind_Return in H as (p1 & w2 & Hconv & H).
  apply ret_Return in H as [<- _].
  apply init_establishes in Hinit as (Hok0 & _ & _ & Hsize & Hobj & Hn).
  apply converge_preserves in Hconv as (Hok1 & Hc & Hn1); [|exact Hok0].
  exists p1. unfold configuration in Hc.
  split; [exact Hok1|]. split; [congruence|]. split; [congruence|].
  split; [lia|reflexivity].
Qed.

(** The point returned by [maximize] is a member of the final
    population: it lies within the bounds and its fitness is the
    objective at its coordinates. *)
Lemma maximize_best_member fuel objective_function kw w best w' :
  maximize fuel objective_function kw w = (Return (Some best), w') ->
  within_bounds best /\ fitness_current objective_function best.
Proof.
  intros H. apply maximize_Return in H as (population & Hok & Hobj & _ & _ & Hbest).
  symmetry in Hbest. apply best_estimate_member in Hbest.
  destruct Hok as (_ & _ & _ & _ & Hpts & _).
  rewrite Forall_forall in Hpts. destruct (Hpts _ Hbest) as [(_ & _ & _ & _ & Hin) Hfit].
  rewrite Hobj in Hfit. auto.
Qed.

(** ** Fuel

    Only the resampling loop of [__breed] is unbounded in the source; all
    other code terminates, and the model never stops for lack of fuel
    anywhere else. *)

Create HintDb termination.

Lemma terminates_ret {A} (a : A) : terminates (ret a).
Proof. intros w. discriminate. Qed.

Lemma terminates_raise {A} (e : exn) : terminates (@raise A e).
Proof. intros w. discriminate. Qed.

Lemma terminates_bind {A B} (m : M A) (k : A -> M B) :
  terminates m -> (forall a, terminates (k a)) -> terminates (bind m k).
Proof.
  intros Hm Hk w. unfold bind. specialize (Hm w).
  destruct (m w) as [[a|e|] w1]; simpl in *; try discriminate; [apply Hk|congruence].
Qed.

Lemma terminates_getitem {A} (l : list A) i : terminates (getitem l i).
Proof. unfold getitem. destruct (l !! i); intros w; discriminate. Qed.

Lemma terminates_getitem_opt {A} (l : list A) i : terminates (getitem_opt l i).
Proof. destruct i; [apply terminates_getitem|intros w; discriminate]. Qed.

Lemma terminates_for_each {A B} (f : A -> M B) l :
  (forall x, terminates (f x)) -> terminates (for_each f l).
Proof.
  intros Hf. induction l as [|x l IH]; simpl.
  - apply terminates_ret.
  - apply terminates_bind; [apply Hf|]. intros y.
    apply terminates_bind; [exact IH|]. intros ys. apply terminates_ret.
Qed.

Lemma terminates_fold_m {A S} (f : S -> A -> M S) l :
  (forall s x, terminates (f s x)) -> forall s, terminates (fold_m f l s).
Proof.
  intros Hf. induction l as [|x l IH]; intros s; simpl.
  - apply terminates_ret.
  - apply terminates_bind; [apply Hf|exact IH].
Qed.

Lemma terminates_next_raw : terminates next_raw.
Proof. intros w. discriminate. Qed.

#[local] Hint Resolve terminates_ret terminates_raise terminates_getitem
  terminates_getitem_opt terminates_next_raw : termination.

Ltac term_step :=
  first [ apply terminates_bind; [|intros ?]
        | apply terminates_for_each; intros ?
        | apply terminates_fold_m; intros ? ?
        | match goal with
          | |- terminates (if ?c then _ else _) => destruct c
          | |- terminates (match ?x with _ => _ end) => destruct x
          end
        | solve [auto with termination] ].

Ltac term := repeat term_step.

Lemma terminates_uniform a b : terminates (uniform a b).
Proof. unfold uniform, random. term. Qed.

Lemma terminates_randint a b : terminates (randint a b).
Proof. unfold randint. term. Qed.

#[local] Hint Resolve terminates_uniform terminates_randint : termination.

Lemma terminates_weighted_scan {A} (choices : list A) threshold nws :
  forall total index, terminates (weighted_scan choices threshold total index nws).
Proof.
  induction nws as [|nw rest IH]; intros total index; simpl; [term|].
  destruct (Qlt_bool _ _); [term|apply IH].
Qed.

Lemma terminates_weighted_choice {A} (choices : list A) weights :
  terminates (weighted_choice choices weights).
Proof.
  unfold weighted_choice. destruct (_ && _); [term|].
  apply terminates_bind; [term|]. intros t. apply terminates_weighted_scan.
Qed.

Lemma terminates_np_binop op a b : terminates (np_binop op a b).
Proof.
  unfold np_binop. term.
Qed.

Lemma terminates_true_divide value n : terminates (true_divide value n).
Proof. unfold true_divide. destruct value, n; term. Qed.

Lemma terminates_py_div x n : terminates (py_div x n).
Proof. unfold py_div. destruct n; term. Qed.

Lemma terminates_py_call f args : terminates (py_call f args).
Proof.
  unfold py_call. destruct f as [g|]; [|term].
  intros w. destruct (body g args); discriminate.
Qed.

#[local] Hint Resolve terminates_weighted_choice terminates_np_binop
  terminates_true_divide terminates_py_div terminates_py_call : termination.

Lemma terminates_point_init ap dims : terminates (Point.init ap dims).
Proof. unfold Point.init. term. Qed.

Lemma terminates_evaluate_fitness p f : terminates (Point.evaluate_fitness p f).
Proof. unfold Point.evaluate_fitness. term. Qed.

Lemma terminates_point_mutate p : terminates (Point.mutate p).
Proof. unfold Point.mutate. term. Qed.

#[local] Hint Resolve terminates_point_init terminates_evaluate_fitness
  terminates_point_mutate : termination.

Lemma terminates_crossover point1 point2 : terminates (crossover point1 point2).
Proof. unfold crossover, draw_splitpoint. term. Qed.

Lemma terminates_assign_ranks set_rank n pts :
  terminates (Population.assign_ranks set_rank n pts).
Proof. unfold Population.assign_ranks. term. Qed.

Lemma terminates_evaluate_points self pts :
  terminates (Population.evaluate_points self pts).
Proof. unfold Population.evaluate_points. term. Qed.

#[local] Hint Resolve terminates_crossover terminates_assign_ranks
  terminates_evaluate_points : termination.

Lemma terminates_evaluate_fitness_ranks self :
  terminates (Population.evaluate_fitness_ranks self).
Proof. unfold Population.evaluate_fitness_ranks. term. Qed.

Lemma terminates_evaluate_diversity_ranks self :
  terminates (Population.evaluate_diversity_ranks self).
Proof. unfold Population.evaluate_diversity_ranks, py_sum. term. Qed.

Lemma terminates_population_mutate self : terminates (Population.mutate self).
Proof. unfold Population.mutate, Population.mutate_point. term. Qed.

Lemma terminates_population_init objective_function dimensions population_size
    boundaries elite_fraction mutation_probability mutation_range verbose
    multiprocessing :
  terminates (Population.init objective_function dimensions population_size
                boundaries elite_fraction mutation_probability mutation_range
                verbose multiprocessing).
Proof.
  unfold Population.init.
  destruct (_ || _); [term|]. destruct (_ || _); [term|].
  destruct (negb _); [term|].
  apply terminates_bind; [term|]. intros num_dimensions.
  apply terminates_bind; [term|]. intros bs.
  apply terminates_bind; [intros w; discriminate|]. intros ident.
  apply terminates_bind; [term|]. intros created.
  apply terminates_bind; [term|]. intros evaluated.
  apply terminates_bind;
    [apply terminates_evaluate_fitness_ranks|intros; apply terminates_evaluate_diversity_ranks].
Qed.

Lemma bind_OutOfFuel {A B} (m : M A) (k : A -> M B) w w' :
  bind m k w = (OutOfFuel, w') ->
  m w = (OutOfFuel, w') \/ exists a w1, m w = (Return a, w1) /\ k a w1 = (OutOfFuel, w').
Proof.
  unfold bind. destruct (m w) as [[a|e|] w1]; intros H.
  - right. eauto.
  - discriminate.
  - left. inversion H. reflexivity.
Qed.

Lemma bind_OutOfFuel_terminates {A B} (m : M A) (k : A -> M B) w w' :
  terminates m ->
  bind m k w = (OutOfFuel, w') ->
  exists a w1, m w = (Return a, w1) /\ k a w1 = (OutOfFuel, w').
Proof.
  intros Hm H. apply bind_OutOfFuel in H as [H|H]; [|exact H].
  exfalso. apply (Hm w). rewrite H. reflexivity.
Qed.

(** The resampling loop runs out of fuel only after [fuel + 1] rejected
    pairs of draws. *)
Lemma select_parents_OutOfFuel fuel size weights :
  forall w w',
    Population.select_parents fuel size weights w = (OutOfFuel, w') ->
    w' = advance (2 * S fuel) w.
Proof.
  induction fuel as [|fuel IH]; intros w w' H;
    rewrite select_parents_unfold in H;
    apply bind_OutOfFuel_terminates in H as (p1 & w1 & H1 & H);
    try apply terminates_weighted_choice;
    apply bind_OutOfFuel_terminates in H as (p2 & w2 & H2 & H);
    try apply terminates_weighted_choice;
    apply weighted_choice_world in H1; apply weighted_choice_world in H2; subst;
    destruct (option_nat_eqb p1 p2); try discriminate.
  - inversion H. apply advance_advance.
  - apply IH in H. subst w'. rewrite !advance_advance. f_equal. lia.
Qed.

(** [__breed] stops for lack of fuel only inside the resampling loop:
    the budget of the outer loop is never exhausted. *)
Lemma breed_loop_OutOfFuel fuel self weights :
  forall budget newpopulation w w',
    (Population.size self <= length newpopulation + budget)%nat ->
    Population.breed_loop fuel budget self weights newpopulation w = (OutOfFuel, w') ->
    exists w1, only_draws w w1 /\
      Population.select_parents fuel (Population.size self) weights w1 = (OutOfFuel, w').
Proof.
  induction budget as [|budget IH]; intros newpopulation w w' Hb H; simpl in H;
    destruct (Nat.ltb_spec (length newpopulation) (Population.size self)) as [Hlt|Hge];
    try discriminate; try lia.
  apply bind_OutOfFuel in H as [H|(parents & w1 & Hparents & H)].
  { exists w. split; [apply only_draws_refl|exact H]. }
  apply bind_OutOfFuel_terminates in H as (point1 & w2 & Hp1 & H);
    [|apply terminates_getitem_opt].
  apply bind_OutOfFuel_terminates in H as (point2 & w3 & Hp2 & H);
    [|apply terminates_getitem_opt].
  apply bind_OutOfFuel_terminates in H as (children & w4 & Hc & H);
    [|apply terminates_crossover].
  apply select_parents_world in Hparents.
  apply getitem_opt_Return in Hp1 as (? & _ & _ & ->).
  apply getitem_opt_Return in Hp2 as (? & _ & _ & ->).
  apply crossover_world in Hc.
  apply IH in H as (w5 & Hw5 & H).
  - exists w5. split; [|exact H]. eauto using only_draws_trans.
  - destruct (_ <? _)%nat; rewrite !length_app; simpl; lia.
Qed.

Lemma breed_OutOfFuel fuel self w w' :
  Population.breed fuel self w = (OutOfFuel, w') ->
  exists weights w1,
    Population.select_parents fuel (Population.size self) weights w1 = (OutOfFuel, w') /\
    w' = advance (2 * S fuel) w1.
Proof.
  unfold Population.breed. cbv zeta. intros H.
  apply bind_OutOfFuel_terminates in H as (elite & w1 & _ & H); [|term].
  apply bind_OutOfFuel_terminates in H as (weights & w2 & _ & H).
  2:{ apply terminates_for_each. intros p. unfold Population.breeding_weight. term. }
  apply bind_OutOfFuel in H as [H|(newpopulation & w3 & _ & H)].
  - apply breed_loop_OutOfFuel in H as (w4 & _ & H); [|simpl; lia].
    simpl in H. exists weights, w4. split; [exact H|].
    eapply select_parents_OutOfFuel, H.
  - exfalso.
    apply bind_OutOfFuel_terminates in H as (evaluated & w4 & _ & H);
      [discriminate|apply terminates_evaluate_points].
Qed.

(** ** minimize *)

(** C7.  The point returned by [minimize] carries as fitness the value
    of the objective itself at its coordinates.  It is the best point of
    the maximisation of the negated objective, whose fitness there was
    the negated value, evaluated once more with the original objective;
    its coordinates are unchanged and within the bounds. *)
Theorem minimize_reports_objective_value fuel f kw w p w' :
  minimize fuel (Some f) kw w = (Return p, w') ->
  body f (Point.coordinates p) = inr (Point.fitness p) /\
  within_bounds p /\
  exists best w1,
    maximize fuel (Some (objective_function_neg (Some f))) kw w
      = (Return (Some best), w1) /\
    Point.coordinates p = Point.coordinates best /\
    Point.fitness best = (- Point.fitness p)%Q /\
    w' = record_calls [Point.coordinates best] w1.
Proof.
  unfold minimize. intros H.
  apply bind_Return in H as (best & w1 & Hmax & H).
  destruct best as [best|]; [|discriminate].
  apply evaluate_fitness_Return in H as [(v & Hv & ->) ->].
  pose proof Hmax as Hbest. apply maximize_best_member in Hbest as [Hin Hfit].
  unfold objective_at in Hv.
  destruct (body f (Point.coordinates best)) as [e|v0] eqn:Hbody; [discriminate|].
  inversion Hv; subst v0. simpl.
  split; [exact Hbody|]. split; [exact Hin|].
  exists best, w1. split; [exact Hmax|]. split; [reflexivity|].
  split; [|reflexivity].
  unfold fitness_current, objective_at in Hfit. simpl in Hfit.
  rewrite Hbody in Hfit. inversion Hfit. reflexivity.
Qed.

Lemma minimize_reports_objective_value_witness :
  exists p w',
    minimize 10 (Some example_objective) minimize_kwargs minimize_world = (Return p, w') /\
    body example_objective (Point.coordinates p) = inr (Point.fitness p).
Proof.
  let r := eval vm_compute in
      (minimize 10 (Some example_objective) minimize_kwargs minimize_world) in
  lazymatch r with
  | (Return ?p, ?w) =>
      exists p, w;
      assert (H : minimize 10 (Some example_objective) minimize_kwargs minimize_world
                  = (Return p, w)) by (vm_compute; reflexivity);
      split; [exact H | exact (proj1 (@minimize_reports_objective_value _ _ _ _ _ _ H))]
  end.
Defined.

(** * Further properties *)

(** ** unpack *)

Lemma product_from (dims : list Z) (a : Z) :
  fold_left Z.mul dims a = (a * product dims)%Z.
Proof.
  unfold product. revert a. induction dims as [|d dims IH]; intros a; simpl.
  - lia.
  - rewrite IH, (IH (1 * d)%Z). lia.
Qed.

Lemma product_cons d dims : product (d :: dims) = (d * product dims)%Z.
Proof. unfold product at 1. simpl. rewrite product_from. lia. Qed.

Lemma product_nonneg dims : Forall (fun d => 0 <= d)%Z dims -> (0 <= product dims)%Z.
Proof.
  induction 1 as [|d dims Hd _ IH]; [unfold product; simpl; lia|].
  rewrite product_cons. lia.
Qed.

Lemma shape_product_dims s : shape_product s = product (shape_dims s).
Proof.
  destruct s as [n|dims]; simpl; [|reflexivity].
  rewrite product_cons. unfold product. simpl. lia.
Qed.

Lemma shape_product_nonneg s : nonneg_shape s -> (0 <= shape_product s)%Z.
Proof. intros H. rewrite shape_product_dims. apply product_nonneg, H. Qed.

Lemma nonneg_no_unknown dims :
  Forall (fun d => 0 <= d)%Z dims ->
  existsb (fun d => (d <? -1)%Z) dims = false /\
  filter (fun d => d = (-1)%Z) dims = [].
Proof.
  induction 1 as [|d dims Hd _ [IH1 IH2]]; simpl; [auto|].
  split.
  - rewrite IH1. destruct (Z.ltb_spec d (-1)); [lia|reflexivity].
  - rewrite filter_cons, IH2. destruct (decide (d = (-1)%Z)); [lia|reflexivity].
Qed.

(** [reshape] with dimensions that are not negative. *)
Lemma reshape_nonneg data s w :
  nonneg_shape s ->
  reshape data s w =
  if (shape_product s =? Z.of_nat (length data))%Z
  then (Return (NdArray (map Z.to_nat (shape_dims s)) data), w)
  else (Raise (ValueError "cannot reshape array"), w).
Proof.
  intros H. unfold reshape.
  destruct (nonneg_no_unknown H) as [-> ->]. simpl.
  rewrite <- shape_product_dims.
  destruct (_ =? _)%Z; reflexivity.
Qed.

Lemma py_slice_inside {A} (l : list A) (i n : Z) :
  (0 <= i)%Z -> (0 <= n)%Z -> (i + n <= Z.of_nat (length l))%Z ->
  py_slice l i (i + n) = take (Z.to_nat n) (drop (Z.to_nat i) l).
Proof.
  intros Hi Hn Hlen. unfold py_slice, slice_bound.
  destruct (Z.ltb_spec i 0); [lia|]. destruct (Z.ltb_spec (i + n) 0); [lia|].
  f_equal; [|f_equal]; lia.
Qed.

Lemma py_slice_short {A} (l : list A) (i n : Z) :
  (0 <= i <= Z.of_nat (length l))%Z -> (Z.of_nat (length l) < i + n)%Z ->
  (Z.of_nat (length (py_slice l i (i + n))) < n)%Z.
Proof.
  intros Hi Hn. unfold py_slice, slice_bound.
  destruct (Z.ltb_spec i 0); [lia|]. destruct (Z.ltb_spec (i + n) 0); [lia|].
  rewrite length_take, length_drop. lia.
Qed.

Lemma unpack_loop_run args w :
  forall shapes index done,
    Forall nonneg_shape shapes ->
    (0 <= index)%Z ->
    (index + requested shapes <= Z.of_nat (length args))%Z ->
    exists arrays,
      unpack_loop args index done shapes w = (Return (done ++ arrays), w) /\
      Forall2 (fun s a => nd_shape a = map Z.to_nat (shape_dims s) /\
                          Z.of_nat (length (nd_data a)) = shape_product s)
              shapes arrays /\
      concat (map nd_data arrays)
        = take (Z.to_nat (requested shapes)) (drop (Z.to_nat index) args).
Proof.
  induction shapes as [|s shapes IH]; intros index done Hs Hi Hlen.
  - exists []. simpl. rewrite app_nil_r. repeat split. constructor.
  - inversion Hs as [|? ? Hs1 Hs2]; subst.
    pose proof (shape_product_nonneg Hs1) as Hp.
    assert (Hr : (0 <= requested shapes)%Z).
    { clear -Hs2. induction Hs2 as [|x l Hx _ IHl]; simpl; [unfold requested; simpl; lia|].
      unfold requested in *. simpl. pose proof (shape_product_nonneg Hx). lia. }
    unfold requested in Hlen. simpl in Hlen. fold (requested shapes) in Hlen.
    simpl unpack_loop.
    set (piece := py_slice args index (index + shape_product s)).
    assert (Hpiece : piece = take (Z.to_nat (shape_product s)) (drop (Z.to_nat index) args)).
    { apply py_slice_inside; lia. }
    assert (Hplen : Z.of_nat (length piece) = shape_product s).
    { rewrite Hpiece, length_take, length_drop. lia. }
    destruct (IH (index + shape_product s)%Z
                 (done ++ [NdArray (map Z.to_nat (shape_dims s)) piece]))
      as (arrays & Hrun & Hall & Hcat); [assumption|lia|lia|].
    exists (NdArray (map Z.to_nat (shape_dims s)) piece :: arrays).
    split; [|split].
    + eapply bind_run_eq.
      * rewrite reshape_nonneg by exact Hs1.
        rewrite Hplen, Z.eqb_refl. reflexivity.
      * rewrite Hrun. rewrite <- app_assoc. reflexivity.
    + constructor; [split; [reflexivity|exact Hplen]|exact Hall].
    + simpl. rewrite Hcat, Hpiece.
      unfold requested. simpl. fold (requested shapes).
      rewrite Z2Nat.inj_add by lia.
      rewrite Z2Nat.inj_add by lia.
      rewrite <- drop_drop, <- take_take_drop. reflexivity.
Qed.

Lemma requested_nonneg shapes :
  Forall nonneg_shape shapes -> (0 <= requested shapes)%Z.
Proof.
  induction 1 as [|s shapes Hs _ IH]; unfold requested in *; simpl; [lia|].
  pose proof (shape_product_nonneg Hs). lia.
Qed.

(** X1.  When the shapes hold no negative dimension and ask for no more
    elements than there are arguments, [unpack] returns one array per
    shape, each with the requested shape, and the arrays hold the
    arguments in order: their elements, concatenated, are the first
    requested arguments (all of them when the counts agree; surplus
    arguments are ignored).  One shape gives the array itself, several
    give a list. *)
Theorem unpack_partitions args shapes w :
  shapes <> [] ->
  Forall nonneg_shape shapes ->
  (requested shapes <= Z.of_nat (length args))%Z ->
  exists u,
    unpack args shapes w = (Return u, w) /\
    Forall2 (fun s a => nd_shape a = map Z.to_nat (shape_dims s) /\
                        Z.of_nat (length (nd_data a)) = shape_product s)
            shapes (arrays_of u) /\
    concat (map nd_data (arrays_of u)) = take (Z.to_nat (requested shapes)) args /\
    (requested shapes = Z.of_nat (length args) ->
     concat (map nd_data (arrays_of u)) = args) /\
    match u with
    | UnpackedList _ => (1 < length shapes)%nat
    | UnpackedOne _ => length shapes = 1%nat
    end.
Proof.
  intros Hne Hs Hlen.
  destruct (@unpack_loop_run args w shapes 0%Z []) as (arrays & Hrun & Hall & Hcat);
    [exact Hs|lia|lia|].
  simpl in Hrun, Hcat. rewrite drop_0 in Hcat.
  assert (Hfull : requested shapes = Z.of_nat (length args) ->
                  concat (map nd_data arrays) = args).
  { intros E. rewrite Hcat, E, Nat2Z.id. apply firstn_all. }
  unfold unpack.
  destruct (Nat.ltb_spec 1 (length shapes)) as [Hmany|Hone].
  - exists (UnpackedList arrays). split.
    + eapply bind_run_eq; [exact Hrun|].
      replace (1 <? length shapes)%nat with true by (symmetry; apply Nat.ltb_lt, Hmany).
      reflexivity.
    + simpl. auto.
  - destruct shapes as [|s [|s' shapes]]; [congruence| |simpl in Hone; lia].
    inversion Hall as [|? a ? rest Ha Hrest]; subst. inversion Hrest; subst.
    exists (UnpackedOne a). split.
    + eapply bind_run_eq; [exact Hrun|]. simpl. reflexivity.
    + simpl. auto.
Qed.

Lemma unpack_partitions_witness :
  exists u,
    unpack [1; 2; 3; 4; 5; 6; 7]%Q [TupleShape [2; 2]%Z; IntShape 3] one_hot_world
      = (Return u, one_hot_world) /\
    concat (map nd_data (arrays_of u)) = [1; 2; 3; 4; 5; 6; 7]%Q.
Proof.
  destruct (@unpack_partitions [1; 2; 3; 4; 5; 6; 7]%Q
              [TupleShape [2; 2]%Z; IntShape 3] one_hot_world)
    as (u & Hrun & _ & _ & Hfull & _).
  - discriminate.
  - repeat constructor; simpl; lia.
  - vm_compute. discriminate.
  - exists u. split; [exact Hrun|]. apply Hfull. reflexivity.
Defined.

Lemma unpack_loop_short args w :
  forall shapes index done,
    Forall nonneg_shape shapes ->
    (0 <= index <= Z.of_nat (length args))%Z ->
    (Z.of_nat (length args) < index + requested shapes)%Z ->
    exists msg, unpack_loop args index done shapes w = (Raise (ValueError msg), w).
Proof.
  induction shapes as [|s shapes IH]; intros index done Hs Hi Hlen.
  - unfold requested in Hlen. simpl in Hlen. lia.
  - inversion Hs as [|? ? Hs1 Hs2]; subst.
    pose proof (shape_product_nonneg Hs1) as Hp.
    unfold requested in Hlen. simpl in Hlen. fold (requested shapes) in Hlen.
    simpl unpack_loop.
    destruct (Z.le_gt_cases (index + shape_product s) (Z.of_nat (length args)))
      as [Hfit|Hshort].
    + destruct (IH (index + shape_product s)%Z
                   (done ++ [NdArray (map Z.to_nat (shape_dims s))
                                     (py_slice args index (index + shape_product s))]))
        as [msg Hmsg]; [assumption|lia|lia|].
      exists msg. eapply bind_run_eq; [|exact Hmsg].
      rewrite reshape_nonneg by exact Hs1.
      rewrite py_slice_inside by lia.
      rewrite length_take, length_drop.
      replace (shape_product s =? _)%Z with true
        by (symmetry; apply Z.eqb_eq; lia).
      reflexivity.
    + eexists. apply bind_raise_eq.
      rewrite reshape_nonneg by exact Hs1.
      pose proof (@py_slice_short Q args index (shape_product s)) as Hsl.
      destruct (Z.eqb_spec (shape_product s)
                  (Z.of_nat (length (py_slice args index (index + shape_product s)))));
        [lia|reflexivity].
Qed.

(** X2.  When the shapes hold no negative dimension and ask for more
    elements than there are arguments, [unpack] raises [ValueError]. *)
Theorem unpack_too_few_arguments args shapes w :
  Forall nonneg_shape shapes ->
  (Z.of_nat (length args) < requested shapes)%Z ->
  exists msg, unpack args shapes w = (Raise (ValueError msg), w).
Proof.
  intros Hs Hlen.
  destruct (@unpack_loop_short args w shapes 0%Z []) as [msg Hmsg];
    [exact Hs|lia|lia|].
  exists msg. unfold unpack. apply bind_raise_eq, Hmsg.
Qed.

Lemma unpack_too_few_arguments_witness :
  exists msg,
    unpack [1; 2; 3]%Q [TupleShape [2; 2]%Z] one_hot_world
      = (Raise (ValueError msg), one_hot_world).
Proof.
  apply unpack_too_few_arguments.
  - repeat constructor; simpl; lia.
  - vm_compute. reflexivity.
Defined.

(** X3.  The shape -1 is not inferred from the arguments: the slice
    [0:-1] drops the last argument, and the one-dimensional array of the
    others is returned. *)
Theorem unpack_minus_one_drops_last args w :
  unpack args [IntShape (-1)] w
  = (Return (UnpackedOne (NdArray [(length args - 1)%nat]
                                  (take (length args - 1) args))), w).
Proof.
  unfold unpack. simpl.
  assert (Hslice : py_slice args 0 (0 + 1 * -1) = take (length args - 1) args).
  { unfold py_slice, slice_bound. simpl.
    rewrite drop_0. f_equal. lia. }
  rewrite Hslice.
  assert (Hlen : length (take (length args - 1) args) = (length args - 1)%nat)
    by (rewrite length_take; lia).
  eapply bind_run_eq.
  { eapply bind_run_eq; [|reflexivity].
    unfold reshape. simpl. rewrite Hlen.
    rewrite Z.mod_1_r. simpl. rewrite Z.div_1_r, Nat2Z.id. reflexivity. }
  reflexivity.
Qed.

(** ** weighted_choice *)

Lemma np_sum_take_S (l : list Q) i x :
  l !! i = Some x -> (np_sum (take (S i) l) == np_sum (take i l) + x)%Q.
Proof.
  intros H. rewrite (take_S_r _ _ _ H), np_sum_app.
  assert (Hx : (np_sum [x] == x)%Q) by (unfold np_sum; simpl; lra).
  rewrite Hx. reflexivity.
Qed.

(** What the scanning loop selects: the first position at which the
    running total has dropped below the threshold. *)
Lemma weighted_scan_Some {A} (choices : list A) threshold nws :
  forall total index w c w',
    weighted_scan choices threshold total index nws w = (Return (Some c), w') ->
    exists i,
      (i < length nws)%nat /\
      choices !! (index + i)%nat = Some c /\
      (total - np_sum (take (S i) nws) < threshold)%Q /\
      forall j, (j < i)%nat -> (threshold <= total - np_sum (take (S j) nws))%Q.
Proof.
  induction nws as [|nw rest IH]; intros total index w c w' H; simpl in H.
  - apply ret_Return in H as [H _]. discriminate.
  - destruct (Qlt_bool (total - nw) threshold) eqn:E.
    + apply bind_Return in H as (c0 & w1 & Hc & H).
      apply getitem_Return in Hc as [Hc _].
      apply ret_Return in H as [H _]. inversion H; subst c0.
      exists 0%nat. simpl. rewrite Nat.add_0_r.
      split; [lia|]. split; [exact Hc|]. split; [|intros j Hj; lia].
      apply Qlt_bool_true in E. unfold np_sum. simpl. lra.
    + apply Qlt_bool_false in E.
      apply IH in H as (i & Hi & Hc & Hlt & Hge).
      exists (S i). split; [simpl; lia|].
      split; [rewrite <- Hc; f_equal; lia|]. split.
      * rewrite firstn_cons, np_sum_cons. lra.
      * intros j Hj. destruct j as [|j].
        -- simpl. unfold np_sum. simpl. lra.
        -- rewrite firstn_cons, np_sum_cons.
           specialize (Hge j ltac:(lia)). lra.
Qed.

Lemma take_map_Q (f : Q -> Q) n (l : list Q) : take n (map f l) = map f (take n l).
Proof. revert n. induction l as [|x l IH]; intros [|n]; simpl; congruence. Qed.

(** X4.  [weighted_choice] samples by inverting the cumulative
    distribution: with non-negative weights of positive sum, the choice
    returned sits at the one position [i] whose cumulative normalised
    weight first exceeds [1 - u], where [u] is the single draw made; the
    weight at that position is positive. *)
Theorem weighted_choice_inverse_cdf {A} (choices : list A) weights w c w' :
  Forall (fun x => 0 <= x)%Q weights ->
  (0 < np_sum weights)%Q ->
  weighted_choice choices weights w = (Return (Some c), w') ->
  let u := unit_sample (entropy w (cursor w)) in
  let s := np_sum weights in
  exists i wi,
    choices !! i = Some c /\
    weights !! i = Some wi /\
    (0 < wi)%Q /\
    (1 - u < np_sum (take (S i) weights) / s)%Q /\
    (np_sum (take i weights) / s <= 1 - u)%Q /\
    w' = advance 1 w.
Proof.
  intros Hnn Hs H u s.
  pose proof H as Hw. apply weighted_choice_world in Hw.
  unfold weighted_choice in H. rewrite weighted_choice_guard in H by exact Hs.
  apply bind_Return in H as (t & w1 & Ht & H).
  apply uniform_Return in Ht as [-> _]. fold u in H.
  apply weighted_scan_Some in H as (i & Hi & Hc & Hlt & Hge).
  rewrite length_map in Hi. simpl in Hc.
  destruct (lookup_lt_is_Some_2 weights i Hi) as [wi Hwi].
  rewrite take_map_Q, np_sum_scale in Hlt. fold s in Hlt.
  destruct (unit_sample_range (entropy w (cursor w))) as [Hu0 Hu1]. fold u in Hu0, Hu1.
  assert (Hprev : (np_sum (take i weights) / s <= 1 - u)%Q).
  { destruct i as [|i].
    - simpl. unfold np_sum. simpl. unfold Qdiv. lra.
    - specialize (Hge i ltac:(lia)).
      rewrite take_map_Q, np_sum_scale in Hge. fold s in Hge. lra. }
  exists i, wi. split; [exact Hc|]. split; [exact Hwi|].
  split; [|split; [lra|split; [exact Hprev|exact Hw]]].
  rewrite (np_sum_take_S _ _ Hwi) in Hlt.
  assert (Hsplit : ((np_sum (take i weights) + wi) / s
                    == np_sum (take i weights) / s + wi / s)%Q)
    by (field; unfold s; lra).
  rewrite Hsplit in Hlt.
  assert (Hdiv : (0 < wi / s)%Q) by lra.
  assert (Hwi' : (wi == wi / s * s)%Q) by (field; unfold s; lra).
  rewrite Hwi'. apply Qmult_lt_0_compat; [exact Hdiv|exact Hs].
Qed.

Lemma weighted_choice_inverse_cdf_witness :
  exists i wi,
    [0; 1; 2]%nat !! i = Some 2%nat /\ [1; 1; 2]%Q !! i = Some wi /\ (0 < wi)%Q.
Proof.
  destruct (@weighted_choice_inverse_cdf nat [0; 1; 2]%nat [1; 1; 2]%Q half_world
              2%nat (advance 1 half_world))
    as (i & wi & Hc & Hw & Hpos & _).
  - repeat constructor; unfold Qle; simpl; lia.
  - reflexivity.
  - reflexivity.
  - exists i, wi. auto.
Defined.

(** X5.  With non-negative weights of positive sum and a choice for
    every weight, [weighted_choice] always returns after one draw, and
    the result is [None] exactly when that draw is 0. *)
Theorem weighted_choice_none_only_at_zero {A} (choices : list A) weights w :
  Forall (fun x => 0 <= x)%Q weights ->
  (0 < np_sum weights)%Q ->
  (length weights <= length choices)%nat ->
  exists r,
    weighted_choice choices weights w = (Return r, advance 1 w) /\
    (r = None <-> (unit_sample (entropy w (cursor w)) == 0)%Q).
Proof.
  intros Hnn Hs Hlen.
  destruct (unit_sample_range (entropy w (cursor w))) as [H0 _].
  destruct (Qeq_bool (unit_sample (entropy w (cursor w))) 0) eqn:E.
  - exists None. split.
    + apply weighted_choice_zero_threshold; auto. apply unit_sample_zero, E.
    + split; [intros _; apply Qeq_bool_iff, E|reflexivity].
  - apply Qeq_bool_neq in E.
    destruct (@weighted_choice_positive_threshold A choices weights w)
      as (i & c & _ & _ & Hrun); auto; [lra|].
    exists (Some c). split; [exact Hrun|].
    split; [discriminate|]. intros Hz. contradiction.
Qed.

Lemma weighted_choice_none_only_at_zero_witness :
  exists r,
    weighted_choice [0; 1; 2]%nat [1; 1; 2]%Q half_world
      = (Return r, advance 1 half_world) /\
    (r = None <-> (unit_sample (entropy half_world (cursor half_world)) == 0)%Q).
Proof.
  apply weighted_choice_none_only_at_zero.
  - repeat constructor; unfold Qle; simpl; lia.
  - reflexivity.
  - simpl. lia.
Defined.

Lemma np_sum_scale_mult (k : Q) (l : list Q) :
  (np_sum (map (Qmult k) l) == k * np_sum l)%Q.
Proof.
  induction l as [|x l IH]; simpl.
  - unfold np_sum; simpl. lra.
  - rewrite !np_sum_cons, IH. lra.
Qed.

Lemma weighted_scan_proper {A} (choices : list A) threshold nws nws' :
  Forall2 Qeq nws nws' ->
  forall total total' index w,
    (total == total')%Q ->
    weighted_scan choices threshold total index nws w
    = weighted_scan choices threshold total' index nws' w.
Proof.
  induction 1 as [|x y nws nws' Hxy _ IH]; intros total total' index w Ht; simpl.
  - reflexivity.
  - assert (E : (total - x == total' - y)%Q) by (rewrite Hxy, Ht; reflexivity).
    rewrite (@Qlt_bool_proper (total - x) (total' - y) threshold threshold E
               (Qeq_refl threshold)).
    destruct (Qlt_bool _ _); [reflexivity|]. apply IH, E.
Qed.

(** X6.  The weights need not be normalised: multiplying all of them by
    a positive factor changes nothing in the outcome. *)
Theorem weighted_choice_scale_invariant {A} (choices : list A) weights (k : Q) w :
  (0 < k)%Q ->
  weighted_choice choices (map (Qmult k) weights) w = weighted_choice choices weights w.
Proof.
  intros Hk. unfold weighted_choice.
  rewrite length_map.
  assert (Hs : (np_sum (map (Qmult k) weights) == k * np_sum weights)%Q)
    by apply np_sum_scale_mult.
  assert (Hz : Qeq_bool (np_sum (map (Qmult k) weights)) 0
               = Qeq_bool (np_sum weights) 0).
  { destruct (Qeq_bool (np_sum weights) 0) eqn:E.
    - apply Qeq_bool_iff in E. apply Qeq_bool_iff. rewrite Hs, E. lra.
    - apply Qeq_bool_neq in E.
      destruct (Qeq_bool (np_sum (map (Qmult k) weights)) 0) eqn:E'; [|reflexivity].
      apply Qeq_bool_iff in E'. rewrite Hs in E'. exfalso. apply E.
      apply Qmult_integral in E' as [E'|E']; [lra|exact E']. }
  rewrite Hz.
  destruct (negb (length weights =? 0)%nat && Qeq_bool (np_sum weights) 0) eqn:G;
    [reflexivity|].
  unfold bind. rewrite !uniform_run.
  apply weighted_scan_proper; [|reflexivity].
  rewrite map_map.
  assert (Hnz : weights <> [] -> ~ (np_sum weights == 0)%Q).
  { intros Hne Hzero. apply andb_false_iff in G as [G|G].
    - apply negb_false_iff, Nat.eqb_eq in G. destruct weights; [congruence|discriminate].
    - apply Qeq_bool_iff in Hzero. congruence. }
  clear G Hz. revert Hs.
  generalize (np_sum (map (Qmult k) weights)). intros s' Hs.
  destruct (list_eq_nil_dec weights) as [->|Hne]; [constructor|].
  specialize (Hnz Hne).
  revert Hs Hnz. generalize (np_sum weights). intros s Hs Hnz.
  clear Hne. induction weights as [|x l IH]; simpl; constructor; [|exact IH].
  rewrite Hs. field. split; [exact Hnz|lra].
Qed.

Lemma weighted_choice_scale_invariant_witness :
  weighted_choice [0; 1; 2]%nat (map (Qmult 3) [1; 1; 2]%Q) half_world
  = weighted_choice [0; 1; 2]%nat [1; 1; 2]%Q half_world.
Proof. apply weighted_choice_scale_invariant. reflexivity. Defined.

(** ** Point *)

Lemma draw_coordinates_run (bs : list (Q * Q)) n :
  forall start w, (start + n <= length bs)%nat ->
  exists cs,
    for_each (fun dimension => b <- getitem bs dimension ;; uniform (fst b) (snd b))
             (seq start n) w = (Return cs, advance n w) /\
    length cs = n /\
    forall i b, (i < n)%nat -> bs !! (start + i)%nat = Some b ->
      cs !! i = Some (fst b + (snd b - fst b)
                               * unit_sample (entropy w (cursor w + i)%nat))%Q.
Proof.
  induction n as [|n IH]; intros start w Hlen; simpl.
  - exists []. rewrite advance_0. split; [reflexivity|]. split; [reflexivity|].
    intros i b Hi. lia.
  - destruct (lookup_lt_is_Some_2 bs start) as [b0 Hb0]; [lia|].
    destruct (IH (S start) (advance 1 w)) as (cs & Hcs & Hl & Hat); [lia|].
    exists ((fst b0 + (snd b0 - fst b0) * unit_sample (entropy w (cursor w)))%Q :: cs).
    split; [|split].
    + eapply bind_run_eq.
      { eapply bind_run_eq; [apply getitem_run, Hb0|apply uniform_run]. }
      eapply bind_run_eq; [exact Hcs|].
      unfold ret. rewrite advance_advance. do 2 f_equal. lia.
    + simpl. congruence.
    + intros [|i] b Hi Hb.
      * rewrite Nat.add_0_r in *. rewrite Hb0 in Hb. inversion Hb; subst b.
        reflexivity.
      * replace (start + S i)%nat with (S start + i)%nat in Hb by lia.
        simpl. rewrite (Hat i b ltac:(lia) Hb).
        replace (cursor w + S i)%nat with (cursor (advance 1 w) + i)%nat
          by (simpl; lia).
        reflexivity.
Qed.

(** X7.  [Point.__init__] with a boundary for each dimension makes one
    draw per dimension, in order: coordinate [d] is the [d]-th draw
    scaled into the bounds of dimension [d].  The point starts with
    fitness and diversity 0 and with index and ranks -1. *)
Theorem point_init_one_draw_per_dimension ap dims w :
  let bs := match ap with
            | None => repeat (0%Q, 100%Q) dims
            | Some pop => pop_boundaries pop
            end in
  let mr := match ap with
            | None => 5%Q
            | Some pop => pop_mutation_range pop
            end in
  (dims <= length bs)%nat ->
  exists cs,
    Point.init ap dims w
      = (Return (Point.mk ap bs mr cs (-1) 0 0 (-1) (-1)), advance dims w) /\
    length cs = dims /\
    forall d b, (d < dims)%nat -> bs !! d = Some b ->
      cs !! d = Some (fst b + (snd b - fst b)
                               * unit_sample (entropy w (cursor w + d)%nat))%Q.
Proof.
  intros bs mr Hlen.
  destruct (@draw_coordinates_run bs dims 0%nat w) as (cs & Hcs & Hl & Hat); [lia|].
  exists cs. split; [|split; [exact Hl|exact Hat]].
  unfold Point.init. fold bs. fold mr.
  eapply bind_run_eq; [exact Hcs|]. reflexivity.
Qed.

Lemma point_init_one_draw_per_dimension_witness :
  exists cs,
    Point.init (Some example_ref) 2 half_world
      = (Return (Point.mk (Some example_ref) [(0, 100); (0, 100)]%Q 5 cs (-1) 0 0 (-1) (-1)),
         advance 2 half_world) /\
    length cs = 2%nat /\
    forall d b, (d < 2)%nat -> [(0, 100); (0, 100)]%Q !! d = Some b ->
      cs !! d = Some (fst b + (snd b - fst b)
                               * unit_sample (entropy half_world (cursor half_world + d)%nat))%Q.
Proof.
  apply (@point_init_one_draw_per_dimension (Some example_ref) 2 half_world).
  simpl. lia.
Defined.

(** X8.  When the population has fewer boundaries than the point has
    dimensions, [Point.__init__] raises [IndexError] after one draw for
    each boundary there is. *)
Theorem point_init_short_boundaries pop dims w :
  (length (pop_boundaries pop) < dims)%nat ->
  Point.init (Some pop) dims w
    = (Raise IndexError, advance (length (pop_boundaries pop)) w).
Proof.
  intros Hlen. unfold Point.init. apply bind_raise_eq.
  set (bs := pop_boundaries pop) in *.
  assert (Hloop : forall n start w0,
            (start <= length bs)%nat -> (length bs < start + n)%nat ->
            for_each (fun dimension => b <- getitem bs dimension ;; uniform (fst b) (snd b))
                     (seq start n) w0
            = (Raise IndexError, advance (length bs - start) w0)).
  { induction n as [|n IH]; intros start w0 Hs Hn; [lia|]. simpl.
    destruct (bs !! start) as [b|] eqn:Hb.
    - assert (start < length bs)%nat by (eapply lookup_lt_Some, Hb).
      eapply bind_run_eq.
      { eapply bind_run_eq; [apply getitem_run, Hb|apply uniform_run]. }
      apply bind_raise_eq. rewrite IH by lia.
      rewrite advance_advance. do 2 f_equal. lia.
    - apply lookup_ge_None in Hb.
      replace (length bs - start)%nat with 0%nat by lia. rewrite advance_0.
      apply bind_raise_eq, bind_raise_eq. unfold getitem.
      rewrite (proj2 (lookup_ge_None bs start) Hb). reflexivity. }
  rewrite Hloop by lia. rewrite Nat.sub_0_r. reflexivity.
Qed.

Lemma point_init_short_boundaries_witness :
  Point.init (Some example_ref) 3 half_world
    = (Raise IndexError, advance (length (pop_boundaries example_ref)) half_world).
Proof. apply point_init_short_boundaries. simpl. lia. Defined.

(** X9.  With ordered bounds, [mutate] on a point of at least one
    dimension always returns after two draws, and its whole effect is to
    store the upper bound in the dimension chosen by the first draw: the
    perturbation drawn second is lost. *)
Theorem mutate_sets_upper_bound self w :
  (0 < length (Point.coordinates self))%nat ->
  (length (Point.coordinates self) <= length (Point.boundaries self))%nat ->
  bounds_ordered (Point.boundaries self) ->
  exists index b,
    Z.of_nat index
      = (Z.of_N (entropy w (cursor w)) mod Z.of_nat (length (Point.coordinates self)))%Z /\
    Point.boundaries self !! index = Some b /\
    Point.mutate self w
      = (Return (Point.set_coordinates (<[index := snd b]> (Point.coordinates self)) self),
         advance 2 w).
Proof.
  intros Hpos Hlen Hord.
  destruct (@mutate_run self w Hpos Hlen) as [p' Hrun].
  pose proof Hrun as H.
  apply mutate_Return in H as (index & x & b & Hi & Hx & Hb & Hp & _).
  exists index, b. split; [exact Hi|]. split; [exact Hb|].
  rewrite Hrun, Hp. rewrite py_max_min_upper by (eapply Hord, Hb). reflexivity.
Qed.

Lemma mutate_sets_upper_bound_witness :
  exists index b,
    Z.of_nat index
      = (Z.of_N (entropy mutate_example_world (cursor mutate_example_world))
         mod Z.of_nat (length (Point.coordinates mutate_example_point)))%Z /\
    Point.boundaries mutate_example_point !! index = Some b /\
    Point.mutate mutate_example_point mutate_example_world
      = (Return (Point.set_coordinates
                   (<[index := snd b]> (Point.coordinates mutate_example_point))
                   mutate_example_point),
         advance 2 mutate_example_world).
Proof.
  apply mutate_sets_upper_bound.
  - simpl. lia.
  - simpl. lia.
  - apply (default_bounds_ordered 2).
Defined.

(** ** crossover *)

Lemma init_record ap dims w p w' :
  Point.init ap dims w = (Return p, w') ->
  forall cs, Point.set_coordinates cs p
             = Point.mk ap (match ap with
                            | None => repeat (0%Q, 100%Q) dims
                            | Some pop => pop_boundaries pop
                            end)
                        (match ap with
                         | None => 5%Q
                         | Some pop => pop_mutation_range pop
                         end) cs (-1) 0 0 (-1) (-1).
Proof.
  unfold Point.init. intros H cs.
  apply bind_Return in H as (cs0 & w1 & _ & H).
  apply ret_Return in H as [<- _]. reflexivity.
Qed.

(** X10.  [crossover] is symmetric: for two points of one population
    with as many coordinates, exchanging the parents exchanges the
    children, on the same draws. *)
Theorem crossover_symmetric point1 point2 w child1 child2 w' :
  Point.associated_population point1 = Point.associated_population point2 ->
  length (Point.coordinates point1) = length (Point.coordinates point2) ->
  crossover point1 point2 w = (Return (child1, child2), w') ->
  crossover point2 point1 w = (Return (child2, child1), w').
Proof.
  intros Hap Hlen. unfold crossover, draw_splitpoint.
  rewrite <- Hap, <- Hlen.
  destruct (negb _); [discriminate|].
  intros H.
  apply bind_Return in H as (c1 & w1 & H1 & H).
  apply bind_Return in H as (c2 & w2 & H2 & H).
  apply bind_Return in H as (k & w3 & Hk & H).
  apply ret_Return in H as [H <-]. inversion H; subst child1 child2. clear H.
  eapply bind_run_eq; [exact H1|].
  eapply bind_run_eq; [exact H2|].
  eapply bind_run_eq; [exact Hk|].
  unfold ret.
  rewrite !(@init_record _ _ _ _ _ H1), !(@init_record _ _ _ _ _ H2). reflexivity.
Qed.

Lemma crossover_symmetric_witness :
  exists child1 child2,
    crossover crossover_parent_a crossover_parent_b crossover_split_world
      = (Return (child1, child2), advance 5 crossover_split_world) /\
    crossover crossover_parent_b crossover_parent_a crossover_split_world
      = (Return (child2, child1), advance 5 crossover_split_world).
Proof.
  let r := eval vm_compute in
             (crossover crossover_parent_a crossover_parent_b crossover_split_world) in
  lazymatch r with
  | (Return (?c1, ?c2), _) =>
      exists c1, c2;
      assert (H : crossover crossover_parent_a crossover_parent_b crossover_split_world
                  = (Return (c1, c2), advance 5 crossover_split_world))
        by (vm_compute; reflexivity);
      split; [exact H|];
      exact (@crossover_symmetric crossover_parent_a crossover_parent_b
               crossover_split_world c1 c2 (advance 5 crossover_split_world)
               eq_refl eq_refl H)
  end.
Defined.

Lemma shape_ok_length_bounds ref dims p :
  shape_ok ref dims p -> (dims <= length (pop_boundaries ref))%nat.
Proof.
  intros (_ & Hbs & _ & Hlen & Hin).
  destruct dims as [|n]; [lia|].
  destruct (lookup_lt_is_Some_2 (Point.coordinates p) n) as [x Hx]; [lia|].
  destruct (Hin n x Hx) as (b & Hb & _).
  rewrite Hbs in Hb. apply lookup_lt_Some in Hb. lia.
Qed.

(** X11.  Two members of a population with ordered bounds and at least
    one dimension always breed: [crossover] returns after one draw per
    coordinate of each child and one for the split index, and both
    children are points of the population within its bounds, with
    fitness 0 and ranks -1 until they are evaluated and ranked. *)
Theorem crossover_of_members ref dims point1 point2 w :
  bounds_ordered (pop_boundaries ref) ->
  (1 <= dims)%nat ->
  shape_ok ref dims point1 -> shape_ok ref dims point2 ->
  exists child1 child2,
    crossover point1 point2 w = (Return (child1, child2), advance (2 * dims + 1) w) /\
    shape_ok ref dims child1 /\ shape_ok ref dims child2 /\
    Forall (fun child => Point.fitness child = 0%Q /\
                         Point.fitness_rank child = (-1)%Z /\
                         Point.diversity_rank child = (-1)%Z)
           [child1; child2].
Proof.
  intros Hord Hdims Hs1 Hs2.
  pose proof (@shape_ok_length_bounds _ _ _ Hs1) as Hlen.
  destruct Hs1 as (Hap1 & Hbs1 & Hmr1 & Hl1 & Hin1).
  destruct Hs2 as (Hap2 & Hbs2 & Hmr2 & Hl2 & Hin2).
  destruct (@init_run (Some ref) dims w) as [c1 Hc1]; [exact Hlen|].
  destruct (@init_run (Some ref) dims (advance dims w)) as [c2 Hc2]; [exact Hlen|].
  assert (Hrun : crossover point1 point2 w
                 = (Return
                      (Point.set_coordinates
                         (take (Z.to_nat (1 + Z.of_N (entropy w (dims + dims + cursor w)%nat)
                                              mod (Z.of_nat dims - 1 + 1)))
                               (Point.coordinates point1) ++
                          drop (Z.to_nat (1 + Z.of_N (entropy w (dims + dims + cursor w)%nat)
                                              mod (Z.of_nat dims - 1 + 1)))
                               (Point.coordinates point2)) c1,
                       Point.set_coordinates
                         (take (Z.to_nat (1 + Z.of_N (entropy w (dims + dims + cursor w)%nat)
                                              mod (Z.of_nat dims - 1 + 1)))
                               (Point.coordinates point2) ++
                          drop (Z.to_nat (1 + Z.of_N (entropy w (dims + dims + cursor w)%nat)
                                              mod (Z.of_nat dims - 1 + 1)))
                               (Point.coordinates point1)) c2),
                    advance (2 * dims + 1) w)).
  { unfold crossover, draw_splitpoint. rewrite Hap1, Hap2, Hl1, Hl2. simpl.
    rewrite Nat.eqb_refl. simpl.
    eapply bind_run_eq; [exact Hc1|].
    eapply bind_run_eq; [exact Hc2|].
    eapply bind_run_eq; [apply randint_run; lia|].
    unfold ret. rewrite !advance_advance. simpl.
    replace (dims + dims + cursor w)%nat with (dims + (dims + cursor w))%nat by lia.
    do 2 f_equal. unfold advance. f_equal. simpl. lia. }
  eexists. eexists. split; [exact Hrun|].
  assert (Hso1 : shape_ok ref dims point1) by (repeat split; assumption).
  assert (Hso2 : shape_ok ref dims point2) by (repeat split; assumption).
  destruct (@crossover_shape ref dims point1 point2 w _ _ Hord Hso1 Hso2 Hrun)
    as [Hk1 Hk2].
  split; [exact Hk1|]. split; [exact Hk2|].
  rewrite (@init_record _ _ _ _ _ Hc1), (@init_record _ _ _ _ _ Hc2).
  repeat constructor.
Qed.

Lemma crossover_of_members_witness :
  exists child1 child2,
    crossover (example_point 10 20 1 0) (example_point 30 40 0 1) half_world
      = (Return (child1, child2), advance (2 * 2 + 1) half_world) /\
    shape_ok example_ref 2 child1 /\ shape_ok example_ref 2 child2 /\
    Forall (fun child => Point.fitness child = 0%Q /\
                         Point.fitness_rank child = (-1)%Z /\
                         Point.diversity_rank child = (-1)%Z)
           [child1; child2].
Proof.
  assert (Hord : bounds_ordered (pop_boundaries example_ref))
    by apply (default_bounds_ordered 2).
  assert (Hin : forall x y, (0 <= x <= 100)%Q -> (0 <= y <= 100)%Q ->
                  forall r1 r2, shape_ok example_ref 2 (example_point x y r1 r2)).
  { intros x y Hx Hy r1 r2. repeat split.
    intros [|[|d]] c Hc; simpl in Hc; inversion Hc; subst c;
      eexists; (split; [reflexivity|]); simpl; tauto. }
  apply crossover_of_members.
  - exact Hord.
  - lia.
  - apply Hin; split; unfold Qle; simpl; lia.
  - apply Hin; split; unfold Qle; simpl; lia.
Defined.

(** ** best_estimate *)




(** ** converge *)

(** X13.  Generations compose: [converge(a + b)] is [converge(a)]
    followed by [converge(b)], whatever the outcome. *)
Theorem converge_add fuel a b :
  forall self w,
    Population.converge fuel (a + b) self w
    = (self <- Population.converge fuel a self ;; Population.converge fuel b self) w.
Proof.
  induction a as [|a IH]; intros self w; simpl.
  - reflexivity.
  - unfold bind.
    destruct (Population.iterate fuel self w) as [[self1| |] w1]; try reflexivity.
    rewrite IH. reflexivity.
Qed.

(** ** Population.__mutate *)

Lemma mutate_point_skipped self point w :
  (Population.mutation_probability self <= 0)%Q ->
  Population.mutate_point self point w = (Return (point, false), advance 1 w).
Proof.
  intros Hp. unfold Population.mutate_point.
  eapply bind_run_eq; [apply uniform_run|].
  destruct (unit_sample_range (entropy w (cursor w))) as [H0 _].
  replace (Qlt_bool _ _) with false; [reflexivity|].
  symmetry. apply Qlt_bool_false. lra.
Qed.

(** X14.  With mutation probability 0, [__mutate] leaves the population
    as it is, rank flags included, and calls the objective not at all;
    it still makes one draw per member. *)
Theorem population_mutate_probability_zero self w :
  (Population.mutation_probability self <= 0)%Q ->
  Population.mutate self w
  = (Return self, advance (length (Population.points self)) w).
Proof.
  intros Hp. unfold Population.mutate.
  assert (Hloop : forall pts w0,
            for_each (Population.mutate_point self) pts w0
            = (Return (map (fun point => (point, false)) pts), advance (length pts) w0)).
  { induction pts as [|point pts IH]; intros w0; simpl.
    - rewrite advance_0. reflexivity.
    - eapply bind_run_eq; [apply mutate_point_skipped, Hp|].
      eapply bind_run_eq; [apply IH|].
      unfold ret. rewrite advance_advance. do 2 f_equal. lia. }
  eapply bind_run_eq; [apply Hloop|].
  assert (Hfst : map fst (map (fun point : Point.t => (point, false)) (Population.points self))
                 = Population.points self).
  { rewrite map_map. simpl. apply map_id. }
  assert (Hsnd : forall pts : list Point.t,
            existsb snd (map (fun point : Point.t => (point, false)) pts) = false).
  { induction pts as [|point pts IH]; simpl; [reflexivity|exact IH]. }
  rewrite Hsnd, Hfst, population_set_points_same. reflexivity.
Qed.

Lemma population_mutate_probability_zero_witness :
  Population.mutate example_population half_world
  = (Return example_population,
     advance (length (Population.points example_population)) half_world).
Proof.
  apply population_mutate_probability_zero. unfold Qle. simpl. lia.
Defined.

(** ** Breeding: the whole generation *)

(** X15.  When every member is elite, [__breed] makes no draw: the new
    population is the old one in the order of fitness rank, each member
    evaluated again. *)
Theorem breed_all_elite fuel self w self' w' :
  Population.size self = length (Population.points self) ->
  Population.elite_population_size self = Population.size self ->
  Population.breed fuel self w = (Return self', w') ->
  let sorted := sort_by Population.by_fitness_rank (Population.points self) in
  Forall2 (evaluated_from (Population.objective_function self))
          sorted (Population.points self') /\
  w' = record_calls (map Point.coordinates sorted) w.
Proof.
  intros Hsize Helite H sorted.
  apply breed_inversion in H
    as (elite & weights & newpopulation & w1 & Hlen & Hel & Hloop & Hev & -> & _).
  fold sorted in Hel.
  assert (Hnew : newpopulation = elite /\ w1 = w).
  { destruct (Population.size self) as [|n] eqn:Hn; simpl in Hloop;
      rewrite Hn in Hloop;
      replace (length elite <? _)%nat with false in Hloop
        by (symmetry; apply Nat.ltb_ge; lia);
      apply ret_Return in Hloop as [<- <-]; auto. }
  destruct Hnew as [-> ->].
  assert (Hsorted : elite = sorted).
  { apply list_eq. intros i.
    destruct (elite !! i) as [old|] eqn:Hi.
    - symmetry. apply Hel, Hi.
    - symmetry. apply lookup_ge_None in Hi. apply lookup_ge_None.
      unfold sorted. rewrite sort_by_length. lia. }
  subst elite. auto.
Qed.

Lemma breed_all_elite_witness :
  exists self' w',
    Population.breed 0 all_elite_population half_world = (Return self', w') /\
    Forall2 (evaluated_from (Some example_objective))
            (sort_by Population.by_fitness_rank (Population.points all_elite_population))
            (Population.points self') /\
    w' = record_calls
           (map Point.coordinates
                (sort_by Population.by_fitness_rank (Population.points all_elite_population)))
           half_world.
Proof.
  let r := eval vm_compute in (Population.breed 0 all_elite_population half_world) in
  lazymatch r with
  | (Return ?s, ?w) =>
      exists s, w;
      assert (H : Population.breed 0 all_elite_population half_world = (Return s, w))
        by (vm_compute; reflexivity);
      split; [exact H|];
      exact (@breed_all_elite 0 all_elite_population half_world s w eq_refl eq_refl H)
  end.
Defined.

Lemma crossover_coordinates_from dims point1 point2 w children w' :
  length (Point.coordinates point1) = dims ->
  length (Point.coordinates point2) = dims ->
  crossover point1 point2 w = (Return children, w') ->
  coordinates_from [point1; point2] (fst children) /\
  coordinates_from [point1; point2] (snd children).
Proof.
  intros Hl1 Hl2 H.
  apply crossover_Return in H as (_ & k & w1 & Hk & _ & Hc1 & Hc2 & _).
  apply draw_splitpoint_Return in Hk.
  assert (Hsplice : forall a b : Point.t,
            length (Point.coordinates a) = dims ->
            length (Point.coordinates b) = dims ->
            forall d x,
              (take (Z.to_nat k) (Point.coordinates a) ++
               drop (Z.to_nat k) (Point.coordinates b)) !! d = Some x ->
              Point.coordinates a !! d = Some x \/ Point.coordinates b !! d = Some x).
  { intros a b Ha Hb d x Hx.
    destruct (Nat.lt_ge_cases d (length (take (Z.to_nat k) (Point.coordinates a))))
      as [Hlt|Hge].
    - rewrite lookup_app_l in Hx by exact Hlt.
      apply lookup_take_Some in Hx as [Hx _]. left. exact Hx.
    - rewrite lookup_app_r in Hx by exact Hge.
      rewrite lookup_drop, length_take in Hx. rewrite length_take in Hge.
      right. replace d with (Z.to_nat k + (d - Z.to_nat k `min` length (Point.coordinates a)))%nat
        at 1 by lia.
      exact Hx. }
  split; intros d x Hx.
  - rewrite Hc1 in Hx. destruct (Hsplice point1 point2 Hl1 Hl2 d x Hx) as [E|E];
      [exists point1|exists point2]; split; auto;
      auto using list_elem_of_here, list_elem_of_further.
  - rewrite Hc2 in Hx. destruct (Hsplice point2 point1 Hl2 Hl1 d x Hx) as [E|E];
      [exists point2|exists point1]; split; auto;
      auto using list_elem_of_here, list_elem_of_further.
Qed.

Lemma coordinates_from_member pts p : p ∈ pts -> coordinates_from pts p.
Proof. intros Hp d x Hx. eauto. Qed.

Lemma breed_loop_coordinates_from dims fuel budget self weights :
  Forall (fun p => length (Point.coordinates p) = dims) (Population.points self) ->
  forall newpopulation w r w',
    Forall (coordinates_from (Population.points self)) newpopulation ->
    Population.breed_loop fuel budget self weights newpopulation w = (Return r, w') ->
    Forall (coordinates_from (Population.points self)) r.
Proof.
  intros Hpts.
  induction budget as [|budget IH]; intros newpopulation w r w' Hnew H; simpl in H;
    destruct (length newpopulation <? Population.size self)%nat;
    try discriminate;
    try (apply ret_Return in H as [<- _]; exact Hnew).
  apply bind_Return in H as (parents & w1 & _ & H).
  apply bind_Return in H as (point1 & w2 & Hp1 & H).
  apply bind_Return in H as (point2 & w3 & Hp2 & H).
  apply bind_Return in H as (children & w4 & Hc & H).
  apply getitem_opt_Return in Hp1 as (j1 & _ & Hp1 & _).
  apply getitem_opt_Return in Hp2 as (j2 & _ & Hp2 & _).
  apply crossover_coordinates_from with (dims := dims) in Hc as [Hc1 Hc2];
    [| exact (Forall_lookup_1 _ _ _ _ Hpts Hp1)
     | exact (Forall_lookup_1 _ _ _ _ Hpts Hp2)].
  assert (Hlift : forall child, coordinates_from [point1; point2] child ->
                    coordinates_from (Population.points self) child).
  { intros child Hchild d x Hx. destruct (Hchild d x Hx) as (p & Hp & Hpx).
    exists p. split; [|exact Hpx].
    apply list_elem_of_lookup_2 in Hp1. apply list_elem_of_lookup_2 in Hp2.
    apply elem_of_cons in Hp as [->|Hp]; [exact Hp1|].
    apply list_elem_of_singleton in Hp. subst p. exact Hp2. }
  eapply IH; [|exact H].
  destruct (_ <? _)%nat; repeat (apply Forall_app; split); auto.
Qed.

(** X16.  Breeding recombines and never invents: when all members have
    the same number of coordinates, every coordinate of every member of
    the new population is the coordinate of a member of the old
    population in the same dimension. *)
Theorem breed_recombines_coordinates fuel self dims w self' w' :
  Forall (fun p => length (Point.coordinates p) = dims) (Population.points self) ->
  Population.breed fuel self w = (Return self', w') ->
  Forall (coordinates_from (Population.points self)) (Population.points self').
Proof.
  intros Hdims H.
  apply breed_inversion in H
    as (elite & weights & newpopulation & w1 & _ & Hel & Hloop & Hev & _ & _).
  set (sorted := sort_by Population.by_fitness_rank (Population.points self)) in *.
  assert (Hperm : Permutation sorted (Population.points self))
    by apply sort_by_Permutation.
  assert (Hsub : forall p', coordinates_from sorted p' ->
                   coordinates_from (Population.points self) p').
  { intros p' Hp' d x Hx. destruct (Hp' d x Hx) as (p & Hp & Hpx).
    exists p. split; [|exact Hpx]. rewrite <- Hperm. exact Hp. }
  apply breed_loop_coordinates_from with (dims := dims) in Hloop; simpl.
  - simpl in Hloop.
    apply evaluated_from_coordinates in Hev.
    apply Forall_forall. intros p' Hp'.
    apply list_elem_of_lookup_1 in Hp' as [i Hi].
    assert (Hc : map Point.coordinates (Population.points self') !! i
                 = Some (Point.coordinates p')) by (rewrite lookup_map, Hi; reflexivity).
    rewrite Hev, lookup_map in Hc.
    destruct (newpopulation !! i) as [n|] eqn:Hn; [|discriminate].
    simpl in Hc. inversion Hc as [Hcoords].
    apply Hsub. intros d x Hx. rewrite <- Hcoords in Hx.
    exact (Forall_lookup_1 _ _ _ _ Hloop Hn d x Hx).
  - simpl. rewrite Hperm. exact Hdims.
  - simpl. apply Forall_lookup_2. intros i old Hi.
    apply coordinates_from_member. eapply list_elem_of_lookup_2, Hel, Hi.
Qed.

Lemma breed_recombines_coordinates_witness :
  exists self' w',
    Population.breed 3 example_population breed_world = (Return self', w') /\
    Forall (coordinates_from (Population.points example_population))
           (Population.points self').
Proof.
  let r := eval vm_compute in (Population.breed 3 example_population breed_world) in
  lazymatch r with
  | (Return ?s, ?w) =>
      exists s, w;
      assert (H : Population.breed 3 example_population breed_world = (Return s, w))
        by (vm_compute; reflexivity);
      split; [exact H|];
      apply (@breed_recombines_coordinates 3 example_population 2 breed_world s w);
        [repeat constructor|exact H]
  end.
Defined.

(** ** The ranking passes in detail *)

(** X17.  The fitness pass sorts: on a population whose [size] is its
    number of members, it leaves the members in order of descending
    fitness, each with its position as [fitness_rank]; it keeps their
    coordinates and fitness, stores the mean fitness, and neither draws
    nor calls the objective. *)
Theorem fitness_ranking_sorts_members self w self' w' :
  Population.evaluated_fitness_ranks self = false ->
  Population.size self = length (Population.points self) ->
  Population.evaluate_fitness_ranks self w = (Return self', w') ->
  w' = w /\
  Population.mean_fitness self'
    = (np_sum (map Point.fitness (Population.points self))
       / inject_Z (Z.of_nat (Population.size self)))%Q /\
  Permutation (map (fun p => (Point.coordinates p, Point.fitness p))
                   (Population.points self'))
              (map (fun p => (Point.coordinates p, Point.fitness p))
                   (Population.points self)) /\
  forall i p, Population.points self' !! i = Some p ->
    Point.fitness_rank p = Z.of_nat i /\
    forall j q, (i <= j)%nat -> Population.points self' !! j = Some q ->
      (Point.fitness q <= Point.fitness p)%Q.
Proof.
  intros Hflag Hsize. unfold Population.evaluate_fitness_ranks. rewrite Hflag.
  intros H.
  apply bind_Return in H as (mean & w1 & Hmean & H).
  pose proof Hmean as Hn. apply py_div_Return in Hn as [Hn ->].
  rewrite py_div_run in Hmean by exact Hn. inversion Hmean; subst mean. clear Hmean.
  apply bind_Return in H as (r & w2 & Hr & H).
  apply assign_ranks_Return in Hr as (Hle & -> & ->).
  apply ret_Return in H as [<- <-]. simpl.
  split; [reflexivity|]. split; [reflexivity|]. split.
  - rewrite rank_prefix_keeps by reflexivity.
    apply Permutation_map, sort_by_Permutation.
  - set (sorted := sort_by Population.by_fitness_desc (Population.points self)) in *.
    assert (Hlookup : forall i p,
              rank_prefix Point.set_fitness_rank (Population.size self) sorted !! i = Some p ->
              exists p0, sorted !! i = Some p0 /\
                         p = Point.set_fitness_rank (Z.of_nat i) p0).
    { intros i p Hp. rewrite rank_prefix_lookup in Hp.
      destruct (sorted !! i) as [p0|] eqn:Hp0; [|discriminate].
      simpl in Hp.
      assert (Hi : (i < Population.size self)%nat).
      { apply lookup_lt_Some in Hp0. unfold sorted in Hp0.
        rewrite sort_by_length in Hp0. lia. }
      apply Nat.ltb_lt in Hi. rewrite Hi in Hp. inversion Hp. eauto. }
    intros i p Hp. destruct (Hlookup i p Hp) as (p0 & Hp0 & ->).
    split; [reflexivity|].
    intros j q Hij Hq. destruct (Hlookup j q Hq) as (q0 & Hq0 & ->). simpl.
    apply Qle_bool_iff.
    change (Population.by_fitness_desc p0 q0 = true).
    apply (sort_by_lookup_le Population.by_fitness_desc
             (@before_total Point.fitness) (@before_trans Point.fitness)
             (Population.points self) (i := i) (j := j)); auto.
    apply (@before_refl Point.fitness).
Qed.

Lemma fitness_ranking_sorts_members_witness :
  exists self',
    Population.evaluate_fitness_ranks unranked_population half_world
      = (Return self', half_world) /\
    Population.mean_fitness self'
      = (np_sum (map Point.fitness (Population.points unranked_population))
         / inject_Z (Z.of_nat (Population.size unranked_population)))%Q /\
    forall i p, Population.points self' !! i = Some p ->
      Point.fitness_rank p = Z.of_nat i /\
      forall j q, (i <= j)%nat -> Population.points self' !! j = Some q ->
        (Point.fitness q <= Point.fitness p)%Q.
Proof.
  let r := eval vm_compute in
             (Population.evaluate_fitness_ranks unranked_population half_world) in
  lazymatch r with
  | (Return ?s, ?w) =>
      exists s;
      assert (H : Population.evaluate_fitness_ranks unranked_population half_world
                  = (Return s, half_world)) by (vm_compute; reflexivity);
      destruct (@fitness_ranking_sorts_members unranked_population half_world s
                  half_world eq_refl eq_refl H) as (_ & Hmean & _ & Hsorted)
  end.
  split; [exact H|]. split; [exact Hmean|exact Hsorted].
Defined.

Lemma zip_with_Q_lookup op (a b : list Q) d :
  zip_with_Q op a b !! d
  = match a !! d, b !! d with
    | Some x, Some y => Some (op x y)
    | _, _ => None
    end.
Proof.
  revert b d. induction a as [|x a IH]; intros [|y b] [|d]; simpl; try reflexivity.
  - destruct (a !! d); reflexivity.
  - apply IH.
Qed.

Lemma zip_with_Q_length op (a b : list Q) :
  length a = length b -> length (zip_with_Q op a b) = length a.
Proof.
  revert b. induction a as [|x a IH]; intros [|y b] H; simpl in *; try lia.
  rewrite IH by lia. reflexivity.
Qed.

Lemma list_as_nth (l : list Q) : l = map (fun d => nth d l 0%Q) (seq 0 (length l)).
Proof.
  apply list_eq. intros i. rewrite lookup_map.
  destruct (l !! i) as [x|] eqn:Hx.
  - rewrite (proj2 (lookup_seq 0 (length l) i i)) by (apply lookup_lt_Some in Hx; lia).
    simpl. f_equal. symmetry. apply nth_lookup_Some with (d := 0%Q) in Hx. exact Hx.
  - apply lookup_ge_None in Hx.
    rewrite (proj2 (lookup_ge_None (seq 0 (length l)) i)) by (rewrite length_seq; lia).
    reflexivity.
Qed.

Lemma sum_arrays_run dims (vs : list (list Q)) :
  forall acc w,
    length acc = dims -> Forall (fun v => length v = dims) vs ->
    fold_m (np_binop Qplus) (map Array vs) (Array acc) w
    = (Return (Array (map (fun d => fold_left Qplus (map (fun v => nth d v 0%Q) vs)
                                              (nth d acc 0%Q))
                          (seq 0 dims))), w).
Proof.
  induction vs as [|v vs IH]; intros acc w Hacc Hvs; simpl.
  - subst dims. rewrite <- list_as_nth. reflexivity.
  - inversion Hvs as [|? ? Hv Hrest]; subst.
    eapply bind_run_eq.
    { unfold np_binop. rewrite Hv, Nat.eqb_refl. reflexivity. }
    rewrite IH by (auto; rewrite zip_with_Q_length; congruence).
    do 3 f_equal. apply map_ext_in. intros d Hd. apply in_seq in Hd.
    f_equal.
    destruct (lookup_lt_is_Some_2 acc d) as [x Hx]; [lia|].
    destruct (lookup_lt_is_Some_2 v d) as [y Hy]; [lia|].
    rewrite (nth_lookup_Some _ _ 0%Q _ Hx), (nth_lookup_Some _ _ 0%Q _ Hy).
    apply nth_lookup_Some. rewrite zip_with_Q_lookup, Hx, Hy. reflexivity.
Qed.

Lemma py_sum_coordinates dims (pts : list Point.t) w :
  pts <> [] ->
  Forall (fun p => length (Point.coordinates p) = dims) pts ->
  py_sum (map (fun point => Array (Point.coordinates point)) pts) w
  = (Return (Array (map (fun d => np_sum (column d pts)) (seq 0 dims))), w).
Proof.
  intros Hne Hpts. destruct pts as [|p pts]; [congruence|].
  inversion Hpts as [|? ? Hp Hrest]; subst.
  unfold py_sum. simpl.
  eapply bind_run_eq; [reflexivity|].
  rewrite <- (map_map Point.coordinates Array).
  rewrite sum_arrays_run with (dims := length (Point.coordinates p)).
  - do 3 f_equal. apply map_ext_in. intros d Hd. apply in_seq in Hd.
    unfold np_sum, column. simpl. rewrite map_map. f_equal.
    destruct (lookup_lt_is_Some_2 (Point.coordinates p) d) as [x Hx]; [lia|].
    rewrite (nth_lookup_Some _ _ 0%Q _ Hx).
    apply nth_lookup_Some. rewrite lookup_map, Hx. reflexivity.
  - apply length_map.
  - apply Forall_map. exact Hrest.
Qed.

Lemma for_each_map_run {A B} (f : A -> M B) (g : A -> B) (l : list A) w :
  (forall x w0, x ∈ l -> f x w0 = (Return (g x), w0)) ->
  for_each f l w = (Return (map g l), w).
Proof.
  induction l as [|x l IH]; intros H; simpl; [reflexivity|].
  eapply bind_run_eq; [apply H, list_elem_of_here|].
  eapply bind_run_eq; [apply IH; intros; apply H, list_elem_of_further; assumption|].
  reflexivity.
Qed.

Lemma true_divide_array_run (v : list Q) n w :
  n <> 0%nat ->
  true_divide (Array v) n w
  = (Return (Array (map (fun x => (x / inject_Z (Z.of_nat n))%Q) v)), w).
Proof. destruct n; [congruence|reflexivity]. Qed.

Lemma centroid_length dims size pts : length (centroid dims size pts) = dims.
Proof. unfold centroid. rewrite length_map, length_seq. reflexivity. Qed.

(** The diversity pass, run forward. *)
Lemma evaluate_diversity_ranks_run self dims w :
  Population.evaluated_diversity_ranks self = false ->
  (1 <= Population.size self <= length (Population.points self))%nat ->
  Forall (fun p => length (Point.coordinates p) = dims) (Population.points self) ->
  let mean := centroid dims (Population.size self) (Population.points self) in
  let measured :=
    map (fun p => Point.set_diversity (l1_distance (Point.coordinates p) mean) p)
        (Population.points self) in
  Population.evaluate_diversity_ranks self w
  = (Return (Population.set_diversity_ranked
               (rank_prefix Point.set_diversity_rank (Population.size self)
                            (sort_by Population.by_diversity_desc measured))
               (Array mean)
               (np_sum (map Point.diversity measured)
                / inject_Z (Z.of_nat (Population.size self)))%Q
               self), w).
Proof.
  intros Hflag Hsize Hdims mean measured.
  unfold Population.evaluate_diversity_ranks. rewrite Hflag.
  assert (Hne : Population.points self <> []).
  { intros E. rewrite E in Hsize. simpl in Hsize. lia. }
  eapply bind_run_eq; [apply py_sum_coordinates with (dims := dims); assumption|].
  eapply bind_run_eq; [apply true_divide_array_run; lia|].
  rewrite map_map.
  fold (centroid dims (Population.size self) (Population.points self)). fold mean.
  eapply bind_run_eq.
  { apply for_each_map_run with
      (g := fun p => Point.set_diversity (l1_distance (Point.coordinates p) mean) p).
    intros p w0 Hp.
    assert (Hsub : np_binop Qminus (Array (Point.coordinates p)) (Array mean) w0
                   = (Return (Array (zip_with_Q Qminus (Point.coordinates p) mean)), w0)).
    { unfold np_binop.
      rewrite (proj1 (Forall_forall _ _) Hdims p Hp).
      unfold mean. rewrite centroid_length, Nat.eqb_refl. reflexivity. }
    eapply bind_run_eq; [exact Hsub|]. reflexivity. }
  fold measured.
  eapply bind_run_eq; [apply py_div_run; lia|].
  eapply bind_run_eq.
  { apply assign_ranks_run. rewrite sort_by_length. unfold measured.
    rewrite length_map. lia. }
  reflexivity.
Qed.

(** X18.  The diversity of a member is its L1 distance from the
    centroid.  On a population of at least one member, all with as many
    coordinates, the diversity pass always returns, without a draw or a
    call: [mean_coordinates] is the mean of the members in each
    dimension, each member's diversity is the sum of the absolute
    differences of its coordinates from it, and the members are left in
    order of descending diversity with their position as
    [diversity_rank]. *)
Theorem diversity_is_distance_from_centroid self dims w :
  Population.evaluated_diversity_ranks self = false ->
  (1 <= Population.size self)%nat ->
  Population.size self = length (Population.points self) ->
  Forall (fun p => length (Point.coordinates p) = dims) (Population.points self) ->
  let mean := centroid dims (Population.size self) (Population.points self) in
  exists self',
    Population.evaluate_diversity_ranks self w = (Return self', w) /\
    Population.mean_coordinates self' = Array mean /\
    Permutation (map Point.coordinates (Population.points self'))
                (map Point.coordinates (Population.points self)) /\
    forall i p, Population.points self' !! i = Some p ->
      Point.diversity p = l1_distance (Point.coordinates p) mean /\
      Point.diversity_rank p = Z.of_nat i /\
      forall j q, (i <= j)%nat -> Population.points self' !! j = Some q ->
        (Point.diversity q <= Point.diversity p)%Q.
Proof.
  intros Hflag Hpos Hsize Hdims mean.
  eexists. split; [apply evaluate_diversity_ranks_run with (dims := dims); auto; lia|].
  fold mean. simpl.
  set (measured := map (fun p => Point.set_diversity
                                   (l1_distance (Point.coordinates p) mean) p)
                       (Population.points self)).
  set (sorted := sort_by Population.by_diversity_desc measured).
  split; [reflexivity|]. split.
  - rewrite rank_prefix_keeps by reflexivity.
    unfold sorted. rewrite sort_by_Permutation. unfold measured.
    rewrite map_map. simpl. reflexivity.
  - assert (Hmeasured : forall p0, p0 ∈ sorted ->
              Point.diversity p0 = l1_distance (Point.coordinates p0) mean).
    { intros p0 Hp0. unfold sorted in Hp0. rewrite sort_by_Permutation in Hp0.
      unfold measured in Hp0. apply list_elem_of_In, in_map_iff in Hp0 as (p1 & <- & _).
      reflexivity. }
    assert (Hlookup : forall i p,
              rank_prefix Point.set_diversity_rank (Population.size self) sorted !! i = Some p ->
              exists p0, sorted !! i = Some p0 /\
                         p = Point.set_diversity_rank (Z.of_nat i) p0).
    { intros i p Hp. rewrite rank_prefix_lookup in Hp.
      destruct (sorted !! i) as [p0|] eqn:Hp0; [|discriminate].
      simpl in Hp.
      assert (Hi : (i < Population.size self)%nat).
      { apply lookup_lt_Some in Hp0. unfold sorted, measured in Hp0.
        rewrite sort_by_length, length_map in Hp0. lia. }
      apply Nat.ltb_lt in Hi. rewrite Hi in Hp. inversion Hp. eauto. }
    intros i p Hp. destruct (Hlookup i p Hp) as (p0 & Hp0 & ->). simpl.
    split; [apply Hmeasured; eapply list_elem_of_lookup_2, Hp0|].
    split; [reflexivity|].
    intros j q Hij Hq. destruct (Hlookup j q Hq) as (q0 & Hq0 & ->). simpl.
    apply Qle_bool_iff.
    change (Population.by_diversity_desc p0 q0 = true).
    apply (sort_by_lookup_le Population.by_diversity_desc
             (@before_total Point.diversity) (@before_trans Point.diversity)
             measured (i := i) (j := j)); auto.
    apply (@before_refl Point.diversity).
Qed.

Lemma diversity_is_distance_from_centroid_witness :
  exists self',
    Population.evaluate_diversity_ranks unranked_population half_world
      = (Return self', half_world) /\
    Population.mean_coordinates self'
      = Array (centroid 2 2 (Population.points unranked_population)) /\
    map Point.diversity_rank (Population.points self') = [0; 1]%Z.
Proof.
  destruct (@diversity_is_distance_from_centroid unranked_population 2 half_world)
    as (self' & Hrun & Hmean & _ & Hall).
  - reflexivity.
  - simpl. lia.
  - reflexivity.
  - repeat constructor.
  - exists self'. split; [exact Hrun|]. split; [exact Hmean|].
    assert (Hlen : length (Population.points self') = 2%nat).
    { vm_compute in Hrun. inversion Hrun. reflexivity. }
    destruct (Population.points self') as [|p [|q [|r l]]]; try discriminate.
    destruct (Hall 0%nat p eq_refl) as (_ & Hp & _).
    destruct (Hall 1%nat q eq_refl) as (_ & Hq & _).
    simpl. rewrite Hp, Hq. reflexivity.
Defined.

(** ** Population.__init__ *)

Lemma init_checks_pass elite_fraction mutation_probability verbose :
  valid_configuration elite_fraction mutation_probability verbose ->
  Qlt_bool 1 elite_fraction || Qlt_bool elite_fraction 0 = false /\
  Qlt_bool 1 mutation_probability || Qlt_bool mutation_probability 0 = false /\
  negb (existsb (Z.eqb verbose) [0; 1; 2]%Z) = false.
Proof.
  intros (He0 & He1 & Hm0 & Hm1 & Hv).
  split; [|split].
  - apply orb_false_iff. split; apply Qlt_bool_false; assumption.
  - apply orb_false_iff. split; apply Qlt_bool_false; assumption.
  - destruct Hv as [->|[->| ->]]; reflexivity.
Qed.

Lemma check_bounds_run (bs : list (Q * Q)) w :
  bounds_ordered bs ->
  for_each (fun b : Q * Q =>
              if Qlt_bool (snd b) (fst b)
              then raise (ValueError "Incorrect value for boundary - min greater than max for range.")
              else ret tt) bs w
  = (Return (map (fun _ => tt) bs), w).
Proof.
  intros Hord. apply for_each_map_run. intros b w0 Hb.
  apply list_elem_of_lookup_1 in Hb as [d Hd].
  replace (Qlt_bool (snd b) (fst b)) with false; [reflexivity|].
  symmetry. apply Qlt_bool_false. eapply Hord, Hd.
Qed.

Lemma check_bounds_raise (bs : list (Q * Q)) w :
  inverted bs ->
  for_each (fun b : Q * Q =>
              if Qlt_bool (snd b) (fst b)
              then raise (ValueError "Incorrect value for boundary - min greater than max for range.")
              else ret tt) bs w
  = (Raise (ValueError "Incorrect value for boundary - min greater than max for range."), w).
Proof.
  intros (d & b & Hd & Hb). revert d Hd.
  induction bs as [|x bs IH]; intros d Hd; [discriminate|]. simpl.
  destruct (Qlt_bool (snd x) (fst x)) eqn:E.
  - reflexivity.
  - apply Qlt_bool_false in E.
    destruct d as [|d]; simpl in Hd.
    + inversion Hd; subst x. lra.
    + eapply bind_run_eq; [reflexivity|].
      apply bind_raise_eq. eapply IH, Hd.
Qed.

Lemma created_points_world ref dims n :
  forall start w pts w',
    for_each (fun pointnumber =>
                point <- Point.init (Some ref) dims ;;
                ret (Point.set_index (Z.of_nat pointnumber) point))
             (seq start n) w = (Return pts, w') ->
    w' = advance (n * dims) w.
Proof.
  induction n as [|n IH]; intros start w pts w' H; simpl in H.
  - apply ret_Return in H as [_ <-]. symmetry. apply advance_0.
  - apply bind_Return in H as (p & w1 & Hp & H).
    apply bind_Return in Hp as (q & w2 & Hq & Hp).
    apply ret_Return in Hp as [_ <-].
    apply init_world in Hq. subst w2.
    apply bind_Return in H as (ps & w3 & Hps & H).
    apply ret_Return in H as [_ <-].
    apply IH in Hps. subst w3. rewrite advance_advance. f_equal. simpl. lia.
Qed.

Lemma created_points_run ref dims n :
  (dims <= length (pop_boundaries ref))%nat ->
  forall start w,
    exists pts,
      for_each (fun pointnumber =>
                  point <- Point.init (Some ref) dims ;;
                  ret (Point.set_index (Z.of_nat pointnumber) point))
               (seq start n) w = (Return pts, advance (n * dims) w).
Proof.
  intros Hlen. induction n as [|n IH]; intros start w; simpl.
  - exists []. rewrite advance_0. reflexivity.
  - destruct (@init_run (Some ref) dims w Hlen) as [p Hp].
    destruct (IH (S start) (advance dims w)) as [ps Hps].
    eexists. eapply bind_run_eq.
    { eapply bind_run_eq; [exact Hp|reflexivity]. }
    eapply bind_run_eq; [exact Hps|].
    unfold ret. rewrite advance_advance. do 2 f_equal. lia.
Qed.

Lemma evaluate_sequentially_run f pts :
  Forall (fun p => objective_at f (Point.coordinates p) <> None) pts ->
  forall w, exists evaluated,
    for_each (fun point => Point.evaluate_fitness point f) pts w
    = (Return evaluated, record_calls (map Point.coordinates pts) w).
Proof.
  induction 1 as [|p pts Hp _ IH]; intros w; simpl.
  - exists []. rewrite record_calls_nil. reflexivity.
  - destruct (objective_at f (Point.coordinates p)) as [v|] eqn:Hv; [|congruence].
    destruct (IH (record_calls [Point.coordinates p] w)) as [es Hes].
    eexists. eapply bind_run_eq.
    { unfold Point.evaluate_fitness.
      eapply bind_run_eq; [apply py_call_run, Hv|reflexivity]. }
    eapply bind_run_eq; [exact Hes|].
    unfold ret. rewrite record_calls_app. reflexivity.
Qed.

Lemma pool_map_run f pts :
  Forall (fun p => objective_at f (Point.coordinates p) <> None) pts ->
  forall w, exists fitnesses,
    length fitnesses = length pts /\
    for_each (fun point => py_call f (Point.coordinates point)) pts w
    = (Return fitnesses, record_calls (map Point.coordinates pts) w).
Proof.
  induction 1 as [|p pts Hp _ IH]; intros w; simpl.
  - exists []. rewrite record_calls_nil. split; reflexivity.
  - destruct (objective_at f (Point.coordinates p)) as [v|] eqn:Hv; [|congruence].
    destruct (IH (record_calls [Point.coordinates p] w)) as (vs & Hlen & Hvs).
    exists (v :: vs). split; [simpl; congruence|].
    eapply bind_run_eq; [apply py_call_run, Hv|].
    eapply bind_run_eq; [exact Hvs|].
    unfold ret. rewrite record_calls_app. reflexivity.
Qed.

Lemma assign_fitnesses_run (fitnesses : list Q) (pts : list Point.t) :
  forall start w,
    (start + length pts <= length fitnesses)%nat ->
    exists evaluated,
      for_each (fun ip : nat * Point.t =>
                  v <- getitem fitnesses (fst ip) ;;
                  ret (Point.set_fitness v (snd ip)))
               (combine (seq start (length pts)) pts) w
      = (Return evaluated, w).
Proof.
  induction pts as [|p pts IH]; intros start w Hlen; simpl.
  - exists []. reflexivity.
  - simpl in Hlen.
    destruct (lookup_lt_is_Some_2 fitnesses start) as [v Hv]; [lia|].
    destruct (IH (S start) w) as [es Hes]; [lia|].
    eexists. eapply bind_run_eq.
    { eapply bind_run_eq; [apply getitem_run, Hv|reflexivity]. }
    eapply bind_run_eq; [exact Hes|]. reflexivity.
Qed.

Lemma evaluate_points_run self pts w :
  length pts = Population.size self ->
  Forall (fun p => objective_at (Population.objective_function self)
                                (Point.coordinates p) <> None) pts ->
  exists evaluated,
    Population.evaluate_points self pts w
    = (Return evaluated, record_calls (map Point.coordinates pts) w).
Proof.
  intros Hsize Hdef. unfold Population.evaluate_points.
  destruct (Population.multiprocessing self).
  - rewrite take_ge by lia.
    destruct (@pool_map_run _ pts Hdef w) as (fitnesses & Hlen & Hf).
    destruct (@assign_fitnesses_run fitnesses pts 0%nat
                (record_calls (map Point.coordinates pts) w)) as [es Hes]; [lia|].
    exists es. eapply bind_run_eq; [exact Hf|]. exact Hes.
  - apply evaluate_sequentially_run, Hdef.
Qed.

Lemma evaluate_diversity_ranks_world self dims w self' w' :
  Population.evaluated_diversity_ranks self = false ->
  (1 <= Population.size self <= length (Population.points self))%nat ->
  Forall (fun p => length (Point.coordinates p) = dims) (Population.points self) ->
  Population.evaluate_diversity_ranks self w = (Return self', w') ->
  w' = w /\
  Permutation (map Point.coordinates (Population.points self'))
              (map Point.coordinates (Population.points self)) /\
  configuration self' = configuration self.
Proof.
  intros Hflag Hsize Hdims H.
  rewrite (@evaluate_diversity_ranks_run self dims w Hflag Hsize Hdims) in H.
  inversion H; subst. clear H. split; [reflexivity|]. split; [|reflexivity].
  simpl. rewrite rank_prefix_keeps by reflexivity.
  rewrite sort_by_Permutation, map_map. simpl. reflexivity.
Qed.

(** What a returning [Population.__init__] has done. *)
Lemma init_inversion objective_function dimensions population_size boundaries
    elite_fraction mutation_probability mutation_range verbose multiprocessing
    w self w' :
  Population.init objective_function dimensions population_size boundaries
                  elite_fraction mutation_probability mutation_range verbose
                  multiprocessing w = (Return self, w') ->
  exists dims created,
    resolved_dimensions objective_function dimensions = Some dims /\
    configuration self
    = (next_id w, dims, population_size, objective_function,
       Z.to_nat (py_int (elite_fraction * inject_Z (Z.of_nat population_size))),
       mutation_probability, mutation_range, padded_boundaries boundaries dims,
       verbose, multiprocessing) /\
    (1 <= population_size)%nat /\
    length created = population_size /\
    Permutation (map Point.coordinates (Population.points self))
                (map Point.coordinates created) /\
    w' = record_calls (map Point.coordinates created)
                      (advance (population_size * dims) (take_identity w)).
Proof.
  unfold Population.init. intros H.
  destruct (Qlt_bool 1 elite_fraction || Qlt_bool elite_fraction 0) eqn:E1;
    [discriminate|].
  destruct (Qlt_bool 1 mutation_probability || Qlt_bool mutation_probability 0);
    [discriminate|].
  destruct (negb (existsb (Z.eqb verbose) [0; 1; 2]%Z)); [discriminate|].
  apply bind_Return in H as (num_dimensions & w1 & Hdims & H).
  apply bind_Return in H as (bs & w2 & Hbs & H).
  apply bind_Return in H as (ident & w3 & Hid & H).
  apply bind_Return in H as (created & w4 & Hcreated & H).
  apply bind_Return in H as (evaluated & w5 & Hev & H).
  apply bind_Return in H as (self1 & w6 & Hf & H).
  assert (Hres : resolved_dimensions objective_function dimensions = Some num_dimensions
                 /\ w1 = w).
  { destruct dimensions as [d|]; simpl.
    - apply ret_Return in Hdims as [<- <-]. auto.
    - destruct objective_function as [f|]; [|discriminate].
      apply ret_Return in Hdims as [<- <-]. auto. }
  destruct Hres as [Hres ->].
  assert (Hbounds : bs = padded_boundaries boundaries num_dimensions /\ w2 = w /\
                    bounds_ordered bs).
  { destruct boundaries as [given|]; simpl.
    - apply bind_Return in Hbs as (u & wa & Hcheck & Hbs).
      apply ret_Return in Hbs as [<- <-].
      apply checked_bounds_ordered in Hcheck as [Hcheck ->]. auto.
    - apply ret_Return in Hbs as [<- <-].
      split; [reflexivity|]. split; [reflexivity|]. apply default_bounds_ordered. }
  destruct Hbounds as (-> & -> & Hord).
  inversion Hid; subst ident w3. clear Hid.
  fold (take_identity w) in *.
  pose proof Hcreated as Hw4. apply created_points_world in Hw4. subst w4.
  apply created_points_shape in Hcreated as [Hn Hshape]; [|exact Hord].
  apply evaluate_points_Return in Hev as [Hev ->].
  pose proof (evaluated_from_coordinates Hev) as Hcoords.
  assert (Hlen : length evaluated = population_size).
  { rewrite <- Hn. symmetry. eapply Forall2_length, Hev. }
  apply evaluate_fitness_ranks_Return in Hf as (Hsize & -> & mean & ->);
    [|reflexivity].
  simpl in Hsize.
  apply evaluate_diversity_ranks_world with (dims := num_dimensions) in H
    as (-> & Hperm & Hconf).
  - exists num_dimensions, created.
    split; [exact Hres|]. split; [rewrite Hconf; reflexivity|].
    split; [lia|]. split; [exact Hn|]. split; [|reflexivity].
    rewrite Hperm. simpl. rewrite rank_prefix_keeps by reflexivity.
    rewrite sort_by_Permutation, Hcoords. reflexivity.
  - reflexivity.
  - simpl. rewrite rank_prefix_length, sort_by_length. lia.
  - simpl. apply Forall_rank_prefix; [auto|]. apply Forall_sort_by.
    apply Forall_forall. intros e He.
    apply list_elem_of_lookup_1 in He as [i Hi].
    destruct (Forall2_lookup_r _ _ _ _ _ Hev Hi) as (p & Hp & v & _ & ->).
    simpl. exact (proj1 (proj2 (proj2 (proj2 (Forall_lookup_1 _ _ _ _ Hshape Hp))))).
Qed.

(** X19.  A [Population] that [__init__] returns is well formed.  Its
    dimensions are the argument [dimensions], or the objective's
    argument count when that is omitted; its boundaries are the given
    ones padded with (0, 100) up to that number; its elite size is
    [int(elite_fraction * population_size)]; it has [population_size]
    members, at least one, all within the boundaries and with their
    fitness the objective at their coordinates; and both rankings are in
    place. *)
Theorem population_init_result objective_function dimensions population_size
    boundaries elite_fraction mutation_probability mutation_range verbose
    multiprocessing w self w' :
  Population.init objective_function dimensions population_size boundaries
                  elite_fraction mutation_probability mutation_range verbose
                  multiprocessing w = (Return self, w') ->
  exists dims,
    resolved_dimensions objective_function dimensions = Some dims /\
    configuration self
    = (next_id w, dims, population_size, objective_function,
       Z.to_nat (py_int (elite_fraction * inject_Z (Z.of_nat population_size))),
       mutation_probability, mutation_range, padded_boundaries boundaries dims,
       verbose, multiprocessing) /\
    (1 <= population_size)%nat /\
    population_ok self /\
    Population.evaluated_fitness_ranks self = true /\
    Population.evaluated_diversity_ranks self = true /\
    Population.num_iterations self = 1%nat.
Proof.
  intros H.
  pose proof H as Hinv.
  apply init_inversion in Hinv as (dims & created & Hres & Hconf & Hpos & _).
  apply init_establishes in H as (Hok & Hf & Hd & _ & _ & Hn).
  exists dims. split_and!; assumption.
Qed.

Lemma population_init_result_witness :
  exists self w',
    Population.init (Some example_objective) None 4 None (1 # 2) (1 # 2) 5 0 false
                    minimize_world = (Return self, w') /\
    Population.num_dimensions self = 2%nat /\
    Population.elite_population_size self = 2%nat /\
    Population.boundaries self = [(0, 100); (0, 100)]%Q /\
    population_ok self.
Proof.
  let r := eval vm_compute in
             (Population.init (Some example_objective) None 4 None (1 # 2) (1 # 2) 5 0
                              false minimize_world) in
  lazymatch r with
  | (Return ?s, ?w) =>
      exists s, w;
      assert (H : Population.init (Some example_objective) None 4 None (1 # 2) (1 # 2)
                                  5 0 false minimize_world = (Return s, w))
        by (vm_compute; reflexivity);
      destruct (@population_init_result _ _ _ _ _ _ _ _ _ _ _ _ H)
        as (dims & Hres & Hconf & _ & Hok & _)
  end.
  split; [exact H|]. inversion Hres; subst dims. inversion Hconf.
  split_and!; try reflexivity. exact Hok.
Defined.

(** X20.  What [__init__] costs: one draw per coordinate of each member,
    one identity, and one call of the objective per member, at the
    coordinates of the members. *)
Theorem population_init_cost objective_function dimensions population_size
    boundaries elite_fraction mutation_probability mutation_range verbose
    multiprocessing w self w' :
  Population.init objective_function dimensions population_size boundaries
                  elite_fraction mutation_probability mutation_range verbose
                  multiprocessing w = (Return self, w') ->
  exists dims arguments,
    resolved_dimensions objective_function dimensions = Some dims /\
    entropy w' = entropy w /\
    cursor w' = (population_size * dims + cursor w)%nat /\
    next_id w' = S (next_id w) /\
    calls w' = calls w ++ arguments /\
    length arguments = population_size /\
    Permutation (map Point.coordinates (Population.points self)) arguments.
Proof.
  intros H.
  apply init_inversion in H as (dims & created & Hres & _ & _ & Hn & Hperm & ->).
  exists dims, (map Point.coordinates created).
  split; [exact Hres|]. simpl. split_and!; try reflexivity.
  - rewrite length_map. exact Hn.
  - exact Hperm.
Qed.

Lemma population_init_cost_witness :
  exists self w' arguments,
    Population.init (Some example_objective) None 4 None (1 # 2) (1 # 2) 5 0 false
                    minimize_world = (Return self, w') /\
    cursor w' = (4 * 2 + cursor minimize_world)%nat /\
    calls w' = calls minimize_world ++ arguments /\
    length arguments = 4%nat /\
    Permutation (map Point.coordinates (Population.points self)) arguments.
Proof.
  let r := eval vm_compute in
             (Population.init (Some example_objective) None 4 None (1 # 2) (1 # 2) 5 0
                              false minimize_world) in
  lazymatch r with
  | (Return ?s, ?w) =>
      exists s, w;
      assert (H : Population.init (Some example_objective) None 4 None (1 # 2) (1 # 2)
                                  5 0 false minimize_world = (Return s, w))
        by (vm_compute; reflexivity);
      destruct (@population_init_cost _ _ _ _ _ _ _ _ _ _ _ _ H)
        as (dims & arguments & Hres & _ & Hcursor & _ & Hcalls & Hlen & Hperm)
  end.
  exists arguments. inversion Hres; subst dims.
  split; [exact H|]. split_and!; assumption.
Defined.

Lemma init_prefix_run objective_function dimensions population_size boundaries
    elite_fraction mutation_probability mutation_range verbose multiprocessing
    dims w :
  valid_configuration elite_fraction mutation_probability verbose ->
  resolved_dimensions objective_function dimensions = Some dims ->
  bounds_ordered (padded_boundaries boundaries dims) ->
  Population.init objective_function dimensions population_size boundaries
                  elite_fraction mutation_probability mutation_range verbose
                  multiprocessing w
  = (let self :=
       Population.mk (next_id w) dims [] population_size objective_function
         (Z.to_nat (py_int (elite_fraction * inject_Z (Z.of_nat population_size))))
         mutation_probability mutation_range (padded_boundaries boundaries dims)
         verbose false false 0 (Array (repeat 0%Q dims)) 0 1 multiprocessing in
     created <- for_each (fun pointnumber =>
                            point <- Point.init (Some (Population.self_ref self)) dims ;;
                            ret (Point.set_index (Z.of_nat pointnumber) point))
                         (seq 0 population_size) ;;
     evaluated <- Population.evaluate_points self created ;;
     self <- Population.evaluate_fitness_ranks (Population.set_points evaluated self) ;;
     Population.evaluate_diversity_ranks self) (take_identity w).
Proof.
  intros Hvalid Hres Hord. unfold Population.init.
  destruct (init_checks_pass Hvalid) as (-> & -> & ->).
  eapply bind_run_eq.
  { instantiate (1 := w). instantiate (1 := dims).
    destruct dimensions as [d|]; simpl in Hres.
    - inversion Hres. reflexivity.
    - destruct objective_function as [f|]; [|discriminate].
      inversion Hres. reflexivity. }
  eapply bind_run_eq.
  { instantiate (1 := w). instantiate (1 := padded_boundaries boundaries dims).
    destruct boundaries as [given|]; simpl.
    - eapply bind_run_eq; [apply check_bounds_run, Hord|reflexivity].
    - reflexivity. }
  eapply bind_run_eq; [reflexivity|]. reflexivity.
Qed.

(** X21.  A boundary with its minimum above its maximum is refused
    before anything else happens: with an otherwise valid configuration,
    [__init__] raises [ValueError] without a draw, a call or an
    identity taken. *)
Theorem population_init_inverted_boundary objective_function dimensions
    population_size given elite_fraction mutation_probability mutation_range
    verbose multiprocessing dims w :
  valid_configuration elite_fraction mutation_probability verbose ->
  resolved_dimensions objective_function dimensions = Some dims ->
  inverted given ->
  Population.init objective_function dimensions population_size (Some given)
                  elite_fraction mutation_probability mutation_range verbose
                  multiprocessing w
  = (Raise (ValueError "Incorrect value for boundary - min greater than max for range."),
     w).
Proof.
  intros Hvalid Hres (d & b & Hd & Hb). unfold Population.init.
  destruct (init_checks_pass Hvalid) as (-> & -> & ->).
  eapply bind_run_eq.
  { instantiate (1 := w). instantiate (1 := dims).
    destruct dimensions as [d0|]; simpl in Hres.
    - inversion Hres. reflexivity.
    - destruct objective_function as [f|]; [|discriminate].
      inversion Hres. reflexivity. }
  apply bind_raise_eq, bind_raise_eq, check_bounds_raise.
  exists d, b. split; [apply lookup_app_l_Some, Hd|exact Hb].
Qed.

Lemma population_init_inverted_boundary_witness :
  Population.init (Some example_objective) None 4 (Some [(0, 100); (5, 1)]%Q)
                  (1 # 2) (1 # 2) 5 0 false half_world
  = (Raise (ValueError "Incorrect value for boundary - min greater than max for range."),
     half_world).
Proof.
  apply population_init_inverted_boundary with (dims := 2%nat).
  - unfold valid_configuration, Qle; simpl. split_and!; lia.
  - reflexivity.
  - exists 1%nat, (5, 1)%Q. split; [reflexivity|]. reflexivity.
Defined.

(** X22.  An empty population cannot be built: with
    [population_size] 0 and an otherwise valid configuration,
    [__init__] raises [ZeroDivisionError] from the mean fitness, having
    made no draw and no call. *)
Theorem population_init_empty_population objective_function dimensions
    boundaries elite_fraction mutation_probability mutation_range verbose
    multiprocessing dims w :
  valid_configuration elite_fraction mutation_probability verbose ->
  resolved_dimensions objective_function dimensions = Some dims ->
  bounds_ordered (padded_boundaries boundaries dims) ->
  Population.init objective_function dimensions 0 boundaries
                  elite_fraction mutation_probability mutation_range verbose
                  multiprocessing w
  = (Raise ZeroDivisionError, take_identity w).
Proof.
  intros Hvalid Hres Hord.
  rewrite (init_prefix_run _ _ _ _ _ _ _ Hvalid Hres Hord).
  destruct multiprocessing; reflexivity.
Qed.

Lemma population_init_empty_population_witness :
  Population.init (Some example_objective) None 0 None (1 # 2) (1 # 2) 5 0 false
                  half_world
  = (Raise ZeroDivisionError, take_identity half_world).
Proof.
  apply population_init_empty_population with (dims := 2%nat).
  - unfold valid_configuration, Qle; simpl. split_and!; lia.
  - reflexivity.
  - apply (default_bounds_ordered 2).
Defined.

(** X23.  [__init__] succeeds on every valid input: with a valid
    configuration, ordered boundaries, at least one member and an
    objective that returns a value on every vector of as many arguments
    as there are dimensions, it returns a population. *)
Theorem population_init_returns objective_function dimensions population_size
    boundaries elite_fraction mutation_probability mutation_range verbose
    multiprocessing dims w :
  valid_configuration elite_fraction mutation_probability verbose ->
  resolved_dimensions objective_function dimensions = Some dims ->
  bounds_ordered (padded_boundaries boundaries dims) ->
  (1 <= population_size)%nat ->
  defined_on objective_function dims ->
  exists self w',
    Population.init objective_function dimensions population_size boundaries
                    elite_fraction mutation_probability mutation_range verbose
                    multiprocessing w = (Return self, w').
Proof.
  intros Hvalid Hres Hord Hpos Hdef.
  rewrite (init_prefix_run _ _ _ _ _ _ _ Hvalid Hres Hord).
  set (self0 := Population.mk (next_id w) dims [] population_size objective_function
         (Z.to_nat (py_int (elite_fraction * inject_Z (Z.of_nat population_size))))
         mutation_probability mutation_range (padded_boundaries boundaries dims)
         verbose false false 0 (Array (repeat 0%Q dims)) 0 1 multiprocessing).
  simpl.
  assert (Hlen : (dims <= length (padded_boundaries boundaries dims))%nat).
  { unfold padded_boundaries. destruct boundaries as [given|].
    - rewrite length_app, repeat_length. lia.
    - rewrite repeat_length. lia. }
  destruct (@created_points_run (Population.self_ref self0) dims population_size
              Hlen 0%nat (take_identity w)) as [created Hcreated].
  pose proof Hcreated as Hshape.
  apply created_points_shape in Hshape as [Hn Hshape]; [|exact Hord].
  assert (Hdims : Forall (fun p => length (Point.coordinates p) = dims) created).
  { eapply Forall_impl; [exact Hshape|]. intros p (_ & _ & _ & Hp & _). exact Hp. }
  destruct (@evaluate_points_run self0 created
              (advance (population_size * dims) (take_identity w)))
    as [evaluated Hev].
  { exact Hn. }
  { eapply Forall_impl; [exact Hdims|]. intros p Hp. apply Hdef, Hp. }
  pose proof Hev as Hev2. apply evaluate_points_Return in Hev2 as [Hev2 _].
  pose proof (evaluated_from_coordinates Hev2) as Hcoords.
  assert (Hlen2 : length evaluated = population_size).
  { rewrite <- Hn. symmetry. eapply Forall2_length, Hev2. }
  set (w2 := record_calls (map Point.coordinates created)
                          (advance (population_size * dims) (take_identity w))) in *.
  destruct (@evaluate_fitness_ranks_run (Population.set_points evaluated self0) w2)
    as [self1 Hf]; [reflexivity|simpl; lia|].
  pose proof Hf as Hf2.
  apply evaluate_fitness_ranks_Return in Hf2 as (_ & _ & mean & Hself1); [|reflexivity].
  eexists. eexists.
  eapply bind_run_eq; [exact Hcreated|].
  eapply bind_run_eq; [exact Hev|].
  eapply bind_run_eq; [exact Hf|].
  subst self1.
  apply evaluate_diversity_ranks_run with (dims := dims).
  - reflexivity.
  - simpl. rewrite rank_prefix_length, sort_by_length. lia.
  - simpl. apply Forall_rank_prefix; [auto|]. apply Forall_sort_by.
    apply Forall_forall. intros e He.
    apply list_elem_of_lookup_1 in He as [i Hi].
    destruct (Forall2_lookup_r _ _ _ _ _ Hev2 Hi) as (p & Hp & v & _ & ->).
    simpl. exact (Forall_lookup_1 _ _ _ _ Hdims Hp).
Qed.

Lemma population_init_returns_witness :
  exists self w',
    Population.init (Some example_objective) None 4 None (1 # 2) (1 # 2) 5 0 false
                    minimize_world = (Return self, w').
Proof.
  apply population_init_returns with (dims := 2%nat).
  - unfold valid_configuration, Qle; simpl. split_and!; lia.
  - reflexivity.
  - apply (default_bounds_ordered 2).
  - lia.
  - intros [|x [|y [|z args]]] Hlen; discriminate.
Defined.

(** ** Generations: invariant and cost *)

Lemma objective_calls_refl w : objective_calls 0 0 w w.
Proof. exists []. rewrite app_nil_r. split; [reflexivity|simpl; lia]. Qed.

Lemma objective_calls_trans a b c d w1 w2 w3 :
  objective_calls a b w1 w2 -> objective_calls c d w2 w3 ->
  objective_calls (a + c) (b + d) w1 w3.
Proof.
  intros (l1 & H1 & Hl1) (l2 & H2 & Hl2). exists (l1 ++ l2).
  rewrite H2, H1, app_assoc, length_app. split; [reflexivity|lia].
Qed.

Lemma objective_calls_weaken lo hi lo' hi' w w' :
  (lo' <= lo)%nat -> (hi <= hi')%nat ->
  objective_calls lo hi w w' -> objective_calls lo' hi' w w'.
Proof. intros Hlo Hhi (l & H & Hl). exists l. split; [exact H|lia]. Qed.

Lemma objective_calls_only_draws w w' : only_draws w w' -> objective_calls 0 0 w w'.
Proof.
  intros [n ->]. exists []. simpl. rewrite app_nil_r. split; [reflexivity|lia].
Qed.

Lemma objective_calls_record l w :
  objective_calls (length l) (length l) w (record_calls l w).
Proof. exists l. split; [reflexivity|lia]. Qed.

Lemma mutate_point_calls self point w r w' :
  Population.mutate_point self point w = (Return r, w') -> objective_calls 0 1 w w'.
Proof.
  unfold Population.mutate_point. intros H.
  apply bind_Return in H as (u & w1 & Hu & H).
  apply uniform_Return in Hu as [_ ->].
  destruct (Qlt_bool u (Population.mutation_probability self)).
  - apply bind_Return in H as (m & w2 & Hm & H).
    apply bind_Return in H as (e & w3 & He & H).
    apply ret_Return in H as [_ <-].
    apply mutate_Return in Hm as (index & x & b & _ & _ & _ & _ & ->).
    apply evaluate_fitness_Return in He as [_ ->].
    exists [Point.coordinates m]. simpl. split; [reflexivity|lia].
  - apply ret_Return in H as [_ <-].
    apply objective_calls_weaken with (lo := 0%nat) (hi := 0%nat); [lia|lia|].
    apply objective_calls_only_draws, only_draws_advance.
Qed.

Lemma for_each_calls {A B} (f : A -> M B) (l : list A) :
  (forall x w y w', f x w = (Return y, w') -> objective_calls 0 1 w w') ->
  forall w ys w', for_each f l w = (Return ys, w') ->
    objective_calls 0 (length l) w w'.
Proof.
  intros Hf. induction l as [|x l IH]; intros w ys w' H; simpl in H.
  - apply ret_Return in H as [_ <-]. apply objective_calls_refl.
  - apply bind_Return in H as (y & w1 & Hy & H).
    apply bind_Return in H as (ys' & w2 & Hys & H).
    apply ret_Return in H as [_ <-].
    apply Hf in Hy. apply IH in Hys.
    exact (@objective_calls_trans _ _ _ _ _ _ _ Hy Hys).
Qed.

Lemma population_mutate_calls self w self' w' :
  Population.mutate self w = (Return self', w') ->
  objective_calls 0 (length (Population.points self)) w w'.
Proof.
  unfold Population.mutate. intros H.
  apply bind_Return in H as (results & w1 & Hres & H).
  apply ret_Return in H as [_ <-].
  eapply for_each_calls; [|exact Hres].
  intros x wa y wb. apply mutate_point_calls.
Qed.

Lemma np_binop_world op a b w r w' : np_binop op a b w = (Return r, w') -> w' = w.
Proof.
  unfold np_binop. intros H.
  destruct a as [x|u], b as [y|v];
    try (apply ret_Return in H as [_ <-]; reflexivity).
  destruct (length u =? length v)%nat;
    [apply ret_Return in H as [_ <-]; reflexivity|].
  destruct u as [|x [|x' u]], v as [|y [|y' v]];
    try discriminate; apply ret_Return in H as [_ <-]; reflexivity.
Qed.

Lemma fold_m_world {A S} (f : S -> A -> M S) (l : list A) :
  (forall s x w r w', f s x w = (Return r, w') -> w' = w) ->
  forall s w r w', fold_m f l s w = (Return r, w') -> w' = w.
Proof.
  intros Hf. induction l as [|x l IH]; intros s w r w' H; simpl in H.
  - apply ret_Return in H as [_ <-]. reflexivity.
  - apply bind_Return in H as (s1 & w1 & Hs1 & H).
    apply Hf in Hs1. apply IH in H. congruence.
Qed.

Lemma true_divide_world value n w r w' :
  true_divide value n w = (Return r, w') -> w' = w.
Proof.
  unfold true_divide. intros H.
  destruct value, n; try discriminate; apply ret_Return in H as [_ <-]; reflexivity.
Qed.

Lemma evaluate_fitness_ranks_unchanged self w self' w' :
  Population.evaluate_fitness_ranks self w = (Return self', w') -> w' = w.
Proof.
  destruct (Population.evaluated_fitness_ranks self) eqn:Hflag.
  - unfold Population.evaluate_fitness_ranks. rewrite Hflag. intros H.
    apply ret_Return in H as [_ <-]. reflexivity.
  - intros H. apply evaluate_fitness_ranks_Return in H as (_ & -> & _); auto.
Qed.

Lemma evaluate_diversity_ranks_unchanged self w self' w' :
  Population.evaluate_diversity_ranks self w = (Return self', w') -> w' = w.
Proof.
  unfold Population.evaluate_diversity_ranks.
  destruct (Population.evaluated_diversity_ranks self).
  - intros H. apply ret_Return in H as [_ <-]. reflexivity.
  - intros H.
    apply bind_Return in H as (total & w1 & Htotal & H).
    apply bind_Return in H as (mc & w2 & Hmc & H).
    apply bind_Return in H as (measured & w3 & Hm & H).
    apply bind_Return in H as (md & w4 & Hmd & H).
    apply bind_Return in H as (r & w5 & Hr & H).
    apply ret_Return in H as [_ <-].
    apply assign_ranks_Return in Hr as (_ & _ & ->).
    apply py_div_Return in Hmd as [_ ->].
    apply for_each_world in Hm.
    2:{ intros p wa y wb Hy. apply bind_Return in Hy as (d & wc & Hd & Hy).
        apply np_binop_world in Hd. apply ret_Return in Hy as [_ <-]. exact Hd. }
    apply true_divide_world in Hmc.
    unfold py_sum in Htotal. apply fold_m_world in Htotal.
    2:{ intros s x wa r0 wb. apply np_binop_world. }
    congruence.
Qed.

Lemma iterate_calls fuel self w self' w' :
  population_ok self ->
  Population.iterate fuel self w = (Return self', w') ->
  objective_calls (Population.size self) (2 * Population.size self) w w'.
Proof.
  intros Hok H. unfold Population.iterate in H.
  apply bind_Return in H as (self1 & w1 & Hbreed & H).
  apply bind_Return in H as (self2 & w2 & Hmut & H).
  apply bind_Return in H as (self3 & w3 & Hfit & H).
  apply bind_Return in H as (self4 & w4 & Hdiv & H).
  apply ret_Return in H as [_ <-].
  apply evaluate_diversity_ranks_unchanged in Hdiv. subst w4.
  apply evaluate_fitness_ranks_unchanged in Hfit. subst w3.
  pose proof (@breed_preserves _ _ _ _ _ Hok Hbreed) as (Hok1 & Hc1 & _).
  apply population_mutate_calls in Hmut.
  destruct Hok as (_ & Helite & _).
  apply breed_Return in Hbreed
    as (newpopulation & w0 & Hlen & _ & _ & Hdraws & -> & _); [|exact Helite].
  destruct Hok1 as (Hsize1 & _).
  assert (Hs : Population.size self1 = Population.size self).
  { unfold configuration in Hc1. congruence. }
  rewrite <- Hsize1, Hs in Hmut.
  apply objective_calls_only_draws in Hdraws.
  pose proof (objective_calls_record (map Point.coordinates newpopulation) w0) as Hrec.
  rewrite length_map, Hlen in Hrec.
  pose proof (@objective_calls_trans _ _ _ _ _ _ _
                (@objective_calls_trans _ _ _ _ _ _ _ Hdraws Hrec) Hmut) as Hall.
  eapply objective_calls_weaken; [| |exact Hall]; lia.
Qed.

(** X24.  One generation.  On a well-formed population a returning
    [iterate] leaves a well-formed population with the same
    configuration, both rankings in place and [num_iterations] one
    higher; it calls the objective at least once and at most twice per
    member. *)
Theorem iterate_generation fuel self w self' w' :
  population_ok self ->
  Population.iterate fuel self w = (Return self', w') ->
  population_ok self' /\
  configuration self' = configuration self /\
  Population.evaluated_fitness_ranks self' = true /\
  Population.evaluated_diversity_ranks self' = true /\
  Population.num_iterations self' = S (Population.num_iterations self) /\
  objective_calls (Population.size self) (2 * Population.size self) w w'.
Proof.
  intros Hok H.
  pose proof (@iterate_preserves _ _ _ _ _ Hok H) as (Hok' & Hc & Hf & Hd & Hn).
  split_and!; try assumption.
  exact (@iterate_calls _ _ _ _ _ Hok H).
Qed.

Lemma iterate_generation_witness :
  exists self w0 self' w',
    Population.init (Some example_objective) None 4 None (1 # 2) (1 # 2) 5 0 false
                    minimize_world = (Return self, w0) /\
    Population.iterate 10 self w0 = (Return self', w') /\
    population_ok self' /\
    Population.num_iterations self' = 2%nat /\
    objective_calls 4 8 w0 w'.
Proof.
  let r := eval vm_compute in
             (Population.init (Some example_objective) None 4 None (1 # 2) (1 # 2) 5 0
                              false minimize_world) in
  lazymatch r with
  | (Return ?s, ?w) =>
      exists s, w;
      assert (H0 : Population.init (Some example_objective) None 4 None (1 # 2) (1 # 2)
                                   5 0 false minimize_world = (Return s, w))
        by (vm_compute; reflexivity);
      let r1 := eval vm_compute in (Population.iterate 10 s w) in
      lazymatch r1 with
      | (Return ?s1, ?w1) =>
          exists s1, w1;
          assert (H1 : Population.iterate 10 s w = (Return s1, w1))
            by (vm_compute; reflexivity);
          destruct (@iterate_generation 10 s w s1 w1
                      (proj1 (@init_establishes _ _ _ _ _ _ _ _ _ _ _ _ H0)) H1)
            as (Hok & _ & _ & _ & Hn & Hcalls)
      end
  end.
  split; [exact H0|]. split; [exact H1|]. split; [exact Hok|].
  split; [exact Hn|exact Hcalls].
Defined.

Lemma converge_calls fuel n :
  forall self w self' w',
    population_ok self ->
    Population.converge fuel n self w = (Return self', w') ->
    objective_calls (n * Population.size self) (n * (2 * Population.size self)) w w'.
Proof.
  induction n as [|n IH]; intros self w self' w' Hok H; simpl in H.
  - apply ret_Return in H as [_ <-]. apply objective_calls_refl.
  - apply bind_Return in H as (self1 & w1 & Hit & H).
    pose proof (@iterate_preserves _ _ _ _ _ Hok Hit) as (Hok1 & Hc1 & _).
    assert (Hs : Population.size self1 = Population.size self).
    { unfold configuration in Hc1. congruence. }
    apply IH in H; [|exact Hok1]. rewrite Hs in H.
    pose proof (@iterate_calls _ _ _ _ _ Hok Hit) as Hcalls.
    pose proof (@objective_calls_trans _ _ _ _ _ _ _ Hcalls H) as Hall.
    eapply objective_calls_weaken; [| |exact Hall]; simpl; lia.
Qed.

(** ** maximize and minimize *)

(** X25.  What [maximize] costs: between
    [(iterations + 1) * population_size] and
    [(2 * iterations + 1) * population_size] calls of the objective. *)
Theorem maximize_cost fuel objective_function kw w r w' :
  maximize fuel objective_function kw w = (Return r, w') ->
  objective_calls ((iterations kw + 1) * population_size kw)
                  ((2 * iterations kw + 1) * population_size kw) w w'.
Proof.
  unfold maximize. intros H.
  apply bind_Return in H as (p0 & w1 & Hinit & H).
  apply bind_Return in H as (p1 & w2 & Hconv & H).
  apply ret_Return in H as [_ <-].
  pose proof Hinit as Hinv.
  apply init_inversion in Hinv as (dims & created & _ & _ & _ & Hn & _ & Hw1).
  apply init_establishes in Hinit as (Hok0 & _ & _ & Hsize & _).
  apply converge_calls in Hconv; [|exact Hok0]. rewrite Hsize in Hconv.
  assert (Hfirst : objective_calls (population_size kw) (population_size kw) w w1).
  { exists (map Point.coordinates created). rewrite Hw1. simpl.
    rewrite length_map, Hn. split; [reflexivity|lia]. }
  pose proof (@objective_calls_trans _ _ _ _ _ _ _ Hfirst Hconv) as Hall.
  eapply objective_calls_weaken; [| |exact Hall]; lia.
Qed.

Lemma maximize_cost_witness :
  exists r w',
    maximize 10 (Some example_objective) minimize_kwargs minimize_world = (Return r, w') /\
    objective_calls 12 20 minimize_world w'.
Proof.
  let r := eval vm_compute in
             (maximize 10 (Some example_objective) minimize_kwargs minimize_world) in
  lazymatch r with
  | (Return ?p, ?w) =>
      exists p, w;
      assert (H : maximize 10 (Some example_objective) minimize_kwargs minimize_world
                  = (Return p, w)) by (vm_compute; reflexivity);
      split; [exact H | exact (@maximize_cost _ _ _ _ _ _ H)]
  end.
Defined.

Lemma maximize_inversion fuel objective_function kw w r w' :
  maximize fuel objective_function kw w = (Return r, w') ->
  exists dims population,
    resolved_dimensions objective_function (dimensions kw) = Some dims /\
    population_ok population /\
    Population.num_dimensions population = dims /\
    Population.size population = population_size kw /\
    Population.objective_function population = objective_function /\
    Population.num_iterations population = S (iterations kw) /\
    (1 <= population_size kw)%nat /\
    r = Population.best_estimate population.
Proof.
  unfold maximize. intros H.
  apply bind_Return in H as (p0 & w1 & Hinit & H).
  apply bind_Return in H as (p1 & w2 & Hconv & H).
  apply ret_Return in H as [<- _].
  pose proof Hinit as Hinv.
  apply init_inversion in Hinv as (dims & created & Hres & Hconf & Hpos & _).
  apply init_establishes in Hinit as (Hok0 & _ & _ & Hsize & Hobj & Hn).
  apply converge_preserves in Hconv as (Hok1 & Hc & Hn1); [|exact Hok0].
  exists dims, p1. rewrite Hconf in Hc. unfold configuration in Hc.
  split_and!; try assumption; try congruence. lia.
Qed.






(** X28.  [minimize] does not read the arity of the objective: the
    function it hands to [maximize] takes a variable argument list, so
    with [dimensions] omitted the population has zero dimensions.  A
    point it then returns has no coordinates, and its fitness is the
    objective called without arguments. *)
Theorem minimize_without_dimensions fuel f kw w p w' :
  dimensions kw = None ->
  minimize fuel f kw w = (Return p, w') ->
  Point.coordinates p = [] /\ objective_at f [] = Some (Point.fitness p).
Proof.
  intros Hdims. unfold minimize. intros H.
  apply bind_Return in H as (r & w1 & Hmax & H).
  apply maximize_inversion in Hmax
    as (dims & population & Hres & Hok & Hnd & _ & _ & _ & _ & ->).
  rewrite Hdims in Hres. simpl in Hres. injection Hres as <-.
  destruct (Population.best_estimate population) as [best|] eqn:Hbest;
    [|discriminate].
  apply best_estimate_member in Hbest.
  destruct Hok as (_ & _ & _ & _ & Hpts & _).
  rewrite Forall_forall in Hpts.
  destruct (Hpts _ Hbest) as [(_ & _ & _ & Hlen & _) _].
  rewrite Hnd in Hlen. apply nil_length_inv in Hlen.
  apply evaluate_fitness_Return in H as [(v & Hv & ->) _].
  simpl. rewrite Hlen in Hv. auto.
Qed.

Lemma minimize_without_dimensions_witness :
  exists p w',
    minimize 0 (Some constant_objective) no_dimensions_kwargs half_world = (Return p, w') /\
    Point.coordinates p = [] /\
    objective_at (Some constant_objective) [] = Some (Point.fitness p).
Proof.
  let r := eval vm_compute in
      (minimize 0 (Some constant_objective) no_dimensions_kwargs half_world) in
  lazymatch r with
  | (Return ?p, ?w) =>
      exists p, w;
      assert (H : minimize 0 (Some constant_objective) no_dimensions_kwargs half_world
                  = (Return p, w)) by (vm_compute; reflexivity);
      split; [exact H |
              exact (@minimize_without_dimensions 0 (Some constant_objective)
                       no_dimensions_kwargs half_world p w eq_refl H)]
  end.
Defined.

(** ** Mutation and breeding at the edges *)

(** X29.  What [__mutate] can do to a well-formed population: each
    member is kept as it is, or has the upper bound stored in one of its
    dimensions and its fitness evaluated again.  The population object
    is unchanged, or both rank flags are cleared. *)
Theorem population_mutate_effect self w self' w' :
  population_ok self ->
  Population.mutate self w = (Return self', w') ->
  Forall2 (kept_or_pushed_to_upper_bound self)
          (Population.points self) (Population.points self') /\
  (self' = self \/
   (Population.evaluated_fitness_ranks self' = false /\
    Population.evaluated_diversity_ranks self' = false)).
Proof.
  intros (_ & _ & Hord & _ & Hpts & _) H.
  apply mutate_Return_population in H as (results & Hres & Hself).
  assert (Hall : Forall2 (kept_or_pushed_to_upper_bound self)
                         (Population.points self) (map fst results)).
  { clear Hself. revert Hpts.
    induction Hres as [|p r pts results Hr _ IH]; intros Hpts; simpl;
      constructor; inversion Hpts as [|? ? Hp Hrest]; subst; [|apply IH, Hrest].
    destruct Hr as [[_ ->]|(_ & m & wa & wb & Hm & v & Hv & ->)]; [left; reflexivity|].
    right.
    destruct Hp as [(_ & Hbs & _) _]. simpl in Hbs.
    apply mutate_Return in Hm as (index & x & b & _ & Hx & Hb & -> & _).
    rewrite Hbs in Hb.
    rewrite py_max_min_upper in * by (eapply Hord, Hb).
    exists index, b, v. split; [exact Hb|].
    split; [eapply lookup_lt_Some, Hx|]. split; [exact Hv|reflexivity]. }
  destruct (existsb snd results) eqn:E; subst self'; simpl.
  - split; [exact Hall|]. right. split; reflexivity.
  - assert (Hsame : map fst results = Population.points self).
    { apply unmutated_points; [|exact E].
      eapply Forall2_impl; [exact Hres|]. simpl.
      intros p r [Hl|(Ht & m & _)]; [left; exact Hl | right; eauto]. }
    rewrite Hsame in *. rewrite population_set_points_same.
    split; [exact Hall|]. left. reflexivity.
Qed.

Lemma population_mutate_effect_witness :
  exists self w0 self' w',
    Population.init (Some example_objective) None 4 None (1 # 2) (1 # 2) 5 0 false
                    minimize_world = (Return self, w0) /\
    Population.mutate self w0 = (Return self', w') /\
    Forall2 (kept_or_pushed_to_upper_bound self)
            (Population.points self) (Population.points self').
Proof.
  let r := eval vm_compute in
             (Population.init (Some example_objective) None 4 None (1 # 2) (1 # 2) 5 0
                              false minimize_world) in
  lazymatch r with
  | (Return ?s, ?w) =>
      exists s, w;
      assert (H0 : Population.init (Some example_objective) None 4 None (1 # 2) (1 # 2)
                                   5 0 false minimize_world = (Return s, w))
        by (vm_compute; reflexivity);
      let r1 := eval vm_compute in (Population.mutate s w) in
      lazymatch r1 with
      | (Return ?s1, ?w1) =>
          exists s1, w1;
          assert (H1 : Population.mutate s w = (Return s1, w1))
            by (vm_compute; reflexivity);
          destruct (@population_mutate_effect s w s1 w1
                      (proj1 (@init_establishes _ _ _ _ _ _ _ _ _ _ _ _ H0)) H1)
            as (Hall & _)
      end
  end.
  split; [exact H0|]. split; [exact H1|exact Hall].
Defined.

(** X30.  A population of one member without an elite slot cannot breed:
    the selection of two distinct parents never succeeds, so [__breed]
    raises or runs for ever, whatever the draws. *)
Theorem breed_needs_two_members fuel self w :
  length (Population.points self) = 1%nat ->
  Population.size self = 1%nat ->
  Population.elite_population_size self = 0%nat ->
  exists w',
    Population.breed fuel self w = (OutOfFuel, w') \/
    exists e, Population.breed fuel self w = (Raise e, w').
Proof.
  intros Hlen Hsize Helite.
  destruct (Population.breed fuel self w) as [[self'|e|] w'] eqn:H.
  - exfalso. exact (@breed_single_member_never_returns _ _ _ _ _ Hlen Hsize Helite H).
  - exists w'. right. exists e. reflexivity.
  - exists w'. left. reflexivity.
Qed.

Lemma breed_needs_two_members_witness :
  exists w',
    Population.breed 5 lone_population minimize_world = (OutOfFuel, w') \/
    exists e, Population.breed 5 lone_population minimize_world = (Raise e, w').
Proof. apply breed_needs_two_members; reflexivity. Defined.
